(** * CollabLearn desktop agent: execution and orchestration engine

    A shallow embedding of the agent execution core
    (src/main/agents/CopilotSdkAdapter.ts, src/main/services/AgentManager.ts,
    src/main/services/PhaseOrchestrator.ts) together with the properties the
    specification states about it.

    JavaScript strings are sequences of UTF-16 code units, so they are lists
    of [N] here; regular expressions are parsed from their source text and run
    by a backtracking matcher with JavaScript's greedy priority; an rxjs
    Subject is a record holding what was emitted, what reached the subscriber
    and how the stream was closed; asynchronous code takes the outcomes of the
    calls it awaits as explicit arguments. *)

From Stdlib Require Import String Ascii NArith ZArith Decimal DecimalString.
From stdpp Require Import base option list gmap.

Local Open Scope N_scope.
Local Open Scope list_scope.

(* ===================================================================== *)
(** ** JavaScript strings *)
(* ===================================================================== *)

Module Js.

(** A string is its list of UTF-16 code units. *)
Definition jsstring := list N.

(** An ASCII literal as a JavaScript string. *)
Definition str (s : string) : jsstring :=
  map N_of_ascii (list_ascii_of_string s).

Definition LF : N := 10.

(** [s.split('\n')]: always at least one piece. *)
Fixpoint split_lines (s : jsstring) : list jsstring :=
  match s with
  | [] => [[]]
  | c :: t =>
      if N.eqb c LF then [] :: split_lines t
      else match split_lines t with
           | l :: ls => (c :: l) :: ls
           | [] => [[c]]
           end
  end.

(** WhiteSpace and LineTerminator code units, the ones [trim] removes. *)
Definition is_space (c : N) : bool :=
  (9 <=? c) && (c <=? 13)
  || N.eqb c 32 || N.eqb c 160 || N.eqb c 5760
  || (8192 <=? c) && (c <=? 8202)
  || N.eqb c 8232 || N.eqb c 8233 || N.eqb c 8239 || N.eqb c 8287
  || N.eqb c 12288 || N.eqb c 65279.

Fixpoint trim_start (s : jsstring) : jsstring :=
  match s with
  | c :: t => if is_space c then trim_start t else s
  | [] => []
  end.

Definition trim (s : jsstring) : jsstring :=
  reverse (trim_start (reverse (trim_start s))).

(** [s.slice(0, n)] for a non-negative [n]. *)
Definition slice_to (n : nat) (s : jsstring) : jsstring := take n s.

(** [s.slice(-n)] for a non-negative [n]: the last [n] code units, and the
    whole string when [n] is zero, since [-0] is [0]. *)
Definition slice_last (n : nat) (s : jsstring) : jsstring :=
  match n with
  | O => s
  | _ => drop (length s - n) s
  end.

Fixpoint starts_with (p s : jsstring) : bool :=
  match p, s with
  | [], _ => true
  | a :: p', b :: s' => N.eqb a b && starts_with p' s'
  | _ :: _, [] => false
  end.

(** [s.includes(p)]. *)
Fixpoint includes (p s : jsstring) : bool :=
  starts_with p s ||
  match s with
  | [] => false
  | _ :: t => includes p t
  end.

(** [a.join(sep)]. *)
Fixpoint join (sep : jsstring) (l : list jsstring) : jsstring :=
  match l with
  | [] => []
  | [x] => x
  | x :: r => x ++ sep ++ join sep r
  end.

(** Decimal rendering of an integer, as a template literal prints it. *)
Definition of_N (n : N) : jsstring :=
  str (NilEmpty.string_of_uint (N.to_uint n)).

Definition of_Z (z : Z) : jsstring :=
  match z with
  | Zneg p => str "-" ++ of_N (Npos p)
  | _ => of_N (Z.to_N z)
  end.

(** A value caught by [catch (error)]. *)
Inductive Thrown :=
  | ErrorObj (message : jsstring)
  | NonError.

(** [error instanceof Error ? error.message : 'Unknown error'] *)
Definition message_or_unknown (e : Thrown) : jsstring :=
  match e with
  | ErrorObj m => m
  | NonError => str "Unknown error"
  end.

(** The result of a call that may throw, or of an awaited promise. *)
Inductive Outcome (A : Type) :=
  | Ok (a : A)
  | Throws (e : Thrown).
Arguments Ok {A} a.
Arguments Throws {A} e.

End Js.

Import Js.

(* ===================================================================== *)
(** ** Regular expressions *)
(* ===================================================================== *)

(** The part of the RegExp language this program's patterns are written in:
    literal characters, [\]-escapes of punctuation and [\xHH], [.], bracket
    classes with ranges, the greedy quantifier [*], [^] at the start and [$]
    at the end, and the [i] flag.  Anything else is refused by
    the parser ([None]).  Case folding is the ASCII one, which is what the
    [i] flag does for patterns made of ASCII characters. *)
Module Regex.

Inductive CharSet :=
  | CsChar (c : N)
  | CsAny
  | CsClass (negated : bool) (ranges : list (N * N)).

Inductive Quant := One | Star.

Definition Item : Type := CharSet * Quant.

Record RegExp := mkRegExp {
  anchorStart : bool;
  items : list Item;
  anchorEnd : bool;
  ignoreCase : bool;
}.

Definition is_line_terminator (c : N) : bool :=
  N.eqb c 10 || N.eqb c 13 || N.eqb c 8232 || N.eqb c 8233.

Definition is_lower (c : N) : bool := (97 <=? c) && (c <=? 122).
Definition is_upper (c : N) : bool := (65 <=? c) && (c <=? 90).

Definition canonicalize (ic : bool) (c : N) : N :=
  if ic && is_lower c then c - 32 else c.

Definition swap_case (c : N) : N :=
  if is_lower c then c - 32 else if is_upper c then c + 32 else c.

Definition in_ranges (rs : list (N * N)) (c : N) : bool :=
  existsb (fun r => (fst r <=? c) && (c <=? snd r)) rs.

Definition in_set (ic : bool) (cs : CharSet) (c : N) : bool :=
  match cs with
  | CsChar a => N.eqb (canonicalize ic a) (canonicalize ic c)
  | CsAny => negb (is_line_terminator c)
  | CsClass neg rs =>
      xorb neg (in_ranges rs c || ic && in_ranges rs (swap_case c))
  end.

(** *** Parsing a pattern's source text *)

Definition hex_val (c : N) : option N :=
  if (48 <=? c) && (c <=? 57) then Some (c - 48)
  else if (97 <=? c) && (c <=? 102) then Some (c - 87)
  else if (65 <=? c) && (c <=? 70) then Some (c - 55)
  else None.

Definition is_digit (c : N) : bool := (48 <=? c) && (c <=? 57).

Definition syntax_chars : jsstring := str "^$\.*+?()[]{}|/-".

(** What follows a backslash. *)
Definition parse_escape (s : jsstring) : option (N * jsstring) :=
  match s with
  | 120 :: h :: l :: rest =>
      match hex_val h, hex_val l with
      | Some a, Some b => Some (16 * a + b, rest)
      | _, _ => None
      end
  | 110 :: rest => Some (10, rest)
  | 114 :: rest => Some (13, rest)
  | 116 :: rest => Some (9, rest)
  | c :: rest =>
      if existsb (N.eqb c) syntax_chars then Some (c, rest) else None
  | [] => None
  end.

Definition class_atom (s : jsstring) : option (N * jsstring) :=
  match s with
  | 92 :: r => parse_escape r
  | c :: r => Some (c, r)
  | [] => None
  end.

(** The members of a bracket class, up to the closing bracket. *)
Fixpoint parse_class (fuel : nat) (s : jsstring) (acc : list (N * N))
  : option (list (N * N) * jsstring) :=
  match fuel with
  | O => None
  | S f =>
      match s with
      | [] => None
      | 93 :: rest => Some (reverse acc, rest)
      | _ =>
          match class_atom s with
          | None => None
          | Some (lo, rest) =>
              match rest with
              | 45 :: 93 :: _ => parse_class f rest ((lo, lo) :: acc)
              | 45 :: rest' =>
                  match class_atom rest' with
                  | Some (hi, rest'') =>
                      if lo <=? hi then parse_class f rest'' ((lo, hi) :: acc)
                      else None
                  | None => None
                  end
              | _ => parse_class f rest ((lo, lo) :: acc)
              end
          end
      end
  end.

Definition parse_atom (s : jsstring) : option (CharSet * jsstring) :=
  match s with
  | [] => None
  | 92 :: r =>
      match parse_escape r with
      | Some (c, rest) => Some (CsChar c, rest)
      | None => None
      end
  | 46 :: r => Some (CsAny, r)
  | 91 :: 94 :: r =>
      match parse_class (S (length r)) r [] with
      | Some (rs, rest) => Some (CsClass true rs, rest)
      | None => None
      end
  | 91 :: r =>
      match parse_class (S (length r)) r [] with
      | Some (rs, rest) => Some (CsClass false rs, rest)
      | None => None
      end
  | 123 :: d :: r =>
      if is_digit d then None else Some (CsChar 123, d :: r)
  | c :: r =>
      if existsb (N.eqb c) (str "^$*+?()|") then None
      else Some (CsChar c, r)
  end.

Definition parse_quant (s : jsstring) : option (Quant * jsstring) :=
  match s with
  | 42 :: 63 :: _ | 43 :: _ | 63 :: _ => None
  | 42 :: r => Some (Star, r)
  | 123 :: d :: _ => if is_digit d then None else Some (One, s)
  | _ => Some (One, s)
  end.

Fixpoint parse_items (fuel : nat) (s : jsstring)
  : option (list Item * bool) :=
  match fuel with
  | O => None
  | S f =>
      match s with
      | [] => Some ([], false)
      | [36] => Some ([], true)
      | _ =>
          match parse_atom s with
          | None => None
          | Some (cs, r1) =>
              match parse_quant r1 with
              | None => None
              | Some (q, r2) =>
                  match parse_items f r2 with
                  | Some (its, e) => Some ((cs, q) :: its, e)
                  | None => None
                  end
              end
          end
      end
  end.

(** [new RegExp(source, ic ? 'i' : '')], and a literal [/source/] or
    [/source/i]. *)
Definition compile (source : jsstring) (ic : bool) : option RegExp :=
  let '(a, body) :=
    match source with
    | 94 :: r => (true, r)
    | _ => (false, source)
    end in
  match parse_items (S (length body)) body with
  | Some (its, e) => Some (mkRegExp a its e ic)
  | None => None
  end.

(** *** Matching *)

(** A starred character set followed by the rest of the pattern [k]: as
    many characters as possible are taken first, and one fewer is tried
    when the rest does not match. *)
Fixpoint star (inset : N -> bool) (k : jsstring -> option nat)
  (s : jsstring) : option nat :=
  match s with
  | c :: t =>
      if inset c then
        match star inset k t with
        | Some n => Some (S n)
        | None => k s
        end
      else k s
  | [] => k []
  end.

Section Matching.
Variable ic : bool.
Variable at_end : bool.

(** A match of the items at the head of [s]: the number of code units it
    takes, found in the order a backtracking matcher tries them. *)
Fixpoint match_here (its : list Item) (s : jsstring) {struct its}
  : option nat :=
  match its with
  | [] =>
      if at_end then match s with [] => Some O | _ => None end
      else Some O
  | (cs, One) :: r =>
      match s with
      | c :: t => if in_set ic cs c then S <$> match_here r t else None
      | [] => None
      end
  | (cs, Star) :: r => star (in_set ic cs) (match_here r) s
  end.

(** The leftmost match: where it starts and how long it is. *)
Fixpoint search (its : list Item) (s : jsstring) : option (nat * nat) :=
  match match_here its s with
  | Some n => Some (O, n)
  | None =>
      match s with
      | [] => None
      | _ :: t =>
          match search its t with
          | Some (i, n) => Some (S i, n)
          | None => None
          end
      end
  end.

(** Every match replaced, left to right.  [skip] counts the code units
    of the current match still to be dropped. *)
Fixpoint replace_from (its : list Item) (rep : jsstring) (skip : nat)
  (s : jsstring) : jsstring :=
  match skip with
  | S k =>
      match s with
      | _ :: t => replace_from its rep k t
      | [] => []
      end
  | O =>
      match match_here its s with
      | Some O =>
          match s with
          | c :: t => rep ++ c :: replace_from its rep O t
          | [] => rep
          end
      | Some (S n) =>
          match s with
          | _ :: t => rep ++ replace_from its rep n t
          | [] => rep
          end
      | None =>
          match s with
          | c :: t => c :: replace_from its rep O t
          | [] => []
          end
      end
  end.
End Matching.

(** [re.exec(s)] for a pattern without the [g] flag. *)
Definition exec (re : RegExp) (s : jsstring) : option (nat * nat) :=
  if anchorStart re then
    match match_here (ignoreCase re) (anchorEnd re) (items re) s with
    | Some n => Some (O, n)
    | None => None
    end
  else search (ignoreCase re) (anchorEnd re) (items re) s.

(** [re.test(s)] for a pattern without the [g] flag. *)
Definition test (re : RegExp) (s : jsstring) : bool :=
  match exec re s with Some _ => true | None => false end.

(** [s.replace(/re/g, rep)] for an unanchored pattern and a replacement
    text without [$]. *)
Definition replace_all (re : RegExp) (rep s : jsstring) : jsstring :=
  replace_from (ignoreCase re) (anchorEnd re) (items re) rep O s.

(** A pattern written as a literal in the source: its text is known to be
    well formed, so an unparsable text stands for the pattern that matches
    nothing. *)
Definition literal (source : jsstring) (ic : bool) : RegExp :=
  match compile source ic with
  | Some re => re
  | None => mkRegExp true [(CsClass false [], One)] true ic
  end.

End Regex.

(* ===================================================================== *)
(** ** Shared types (src/main/agents/types.ts, src/shared/types.ts) *)
(* ===================================================================== *)

(** Time stamps are left out of the events: they are wall-clock readings
    that no function modelled here inspects. *)
Module Types.

Inductive OutputType :=
  | stdout | stderr | status | complete | error
  | tool_start | tool_end | tool_error.

Record AgentOutput := mkOutput {
  type : OutputType;
  data : jsstring;
  toolName : option jsstring;
}.

(** An output without the tool fields. *)
Definition plain (t : OutputType) (d : jsstring) : AgentOutput :=
  mkOutput t d None.

(** The two terminal kinds of output. *)
Definition is_terminal (o : AgentOutput) : bool :=
  match type o with
  | complete | error => true
  | _ => false
  end.

Inductive ToolEventType := ev_start | ev_end | ev_error.

Definition output_type_of (t : ToolEventType) : OutputType :=
  match t with
  | ev_start => tool_start
  | ev_end => tool_end
  | ev_error => tool_error
  end.

(** The [args] and [result] records of a tool event are carried as an
    optional success flag only. *)
Record ToolExecutionEvent := mkToolEvent {
  evType : ToolEventType;
  evToolName : jsstring;
  evSuccess : option bool;
  evError : option jsstring;
}.

Record TaskPrompt := mkPrompt {
  promptId : jsstring;
  title : jsstring;
  description : jsstring;
  projectPath : jsstring;
  model : option jsstring;
  workspaceId : option Z;
}.

Inductive TaskStatus := pending | in_progress | completed | blocked.

Record Task := mkTask {
  taskId : Z;
  taskTitle : jsstring;
  taskDescription : option jsstring;
  taskStatus : TaskStatus;
  phaseId : Z;
}.

(** *** The adapter interface *)

(** What a spawned child process does afterwards, as the events its
    listeners receive. *)
Inductive ChildEvent :=
  | stdout_data (d : jsstring)
  | stderr_data (d : jsstring)
  | close_event (code : option Z)
  | error_event (message : jsstring).

(** [adapter.execute(task, options)]: the call throws, or returns a child
    process. *)
Inductive Launch :=
  | spawn_throws (e : Thrown)
  | spawned (events : list ChildEvent).

(** A call an SDK execution makes on the two callbacks it is given. *)
Inductive Callback :=
  | onOutput (o : AgentOutput)
  | onToolEvent (e : ToolExecutionEvent).

(** [adapter.executeSdk(task, options, onOutput, onToolEvent)]: the
    callbacks made before the call returns, the ones made later, and
    whether the [done] promise rejects. *)
Record SdkExecution := mkSdkExecution {
  syncCalls : list Callback;
  asyncCalls : list Callback;
  doneRejects : bool;
}.

Inductive SdkLaunch :=
  | sdk_throws (e : Thrown)
  | sdk_started (x : SdkExecution).

(** [executeSdk] is the optional method of the interface. *)
Record AgentAdapter := mkAdapter {
  id : jsstring;
  name : jsstring;
  execute : TaskPrompt -> Launch;
  executeSdk : option (TaskPrompt -> SdkLaunch);
}.

End Types.

(* ===================================================================== *)
(** ** The session adapter (src/main/agents/CopilotSdkAdapter.ts) *)
(* ===================================================================== *)

Module CopilotSdk.
Import Types.

Definition len (s : jsstring) : N := N.of_nat (length s).

(** *** Text helpers *)

(** [input.replace(/\x1b\[[0-9;]*m/g, '')] *)
Definition ansi_pattern : Regex.RegExp :=
  Regex.literal (str "\x1b\[[0-9;]*m") false.

Definition stripAnsi (input : jsstring) : jsstring :=
  Regex.replace_all ansi_pattern [] input.

(** The text put between head and tail when [n] code units are cut. *)
Definition truncation_marker (n : Z) : jsstring :=
  [LF] ++ str "...[truncated " ++ of_Z n ++ str " chars]..." ++ [LF].

(** [Math.floor(maxChars * 0.5)] is [maxChars / 2] on the natural numbers
    the callers pass. *)
Definition truncateText (input : jsstring) (maxChars : N) : jsstring :=
  if len input <=? maxChars then input
  else
    let head := slice_to (N.to_nat (maxChars / 2)) input in
    let tail := slice_last (N.to_nat (maxChars / 2)) input in
    head
      ++ truncation_marker
           (Z.of_N (len input) - Z.of_N (len head) - Z.of_N (len tail))
      ++ tail.

Definition default_maxChars : N := 20000.

Definition safeToolText (input : jsstring) (maxChars : N) : jsstring :=
  truncateText (stripAnsi input) maxChars.

(** *** The host the tools run on *)

(** What [exec] gives back: on failure the rejection carries the message
    and, when the command ran, its output and exit code. *)
Inductive ExecOutcome :=
  | ExecOk (out err : jsstring)
  | ExecFail (message : option jsstring) (out err : option jsstring)
             (code : option Z).

(** A directory tree as [fs.readdir] shows it; a directory that cannot be
    read makes [readdir] throw. *)
#[warnings="-register-all"]
Inductive Entry :=
  | FileE (name : jsstring)
  | DirE (name : jsstring) (children : Outcome (list Entry)).

Record SearchHit := mkHit {
  hitFile : jsstring;
  hitLine : N;
  hitContent : jsstring;
  hitMatch : jsstring;
}.

(** The answer of the search service, after [JSON.parse]. *)
Record SearchAnswer := mkAnswer {
  Abstract : jsstring;
  Heading : jsstring;
  AbstractURL : jsstring;
  RelatedTopics : option (list (jsstring * jsstring));
}.

(** File system, child processes and library calls, each answering with
    the outcome of the call. *)
Record Host := mkHost {
  path_join : jsstring -> jsstring -> jsstring;
  path_dirname : jsstring -> jsstring;
  fs_mkdir : jsstring -> Outcome unit;
  fs_writeFile : jsstring -> jsstring -> Outcome unit;
  fs_readFile : jsstring -> Outcome jsstring;
  fs_unlink : jsstring -> Outcome unit;
  fs_readdir : jsstring -> Outcome (list Entry);
  execAsync : jsstring -> ExecOutcome;
  (** [new RegExp(pattern, flags)] on a caller's pattern, the flag saying
      whether it is case sensitive: the function that gives the first
      match in a text, or a SyntaxError. *)
  new_RegExp : jsstring -> bool -> Outcome (jsstring -> option jsstring);
  (** the [match] lines of ripgrep's JSON output *)
  parse_rg_json : jsstring -> list SearchHit;
  JSON_parse : jsstring -> Outcome SearchAnswer;
  encodeURIComponent : jsstring -> jsstring;
  (** the three tag-stripping replacements followed by the whitespace
      collapse and the trim of [web_fetch] *)
  strip_tags : jsstring -> jsstring;
}.

(** *** Tool handlers run in a writer-and-error monad *)

(** The events passed to [onToolEvent] so far, and the value or the
    exception the code ends with; [emit e] is the call [onToolEvent(e)]. *)
Definition H (A : Type) : Type := (list ToolExecutionEvent * Outcome A)%type.

Definition H_ret {A} (a : A) : H A := ([], Ok a).

Definition H_bind {A B} (m : H A) (k : A -> H B) : H B :=
  match m with
  | (evs, Ok a) => let '(evs', r) := k a in (evs ++ evs', r)
  | (evs, Throws e) => (evs, Throws e)
  end.

Definition lift {A} (o : Outcome A) : H A := ([], o).

Definition emit (e : ToolExecutionEvent) : H unit := ([e], Ok ()).

(** [try { body } catch (error) { handler(error) }] *)
Definition try_catch {A} (body : H A) (handler : Thrown -> H A) : H A :=
  match body with
  | (evs, Ok a) => (evs, Ok a)
  | (evs, Throws e) => let '(evs', r) := handler e in (evs ++ evs', r)
  end.

Declare Scope handler_scope.
Delimit Scope handler_scope with H.
Notation "x <- m ;; k" := (H_bind m (fun x => k))
  (at level 100, m at next level, right associativity) : handler_scope.
Notation "m ;;; k" := (H_bind m (fun _ => k))
  (at level 100, right associativity) : handler_scope.

Definition exec_as_outcome (r : ExecOutcome) : Outcome (jsstring * jsstring) :=
  match r with
  | ExecOk o e => Ok (o, e)
  | ExecFail (Some m) _ _ _ => Throws (ErrorObj m)
  | ExecFail None _ _ _ => Throws (ErrorObj [])
  end.

Definition started (name : jsstring) : ToolExecutionEvent :=
  mkToolEvent ev_start name None None.
Definition ended (name : jsstring) : ToolExecutionEvent :=
  mkToolEvent ev_end name (Some true) None.
Definition errored (name msg : jsstring) : ToolExecutionEvent :=
  mkToolEvent ev_error name None (Some msg).

(** *** Results of the tools *)

Record FileInfo := mkFileInfo {
  fiName : jsstring;
  fiIsFile : bool;
  fiPath : jsstring;
}.

Inductive Payload :=
  | P_none
  | P_edit_file (filePath : jsstring) (bytesWritten : N)
  | P_read_file (content : jsstring) (bytesRead : N)
  | P_run_command (out err : jsstring) (exitCode : Z)
  | P_list_files (files : list FileInfo) (count : N)
  | P_delete_file (filePath : jsstring)
  | P_search_code (results : list SearchHit) (count : N)
  | P_find_files (files : list jsstring) (count : N)
  | P_apply_patch (filePath : jsstring) (appliedEdits totalEdits : N)
                  (details : list (jsstring * bool))
  | P_web_search (query : jsstring)
                 (results : list (jsstring * jsstring * jsstring))
                 (count : N)
  | P_web_fetch (url content : jsstring) (length : N)
  | P_todo_write (filePath : jsstring) (itemCount : N).

(** The object a handler returns: [success], [error] when there is one,
    and the fields particular to the tool. *)
Record ToolResult := mkResult {
  success : bool;
  error : option jsstring;
  payload : Payload;
}.

(** *** Helpers of the handlers *)

Definition ignored_dirs : list jsstring :=
  [str "node_modules"; str ".git"; str "dist"; str ".next";
   str "__pycache__"].

Definition jsstring_eqb (a b : jsstring) : bool :=
  bool_decide (a = b).

Definition prepend_dir (dir : jsstring) (e : FileInfo) : FileInfo :=
  mkFileInfo (fiName e) (fiIsFile e) (dir ++ [47] ++ fiPath e).

(** [listFilesRecursive]: what one entry of a directory adds to the
    listing.  An entry's relative path is its name, and the path of an
    entry below it is joined to that name. *)
Fixpoint listEntry (recursive : bool) (maxDepth : Z) (currentDepth : Z)
  (entry : Entry) {struct entry} : Outcome (list FileInfo) :=
  match entry with
  | FileE name =>
      if existsb (jsstring_eqb name) ignored_dirs then Ok []
      else Ok [mkFileInfo name true name]
  | DirE name children =>
      if existsb (jsstring_eqb name) ignored_dirs then Ok []
      else if recursive && (currentDepth <? maxDepth)%Z then
        match children with
        | Ok sub =>
            match
              (fix each (l : list Entry) : Outcome (list FileInfo) :=
                 match l with
                 | [] => Ok []
                 | x :: r =>
                     match listEntry recursive maxDepth (currentDepth + 1) x with
                     | Ok a =>
                         match each r with
                         | Ok b => Ok (a ++ b)
                         | Throws e => Throws e
                         end
                     | Throws e => Throws e
                     end
                 end) sub
            with
            | Ok l => Ok (mkFileInfo name false name :: map (prepend_dir name) l)
            | Throws e => Throws e
            end
        | Throws e => Throws e
        end
      else Ok [mkFileInfo name false name]
  end.

Fixpoint listEntries (recursive : bool) (maxDepth currentDepth : Z)
  (entries : list Entry) : Outcome (list FileInfo) :=
  match entries with
  | [] => Ok []
  | x :: r =>
      match listEntry recursive maxDepth currentDepth x with
      | Ok a =>
          match listEntries recursive maxDepth currentDepth r with
          | Ok b => Ok (a ++ b)
          | Throws e => Throws e
          end
      | Throws e => Throws e
      end
  end.

(** The glob of [find_files] turned into the source of a regular
    expression: five replacements in the order of the code. *)
Definition glob_to_regex_source (pattern : jsstring) : jsstring :=
  let s1 := Regex.replace_all (Regex.literal (str "\*\*") false)
              (str "{{GLOBSTAR}}") pattern in
  let s2 := Regex.replace_all (Regex.literal (str "\*") false)
              (str "[^/]*") s1 in
  let s3 := Regex.replace_all (Regex.literal (str "\?") false)
              (str "[^/]") s2 in
  let s4 := Regex.replace_all (Regex.literal (str "{{GLOBSTAR}}") false)
              (str ".*") s3 in
  Regex.replace_all (Regex.literal (str "\.") false) (str "\.") s4.

(** [new RegExp(`^${regexPattern}$`)]; [None] when the text is outside
    the modelled pattern language. *)
Definition glob_regex (pattern : jsstring) : option Regex.RegExp :=
  Regex.compile (str "^" ++ glob_to_regex_source pattern ++ str "$") false.

(** The loop of [find_files] over the listed entries. *)
Fixpoint find_loop (matches : jsstring -> bool) (ignore : list jsstring)
  (maxResults : Z) (files : list FileInfo) (results : list jsstring)
  : list jsstring :=
  match files with
  | [] => results
  | file :: rest =>
      if (maxResults <=? Z.of_nat (length results))%Z then results
      else if negb (fiIsFile file) then
        find_loop matches ignore maxResults rest results
      else if existsb (fun ig => includes ig (fiPath file)) ignore then
        find_loop matches ignore maxResults rest results
      else if matches (fiPath file) then
        find_loop matches ignore maxResults rest (results ++ [fiPath file])
      else find_loop matches ignore maxResults rest results
  end.

(** First occurrence of [p] in [s]: what is before and what is after. *)
Fixpoint find_first (p s : jsstring) : option (jsstring * jsstring) :=
  if starts_with p s then Some ([], drop (length p) s)
  else match s with
       | [] => None
       | c :: t =>
           match find_first p t with
           | Some (b, a) => Some (c :: b, a)
           | None => None
           end
       end.

(** The replacement text of [String.prototype.replace] with a string
    pattern: [$$], [$&], [$`] and [$'] are expanded. *)
Fixpoint expand_replacement (rep matched before after : jsstring)
  : jsstring :=
  match rep with
  | 36 :: 36 :: r => 36 :: expand_replacement r matched before after
  | 36 :: 38 :: r => matched ++ expand_replacement r matched before after
  | 36 :: 96 :: r => before ++ expand_replacement r matched before after
  | 36 :: 39 :: r => after ++ expand_replacement r matched before after
  | c :: r => c :: expand_replacement r matched before after
  | [] => []
  end.

(** [content.replace(search, replace)] with a string pattern. *)
Definition replace_first (search rep content : jsstring) : jsstring :=
  match find_first search content with
  | Some (b, a) => b ++ expand_replacement rep search b a ++ a
  | None => content
  end.

(** The edit loop of [apply_patch]. *)
Fixpoint apply_edits (edits : list (jsstring * jsstring))
  (content : jsstring) (applied : list (jsstring * bool))
  : jsstring * list (jsstring * bool) :=
  match edits with
  | [] => (content, applied)
  | (search, rep) :: rest =>
      let found := includes search content in
      let content' := if found then replace_first search rep content
                      else content in
      apply_edits rest content' (applied ++ [(slice_to 50 search, found)])
  end.

Inductive TodoStatus := todo_pending | todo_in_progress | todo_completed.

Definition statusChar (s : option TodoStatus) : N :=
  match s with
  | Some todo_completed => 120
  | Some todo_in_progress => 126
  | _ => 32
  end.

(** A line of todo.md matched by [/^- \[([ x~])\] (.+)$/]. *)
Definition parse_todo_line (line : jsstring)
  : option (jsstring * option TodoStatus) :=
  match line with
  | 45 :: 32 :: 91 :: c :: 93 :: 32 :: text =>
      if forallb (fun x => negb (Regex.is_line_terminator x)) text
         && negb (jsstring_eqb text []) then
        if N.eqb c 120 then Some (text, Some todo_completed)
        else if N.eqb c 126 then Some (text, Some todo_in_progress)
        else if N.eqb c 32 then Some (text, Some todo_pending)
        else None
      else None
  | _ => None
  end.

Definition todo_markdown (items : list (jsstring * option TodoStatus))
  : jsstring :=
  str "# Todo List" ++ [LF; LF]
    ++ join [LF]
         (map (fun it => str "- [" ++ [statusChar (snd it)] ++ str "] "
                           ++ fst it) items)
    ++ [LF].

(** [arr.slice(0, k)] *)
Definition slice0 {A} (k : Z) (l : list A) : list A :=
  if (0 <=? k)%Z then take (Z.to_nat k) l
  else take (length l - Z.to_nat (- k)) l.

(** [s || fallback] on strings: the empty string is falsy. *)
Definition or_else (s fallback : jsstring) : jsstring :=
  match s with [] => fallback | _ => s end.

(** The scan of one file's lines in the manual search. *)
Fixpoint scan_lines (first_match : jsstring -> option jsstring)
  (maxResults : Z) (file : jsstring) (lines : list jsstring) (i : N)
  (results : list SearchHit) : list SearchHit :=
  match lines with
  | [] => results
  | lineContent :: rest =>
      if (Z.of_nat (length results) <? maxResults)%Z then
        match first_match lineContent with
        | Some m =>
            scan_lines first_match maxResults file rest (i + 1)
              (results ++ [mkHit file (i + 1)
                             (slice_to 200 (trim lineContent)) m])
        | None => scan_lines first_match maxResults file rest (i + 1) results
        end
      else results
  end.

(** *** The tools of a task session ([defineTools]) *)

Section Tools.
Variable host : Host.
(** the project path the session was created for *)
Variable root : jsstring.

Local Open Scope handler_scope.

(** The [catch] block the handlers share: report the error as an event
    and return it. *)
Definition report_failure (name : jsstring) (p : Payload) (e : Thrown)
  : H ToolResult :=
  let errorMsg := message_or_unknown e in
  emit (errored name errorMsg) ;;;
  H_ret (mkResult false (Some errorMsg) p).

Definition listFilesRecursive (dirPath : jsstring) (recursive : bool)
  (maxDepth : Z) : Outcome (list FileInfo) :=
  match fs_readdir host dirPath with
  | Ok entries => listEntries recursive maxDepth 0 entries
  | Throws e => Throws e
  end.

Definition edit_file (filePath content : jsstring)
  (createDirectories : option bool) : H ToolResult :=
  let createDirectories := default true createDirectories in
  let absolutePath := path_join host root filePath in
  emit (started (str "edit_file")) ;;;
  try_catch
    ((if createDirectories
      then lift (fs_mkdir host (path_dirname host absolutePath))
      else H_ret ()) ;;;
     lift (fs_writeFile host absolutePath content) ;;;
     emit (ended (str "edit_file")) ;;;
     H_ret (mkResult true None (P_edit_file absolutePath (len content))))
    (report_failure (str "edit_file") P_none).

Definition read_file (filePath : jsstring) : H ToolResult :=
  let absolutePath := path_join host root filePath in
  emit (started (str "read_file")) ;;;
  try_catch
    (content <- lift (fs_readFile host absolutePath) ;;
     emit (ended (str "read_file")) ;;;
     H_ret (mkResult true None (P_read_file content (len content))))
    (report_failure (str "read_file") P_none).

(** The rejection of [exec] is read for its message, output and code,
    so the [try]/[catch] is the case distinction on its outcome. *)
Definition run_command (command : jsstring) (cwd : option jsstring)
  (timeout : option Z) : H ToolResult :=
  let workDir :=
    match cwd with
    | Some (c :: d) => path_join host root (c :: d)
    | _ => root
    end in
  emit (started (str "run_command")) ;;;
  match execAsync host command with
  | ExecOk out err =>
      emit (ended (str "run_command")) ;;;
      H_ret (mkResult true None
               (P_run_command (safeToolText (trim out) default_maxChars)
                  (safeToolText (trim err) default_maxChars) 0))
  | ExecFail message out err code =>
      let errorMsg :=
        or_else (default [] message) (str "Command execution failed") in
      emit (errored (str "run_command") errorMsg) ;;;
      H_ret (mkResult false (Some (safeToolText errorMsg 8000))
               (P_run_command
                  (safeToolText (default [] out) default_maxChars)
                  (safeToolText (default [] err) default_maxChars)
                  (match code with
                   | Some 0%Z | None => 1%Z
                   | Some c => c
                   end)))
  end.

Definition list_files (dirPath : option jsstring) (recursive : option bool)
  (maxDepth : option Z) : H ToolResult :=
  let dirPath := default (str ".") dirPath in
  let recursive := default false recursive in
  let maxDepth := default 3%Z maxDepth in
  let absolutePath := path_join host root dirPath in
  emit (started (str "list_files")) ;;;
  try_catch
    (files <- lift (listFilesRecursive absolutePath recursive maxDepth) ;;
     emit (ended (str "list_files")) ;;;
     H_ret (mkResult true None
              (P_list_files files (N.of_nat (length files)))))
    (report_failure (str "list_files") P_none).

Definition delete_file (filePath : jsstring) : H ToolResult :=
  let absolutePath := path_join host root filePath in
  emit (started (str "delete_file")) ;;;
  try_catch
    (lift (fs_unlink host absolutePath) ;;;
     emit (ended (str "delete_file")) ;;;
     H_ret (mkResult true None (P_delete_file absolutePath)))
    (report_failure (str "delete_file") P_none).

(** The manual search over the listed files, after ripgrep failed.  The
    pattern for file names is compiled at each file it is applied to,
    outside the inner [try]. *)
Fixpoint manual_search (first_match : jsstring -> option jsstring)
  (filePattern : option jsstring)
  (searchDir : jsstring) (maxResults : Z) (files : list FileInfo)
  (results : list SearchHit) : Outcome (list SearchHit) :=
  match files with
  | [] => Ok results
  | file :: rest =>
      if negb (fiIsFile file) then
        manual_search first_match filePattern searchDir maxResults rest
          results
      else if (maxResults <=? Z.of_nat (length results))%Z then Ok results
      else
        let skipped :=
          match filePattern with
          | Some (c :: p) =>
              match new_RegExp host
                      (replace_first (str "*") (str ".*") (c :: p)) true with
              | Ok f => match f (fiName file) with
                        | None => Ok true
                        | Some _ => Ok false
                        end
              | Throws e => Throws e
              end
          | _ => Ok false
          end in
        match skipped with
        | Throws e => Throws e
        | Ok true =>
            manual_search first_match filePattern searchDir maxResults rest
              results
        | Ok false =>
            match fs_readFile host (path_join host searchDir (fiPath file)) with
            | Ok content =>
                manual_search first_match filePattern searchDir maxResults
                  rest
                  (scan_lines first_match maxResults (fiPath file)
                     (split_lines content) 0 results)
            | Throws _ =>
                manual_search first_match filePattern searchDir maxResults
                  rest results
            end
        end
  end.

Definition rg_command (pattern absoluteSearchPath : jsstring)
  (caseSensitive : bool) (maxResults : Z) (filePattern : option jsstring)
  : jsstring :=
  str "rg " ++
  join (str " ")
    (filter (fun a : jsstring => a <> [])
       [str "--json";
        if caseSensitive then [] else str "-i";
        str "-m"; of_Z maxResults;
        match filePattern with
        | Some (c :: p) => str "-g " ++ c :: p
        | _ => []
        end;
        pattern; absoluteSearchPath]).

Definition search_code (pattern : jsstring) (searchPath : option jsstring)
  (caseSensitive : option bool) (maxResults : option Z)
  (filePattern : option jsstring) : H ToolResult :=
  let searchPath := default (str ".") searchPath in
  let caseSensitive := default false caseSensitive in
  let maxResults := default 50%Z maxResults in
  let absoluteSearchPath := path_join host root searchPath in
  emit (started (str "search_code")) ;;;
  try_catch
    (results <-
       match execAsync host
               (rg_command pattern absoluteSearchPath caseSensitive
                  maxResults filePattern) with
       | ExecOk out _ => H_ret (parse_rg_json host (trim out))
       | ExecFail _ _ _ _ =>
           regex <- lift (new_RegExp host pattern caseSensitive) ;;
           files <- lift (listFilesRecursive absoluteSearchPath true 10) ;;
           lift (manual_search regex filePattern absoluteSearchPath
                   maxResults files [])
       end ;;
     emit (ended (str "search_code")) ;;;
     H_ret (mkResult true None
              (P_search_code results (N.of_nat (length results)))))
    (report_failure (str "search_code") (P_search_code [] 0)).

(** [new RegExp(`^${regexPattern}$`)] as a test on paths: run by the
    matcher of this file when the text is in its language, and asked of
    the host otherwise. *)
Definition glob_test (pattern : jsstring) : Outcome (jsstring -> bool) :=
  match glob_regex pattern with
  | Some re => Ok (Regex.test re)
  | None =>
      match new_RegExp host
              (str "^" ++ glob_to_regex_source pattern ++ str "$") true with
      | Ok f => Ok (fun s => match f s with Some _ => true | None => false end)
      | Throws e => Throws e
      end
  end.

Definition default_ignore : list jsstring := ignored_dirs.

Definition find_files (pattern : jsstring) (ignore : option (list jsstring))
  (maxResults : option Z) : H ToolResult :=
  let ignore := default default_ignore ignore in
  let maxResults := default 100%Z maxResults in
  emit (started (str "find_files")) ;;;
  try_catch
    (allFiles <- lift (listFilesRecursive root true 15) ;;
     regex <- lift (glob_test pattern) ;;
     let results := find_loop regex ignore maxResults allFiles [] in
     emit (ended (str "find_files")) ;;;
     H_ret (mkResult true None
              (P_find_files results (N.of_nat (length results)))))
    (report_failure (str "find_files") (P_find_files [] 0)).

Definition apply_patch (filePath : jsstring)
  (edits : list (jsstring * jsstring)) : H ToolResult :=
  let absolutePath := path_join host root filePath in
  emit (started (str "apply_patch")) ;;;
  try_catch
    (content <- lift (fs_readFile host absolutePath) ;;
     let '(content', applied) := apply_edits edits content [] in
     lift (fs_writeFile host absolutePath content') ;;;
     let successCount :=
       N.of_nat (length (filter (fun a => snd a = true) applied)) in
     emit (ended (str "apply_patch")) ;;;
     H_ret (mkResult true None
              (P_apply_patch absolutePath successCount
                 (N.of_nat (length edits)) applied)))
    (report_failure (str "apply_patch") P_none).

Definition topic_title (text : jsstring) : jsstring :=
  match find_first (str " - ") text with
  | Some (b, _) => b
  | None => text
  end.

Definition collab_web_search (query : jsstring) (maxResults : option Z)
  : H ToolResult :=
  let maxResults := default 5%Z maxResults in
  emit (started (str "collab_web_search")) ;;;
  try_catch
    (let encodedQuery := encodeURIComponent host query in
     out <- lift (exec_as_outcome
                    (execAsync host
                       (str "curl -s " ++ [34]
                          ++ str "https://api.duckduckgo.com/?q="
                          ++ encodedQuery
                          ++ str "&format=json&no_html=1" ++ [34]))) ;;
     data <- lift (JSON_parse host (fst out)) ;;
     let results0 :=
       match Abstract data with
       | [] => []
       | a => [(or_else (Heading data) query, a, AbstractURL data)]
       end in
     let results :=
       match RelatedTopics data with
       | Some topics =>
           results0 ++
           omap (fun t : jsstring * jsstring =>
                   match fst t, snd t with
                   | _ :: _, _ :: _ =>
                       Some (topic_title (fst t), fst t, snd t)
                   | _, _ => None
                   end)
             (slice0 (maxResults - Z.of_nat (length results0)) topics)
       | None => results0
       end in
     emit (ended (str "collab_web_search")) ;;;
     H_ret (mkResult true None
              (P_web_search query results (N.of_nat (length results)))))
    (report_failure (str "collab_web_search") (P_web_search [] [] 0)).

Definition web_fetch (url : jsstring) (selector : option jsstring)
  (maxLength : option Z) : H ToolResult :=
  let maxLength := default 10000%Z maxLength in
  emit (started (str "web_fetch")) ;;;
  try_catch
    (out <- lift (exec_as_outcome
                    (execAsync host
                       (str "curl -s -L --max-time 15 " ++ [34] ++ url
                          ++ [34]))) ;;
     let content0 := fst out in
     let content1 :=
       if includes (str "<html") content0
          || includes (str "<!DOCTYPE") content0
       then strip_tags host content0 else content0 in
     let content :=
       if (maxLength <? Z.of_nat (length content1))%Z
       then slice0 maxLength content1 ++ [LF] ++ str "...[truncated]"
       else content1 in
     emit (ended (str "web_fetch")) ;;;
     H_ret (mkResult true None (P_web_fetch url content (len content))))
    (report_failure (str "web_fetch") P_none).

(** [mode]: [false] is ['replace'] (the default), [true] is ['append']. *)
Definition todo_write (items : list (jsstring * option TodoStatus))
  (append : option bool) : H ToolResult :=
  let append := default false append in
  let todoDir := path_join host root (str ".collablearn") in
  let todoFile := path_join host todoDir (str "todo.md") in
  emit (started (str "todo_write")) ;;;
  try_catch
    (lift (fs_mkdir host todoDir) ;;;
     let existingItems :=
       if append then
         match fs_readFile host todoFile with
         | Ok existing => omap parse_todo_line (split_lines existing)
         | Throws _ => []
         end
       else [] in
     let allItems := existingItems ++ items in
     lift (fs_writeFile host todoFile (todo_markdown allItems)) ;;;
     emit (ended (str "todo_write")) ;;;
     H_ret (mkResult true None
              (P_todo_write todoFile (N.of_nat (length allItems)))))
    (report_failure (str "todo_write") P_none).

(** A call of one of the registered tools with its arguments. *)
Inductive ToolCall :=
  | Call_edit_file (filePath content : jsstring)
                   (createDirectories : option bool)
  | Call_read_file (filePath : jsstring)
  | Call_run_command (command : jsstring) (cwd : option jsstring)
                     (timeout : option Z)
  | Call_list_files (dirPath : option jsstring) (recursive : option bool)
                    (maxDepth : option Z)
  | Call_delete_file (filePath : jsstring)
  | Call_search_code (pattern : jsstring) (path : option jsstring)
                     (caseSensitive : option bool) (maxResults : option Z)
                     (filePattern : option jsstring)
  | Call_find_files (pattern : jsstring) (ignore : option (list jsstring))
                    (maxResults : option Z)
  | Call_apply_patch (filePath : jsstring)
                     (edits : list (jsstring * jsstring))
  | Call_collab_web_search (query : jsstring) (maxResults : option Z)
  | Call_web_fetch (url : jsstring) (selector : option jsstring)
                   (maxLength : option Z)
  | Call_todo_write (items : list (jsstring * option TodoStatus))
                    (append : option bool).

Definition tool_name (c : ToolCall) : jsstring :=
  match c with
  | Call_edit_file _ _ _ => str "edit_file"
  | Call_read_file _ => str "read_file"
  | Call_run_command _ _ _ => str "run_command"
  | Call_list_files _ _ _ => str "list_files"
  | Call_delete_file _ => str "delete_file"
  | Call_search_code _ _ _ _ _ => str "search_code"
  | Call_find_files _ _ _ => str "find_files"
  | Call_apply_patch _ _ => str "apply_patch"
  | Call_collab_web_search _ _ => str "collab_web_search"
  | Call_web_fetch _ _ _ => str "web_fetch"
  | Call_todo_write _ _ => str "todo_write"
  end.

(** The handler [defineTools] registers under the call's name. *)
Definition handler (c : ToolCall) : H ToolResult :=
  match c with
  | Call_edit_file p c d => edit_file p c d
  | Call_read_file p => read_file p
  | Call_run_command c d t => run_command c d t
  | Call_list_files d r m => list_files d r m
  | Call_delete_file p => delete_file p
  | Call_search_code p s c m f => search_code p s c m f
  | Call_find_files p i m => find_files p i m
  | Call_apply_patch p e => apply_patch p e
  | Call_collab_web_search q m => collab_web_search q m
  | Call_web_fetch u s m => web_fetch u s m
  | Call_todo_write i a => todo_write i a
  end.
End Tools.

(** The names [defineTools] registers, in order. *)
Definition tool_registry : list jsstring :=
  [str "edit_file"; str "read_file"; str "run_command"; str "list_files";
   str "delete_file"; str "search_code"; str "find_files";
   str "apply_patch"; str "collab_web_search"; str "web_fetch";
   str "todo_write"].

(** *** A task session ([executeSdk]) *)

(** The events of the SDK session the handler given to [session.on]
    looks at; a field is [None] when it does not have the expected type. *)
Inductive SessionEvent :=
  | assistant_message_delta (deltaContent : option jsstring)
  | assistant_message (content : option jsstring)
  | tool_execution_start (toolName : option jsstring)
  | tool_execution_complete (toolName : option jsstring)
                            (success : option bool)
                            (error : option jsstring)
  | tool_execution_error (toolName : option jsstring)
                         (error : option jsstring)
  | other_event (eventType : jsstring).

(** What happens while [sendAndWait] is pending. *)
Inductive SessionStep :=
  | Event (e : SessionEvent)
  | Invoke (c : ToolCall)
  | Cancel.

(** One execution as the adapter meets it: whether the client is already
    there, how the awaited calls end (each of them is taken to settle; the
    request to the session has a timeout), whether [cancel] was called
    while the session was being set up, and what happens during the
    session. *)
Record Session := mkSession {
  clientStarted : bool;
  startClient : Outcome unit;
  createSession : Outcome unit;
  cancelledDuringSetup : bool;
  steps : list SessionStep;
  sendAndWait : Outcome unit;
}.

Definition tool_or_unknown (n : option jsstring) : jsstring :=
  default (str "unknown_tool") n.

(** The handler registered with [session.on], when not cancelled. *)
Definition on_session_event (e : SessionEvent) : list Callback :=
  match e with
  | assistant_message_delta (Some d) => [onOutput (plain stdout d)]
  | assistant_message (Some c) => [onOutput (plain stdout (LF :: c))]
  | tool_execution_start n =>
      [onToolEvent (mkToolEvent ev_start (tool_or_unknown n) None None)]
  | tool_execution_complete n (Some false) err =>
      [onToolEvent (mkToolEvent ev_error (tool_or_unknown n) None
                      (Some (default (str "Tool failed") err)))]
  | tool_execution_complete n ok _ =>
      [onToolEvent (mkToolEvent ev_end (tool_or_unknown n) ok None)]
  | tool_execution_error n err =>
      [onToolEvent (mkToolEvent ev_error (tool_or_unknown n) None
                      (Some (default (str "Tool execution error") err)))]
  | _ => []
  end.

(** The callbacks made while [sendAndWait] is pending, and the value of
    [cancelled] at its end. *)
Fixpoint run_steps (host : Host) (root : jsstring) (cancelled : bool)
  (l : list SessionStep) : list Callback * bool :=
  match l with
  | [] => ([], cancelled)
  | Cancel :: r => run_steps host root true r
  | Event e :: r =>
      let '(rest, c) := run_steps host root cancelled r in
      ((if cancelled then [] else on_session_event e) ++ rest, c)
  | Invoke call :: r =>
      let '(rest, c) := run_steps host root cancelled r in
      (map onToolEvent (fst (handler host root call)) ++ rest, c)
  end.

(** The [catch] block of the execution. *)
Definition report_error (cancelled : bool) (e : Thrown) : list Callback :=
  if cancelled then []
  else [onOutput (plain Types.error (message_or_unknown e))].

Definition connecting : Callback :=
  onOutput (plain status (str "Connecting to Copilot SDK...")).

Definition creating_session (task : TaskPrompt) : Callback :=
  let modelDisplay :=
    match model task with
    | Some (c :: m) => c :: m
    | _ => str "default"
    end in
  onOutput (plain status
              (str "Creating session with model: " ++ modelDisplay
                 ++ str "...")).

(** From the creation of the session on. *)
Definition session_part (host : Host) (env : Session) (task : TaskPrompt)
  : list Callback :=
  match createSession env with
  | Throws e => report_error (cancelledDuringSetup env) e
  | Ok _ =>
      let '(calls, cancelled) :=
        run_steps host (projectPath task) (cancelledDuringSetup env)
          (steps env) in
      onOutput (plain status (str "Starting task: " ++ title task))
        :: calls
        ++ match sendAndWait env with
           | Ok _ =>
               if cancelled then []
               else [onOutput
                       (plain complete (str "Task completed successfully"))]
           | Throws e => report_error cancelled e
           end
  end.

(** [executeSdk]: the body of the async function runs up to its first
    [await] before [executeSdk] returns; everything is inside its [try],
    so [done] always resolves. *)
Definition executeSdk (host : Host) (env : Session) (task : TaskPrompt)
  : SdkExecution :=
  if clientStarted env then
    mkSdkExecution [creating_session task] (session_part host env task) false
  else
    mkSdkExecution [connecting]
      match startClient env with
      | Throws e => report_error (cancelledDuringSetup env) e
      | Ok _ => creating_session task :: session_part host env task
      end
      false.

(** The registered adapter, in a given host and for the sessions [env]
    describes.  Its [execute] only spawns an [echo]. *)
Definition adapter (host : Host) (env : TaskPrompt -> Session)
  (echo : TaskPrompt -> Launch) : AgentAdapter :=
  mkAdapter (str "github-copilot-sdk") (str "GitHub Copilot (SDK)") echo
    (Some (fun task => sdk_started (executeSdk host (env task) task))).

End CopilotSdk.

(* ===================================================================== *)
(** ** An rxjs Subject *)
(* ===================================================================== *)

Module Rx.
Import Types.

Inductive Closing :=
  | Completed
  | Failed (e : Thrown).

(** [emitted]: the values the Subject accepted; [delivered]: the ones that
    reached the subscriber, which are those emitted after it subscribed;
    [closing]: how the Subject was closed, if it was. *)
Record Subject := mkSubject {
  emitted : list AgentOutput;
  observed : bool;
  delivered : list AgentOutput;
  closing : option Closing;
}.

Definition fresh : Subject := mkSubject [] false [] None.

(** [subject.next(o)]: ignored once the Subject is closed. *)
Definition next (o : AgentOutput) (s : Subject) : Subject :=
  match closing s with
  | Some _ => s
  | None =>
      mkSubject (emitted s ++ [o]) (observed s)
        (if observed s then delivered s ++ [o] else delivered s) None
  end.

Definition close (c : Closing) (s : Subject) : Subject :=
  match closing s with
  | Some _ => s
  | None => mkSubject (emitted s) (observed s) (delivered s) (Some c)
  end.

(** [subject.complete()] and [subject.error(e)] *)
Definition complete (s : Subject) : Subject := close Completed s.
Definition error (e : Thrown) (s : Subject) : Subject := close (Failed e) s.

(** [observable.subscribe(...)]: a subscriber that comes after the
    Subject was closed is told the closing at once, and nothing else. *)
Definition subscribe (s : Subject) : Subject :=
  mkSubject (emitted s) true (delivered s) (closing s).

End Rx.

(* ===================================================================== *)
(** ** The execution registry (src/main/services/AgentManager.ts) *)
(* ===================================================================== *)

Module AgentManager.
Import Types.

Inductive Status := running | completed | failed | stopped.

(** A tracked execution holds a child process or a [cancel] callback. *)
Inductive Handle := process_handle | cancel_handle.

Record RunningProcess := mkRunning {
  handle : Handle;
  agentId : jsstring;
  taskId : jsstring;
  status : Status;
}.

Record Manager := mkManager {
  adapters : gmap jsstring AgentAdapter;
  runningProcesses : gmap jsstring RunningProcess;
}.

Definition registerAdapter (a : AgentAdapter) (m : Manager) : Manager :=
  mkManager (<[id a := a]> (adapters m)) (runningProcesses m).

(** [processInfo.status = s], when the entry is there. *)
Definition set_status (processId : jsstring) (s : Status) (m : Manager)
  : Manager :=
  mkManager (adapters m)
    (alter (fun info => mkRunning (handle info) (agentId info) (taskId info) s)
       processId (runningProcesses m)).

Definition track (processId : jsstring) (info : RunningProcess)
  (m : Manager) : Manager :=
  mkManager (adapters m) (<[processId := info]> (runningProcesses m)).

Definition getExecutionStatus (m : Manager) (processId : jsstring)
  : option Status :=
  status <$> runningProcesses m !! processId.

(** The text of a tool event, with the characters the source file has. *)
Definition formatToolStatus (event : ToolExecutionEvent) : jsstring :=
  match evType event with
  | ev_start =>
      [63743; 252; 238; 223; 32] ++ evToolName event ++ str " started"
  | ev_end =>
      [8218; 250; 214; 32] ++ evToolName event ++ str " completed"
  | ev_error =>
      [8218; 249; 229; 32] ++ evToolName event ++ str " failed: "
        ++ match evError event with
           | Some (c :: e) => c :: e
           | _ => str "Unknown error"
           end
  end.

(** The manager and the Subject of the execution at hand. *)
Record Exec := mkExec {
  manager : Manager;
  subject : Rx.Subject;
}.

Definition emit (o : AgentOutput) (x : Exec) : Exec :=
  mkExec (manager x) (Rx.next o (subject x)).

Definition handleSdkOutput (processId : jsstring) (output : AgentOutput)
  (x : Exec) : Exec :=
  let m :=
    match type output with
    | complete => set_status processId completed (manager x)
    | error => set_status processId failed (manager x)
    | _ => manager x
    end in
  mkExec m (Rx.next output (subject x)).

Definition handleToolEvent (event : ToolExecutionEvent) (x : Exec) : Exec :=
  let statusText := formatToolStatus event in
  emit (mkOutput (output_type_of (evType event)) statusText
          (Some (evToolName event)))
    (emit (plain Types.status statusText) x).

Definition call (processId : jsstring) (c : Callback) (x : Exec) : Exec :=
  match c with
  | onOutput o => handleSdkOutput processId o x
  | onToolEvent e => handleToolEvent e x
  end.

Definition heartbeat (adapter : AgentAdapter) (task : TaskPrompt)
  : AgentOutput :=
  plain Types.status
    (str "Started " ++ name adapter ++ str " for task: " ++ title task).

(** The listeners put on the child process. *)
Definition on_child_event (processId : jsstring) (ev : ChildEvent)
  (x : Exec) : Exec :=
  match ev with
  | stdout_data d => emit (plain stdout d) x
  | stderr_data d => emit (plain stderr d) x
  | close_event code =>
      let m :=
        set_status processId
          (match code with Some 0%Z => completed | _ => failed end)
          (manager x) in
      let text :=
        str "Process exited with code: "
          ++ match code with Some c => of_Z c | None => str "null" end in
      mkExec m (Rx.complete (Rx.next (plain complete text) (subject x)))
  | error_event message =>
      let m := set_status processId failed (manager x) in
      mkExec m
        (Rx.error (ErrorObj message)
           (Rx.next (plain error message) (subject x)))
  end.

(** What is still to come when [executeTask] returns. *)
Inductive Pending :=
  | nothing_pending
  | child_pending (events : list ChildEvent)
  | sdk_pending (calls : list Callback) (rejects : bool).

(** The [catch] block of [executeTask]. *)
Definition fail_launch (e : Thrown) (x : Exec) : Exec :=
  mkExec (manager x)
    (Rx.error e
       (Rx.next (plain error (message_or_unknown e)) (subject x))).

Definition finalProcessId (agent : jsstring) (task : TaskPrompt)
  (processId : option jsstring) (now : N) : jsstring :=
  match processId with
  | Some (c :: p) => c :: p
  | _ => agent ++ str "-" ++ promptId task ++ str "-" ++ of_N now
  end.

(** [executeTask], up to its [return]: the Subject is created, the
    adapter is called, the execution is tracked and the first status is
    emitted.  [Throws] when no adapter has that id. *)
Definition executeTask (m : Manager) (agent : jsstring) (task : TaskPrompt)
  (processId : option jsstring) (now : N)
  : Outcome (Exec * Pending) :=
  match adapters m !! agent with
  | None => Throws (ErrorObj (str "Agent not found: " ++ agent))
  | Some adapter =>
      let pid := finalProcessId agent task processId now in
      let x := mkExec m Rx.fresh in
      match executeSdk adapter with
      | Some run_sdk =>
          match run_sdk task with
          | sdk_throws e => Ok (fail_launch e x, nothing_pending)
          | sdk_started execution =>
              let x1 := foldl (fun acc c => call pid c acc) x
                          (syncCalls execution) in
              let x2 :=
                mkExec
                  (track pid
                     (mkRunning cancel_handle agent (promptId task) running)
                     (manager x1))
                  (subject x1) in
              Ok (emit (heartbeat adapter task) x2,
                  sdk_pending (asyncCalls execution) (doneRejects execution))
          end
      | None =>
          match execute adapter task with
          | spawn_throws e => Ok (fail_launch e x, nothing_pending)
          | spawned events =>
              let x1 :=
                mkExec
                  (track pid
                     (mkRunning process_handle agent (promptId task) running)
                     (manager x))
                  (subject x) in
              Ok (emit (heartbeat adapter task) x1, child_pending events)
          end
      end
  end.

(** The settling of [execution.done]: [then], [catch], [finally]. *)
Definition settle (processId : jsstring) (rejects : bool) (x : Exec) : Exec :=
  let m :=
    if rejects then set_status processId failed (manager x)
    else
      match getExecutionStatus (manager x) processId with
      | Some running => set_status processId completed (manager x)
      | _ => manager x
      end in
  mkExec m (Rx.complete (subject x)).

(** Everything that happens after [executeTask] returned. *)
Definition finish (processId : jsstring) (p : Pending) (x : Exec) : Exec :=
  match p with
  | nothing_pending => x
  | child_pending events =>
      foldl (fun acc ev => on_child_event processId ev acc) x events
  | sdk_pending calls rejects =>
      settle processId rejects
        (foldl (fun acc c => call processId c acc) x calls)
  end.

(** An execution from start to end, for a caller that subscribes to the
    returned observable at once, as the callers of [executeTask] do. *)
Definition run (m : Manager) (agent : jsstring) (task : TaskPrompt)
  (processId : option jsstring) (now : N) : Outcome Exec :=
  match executeTask m agent task processId now with
  | Throws e => Throws e
  | Ok (x, p) =>
      Ok (finish (finalProcessId agent task processId now) p
            (mkExec (manager x) (Rx.subscribe (subject x))))
  end.

(** [stopExecution]: [process.kill()] on a process that has exited does
    nothing; the [cancel] callback is awaited and may reject. *)
Definition stopExecution (m : Manager) (processId : jsstring)
  (cancel : Outcome unit) : Outcome Manager :=
  match runningProcesses m !! processId with
  | None => Throws (ErrorObj (str "Process not found: " ++ processId))
  | Some info =>
      match handle info, cancel with
      | cancel_handle, Throws e => Throws e
      | _, _ => Ok (set_status processId stopped m)
      end
  end.

End AgentManager.

(* ===================================================================== *)
(** ** The phase orchestrator (src/main/services/PhaseOrchestrator.ts) *)
(* ===================================================================== *)

Module PhaseOrchestrator.
Import Types.

(** [BLOCKER_PATTERNS], in the order of the source.  The second one is
    the sign U+1F6AB, two code units, and has no [i] flag. *)
Definition BLOCKER_PATTERNS : list Regex.RegExp :=
  [Regex.literal (str "BLOCKED:") true;
   Regex.literal [55357; 57003] false;
   Regex.literal (str "cannot proceed") true;
   Regex.literal (str "missing.*required") true;
   Regex.literal (str "waiting for.*input") true;
   Regex.literal (str "need.*clarification") true;
   Regex.literal (str "unable to continue") true;
   Regex.literal (str "blocked by") true].

Record PhaseExecutionOptions := mkOptions {
  optPhaseId : Z;
  optWorkspaceId : Z;
  optAgentId : jsstring;
  optProjectPath : jsstring;
}.

Inductive ResultStatus := completed | failed | blocked | skipped.

Definition ResultStatus_eqb (a b : ResultStatus) : bool :=
  match a, b with
  | completed, completed | failed, failed
  | blocked, blocked | skipped, skipped => true
  | _, _ => false
  end.

Record TaskResult := mkTaskResult {
  resTaskId : Z;
  resTaskTitle : jsstring;
  status : ResultStatus;
  blockerReason : option jsstring;
  duration : N;
  output : jsstring;
}.

Record PhaseResult := mkPhaseResult {
  resPhaseId : Z;
  tasksCompleted : nat;
  tasksFailed : nat;
  tasksBlocked : nat;
  tasksSkipped : nat;
  results : list TaskResult;
  stoppedByUser : bool;
  phaseBlockerReason : option jsstring;
  totalDuration : N;
}.

(** What the orchestrator does to the outside: the status pushes to the
    task store and the callbacks of the consumer. *)
Inductive Effect :=
  | updateTaskStatus (task : Z) (s : TaskStatus)
  | onTaskStart (task : Z)
  | onTaskOutput (task : Z) (o : AgentOutput)
  | onTaskComplete (task : Z) (r : TaskResult)
  | onBlocker (task : Z) (reason : jsstring)
  | onPhaseComplete (r : PhaseResult).

Definition detectBlocker (output : jsstring) : bool :=
  existsb (fun pattern => Regex.test pattern output) BLOCKER_PATTERNS.

Fixpoint first_blocker_line (lines : list jsstring) : option jsstring :=
  match lines with
  | [] => None
  | line :: rest =>
      if existsb (fun pattern => Regex.test pattern line) BLOCKER_PATTERNS
      then Some line
      else first_blocker_line rest
  end.

Definition extractBlockerReason (output : jsstring) : jsstring :=
  match first_blocker_line (split_lines output) with
  | Some line => slice_to 200 (trim line)
  | None => str "Task reported a blocker"
  end.

(** The local variables of [executeTask]. *)
Record TaskRun := mkTaskRun {
  taskOutput : jsstring;
  blockerDetected : bool;
  runBlockerReason : option jsstring;
}.

(** The [next] callback of the subscription. *)
Definition on_next (r : TaskRun) (o : AgentOutput) : TaskRun :=
  let out := taskOutput r ++ data o ++ [LF] in
  if negb (blockerDetected r) && detectBlocker (data o) then
    mkTaskRun out true (Some (extractBlockerReason (data o)))
  else mkTaskRun out (blockerDetected r) (runBlockerReason r).

(** The state of the promise [executeTask] returns. *)
Inductive Settled (A : Type) :=
  | Resolved (a : A)
  | Rejected (e : Thrown)
  | NeverSettles.
Arguments Resolved {A} a.
Arguments Rejected {A} e.
Arguments NeverSettles {A}.

(** [error.message] of the value a stream failed with. *)
Definition message_of (e : Thrown) : jsstring :=
  match e with
  | ErrorObj m => m
  | NonError => str "undefined"
  end.

(** The clock readings and the user's actions during a phase run, and
    the answers of the context bridge and the task store. *)
Record World := mkWorld {
  syncContext : Outcome unit;
  fetchTasksByPhase : Outcome (list Task);
  startedAt : Task -> N;
  elapsed : Task -> N;
  (** [stopAfterCurrentTask] is called before the first task starts *)
  stopRequestedEarly : bool;
  (** [stopAfterCurrentTask] is called while this task is executing *)
  stopRequestedDuring : Task -> bool;
  totalElapsed : N;
}.

Definition processId_of (options : PhaseExecutionOptions) (task : Task)
  (now : N) : jsstring :=
  str "phase-" ++ of_Z (optPhaseId options) ++ str "-task-"
    ++ of_Z (taskId task) ++ str "-" ++ of_N now.

Definition taskPrompt_of (options : PhaseExecutionOptions) (task : Task)
  : TaskPrompt :=
  mkPrompt (of_Z (taskId task)) (taskTitle task)
    (default [] (taskDescription task)) (optProjectPath options) None
    (Some (optWorkspaceId options)).

(** The result the subscription resolves the promise with. *)
Definition result_of (task : Task) (d : N) (r : TaskRun)
  (c : Rx.Closing) : TaskResult * list Effect :=
  match c with
  | Rx.Failed e =>
      (mkTaskResult (taskId task) (taskTitle task) failed None d
         (taskOutput r ++ [LF; LF] ++ str "Error: " ++ message_of e),
       [])
  | Rx.Completed =>
      if blockerDetected r then
        (mkTaskResult (taskId task) (taskTitle task) blocked
           (runBlockerReason r) d (taskOutput r),
         [updateTaskStatus (taskId task) Types.blocked])
      else
        (mkTaskResult (taskId task) (taskTitle task) completed None d
           (taskOutput r),
         [updateTaskStatus (taskId task) Types.completed])
  end.

(** [executeTask]: the task is handed to the execution registry and its
    stream is followed to its end. *)
Definition executeTask (m : AgentManager.Manager) (w : World) (task : Task)
  (options : PhaseExecutionOptions)
  : Settled TaskResult * AgentManager.Manager * list Effect :=
  let pid := processId_of options task (startedAt w task) in
  let started := [updateTaskStatus (taskId task) in_progress] in
  match AgentManager.run m (optAgentId options) (taskPrompt_of options task)
          (Some pid) (startedAt w task) with
  | Throws e => (Rejected e, m, started)
  | Ok x =>
      let stream := AgentManager.subject x in
      let r := foldl on_next (mkTaskRun [] false None) (Rx.delivered stream) in
      let outputs := map (onTaskOutput (taskId task)) (Rx.delivered stream) in
      match Rx.closing stream with
      | None => (NeverSettles, AgentManager.manager x, started ++ outputs)
      | Some c =>
          let '(res, pushed) := result_of task (elapsed w task) r c in
          (Resolved res, AgentManager.manager x, started ++ outputs ++ pushed)
      end
  end.

(** The fields of the orchestrator. *)
Record Orchestrator := mkOrchestrator {
  isRunning : bool;
  shouldStop : bool;
  currentProcessId : option jsstring;
}.

Definition idle : Orchestrator := mkOrchestrator false false None.

(** The variables of the task loop. *)
Record Loop := mkLoop {
  loopStop : bool;
  loopResults : list TaskResult;
  loopManager : AgentManager.Manager;
  loopEffects : list Effect;
  loopProcessId : option jsstring;
}.

Inductive LoopExit :=
  | loop_done (l : Loop)
  | loop_throws (e : Thrown) (l : Loop)
  | loop_hangs (l : Loop).

Definition skipped_result (task : Task) : TaskResult :=
  mkTaskResult (taskId task) (taskTitle task) skipped None 0
    (str "Skipped by user").

(** [for (const task of pendingTasks) { ... }] *)
Fixpoint run_tasks (w : World) (options : PhaseExecutionOptions)
  (tasks : list Task) (l : Loop) : LoopExit :=
  match tasks with
  | [] => loop_done l
  | task :: rest =>
      if loopStop l then
        run_tasks w options rest
          (mkLoop (loopStop l) (loopResults l ++ [skipped_result task])
             (loopManager l) (loopEffects l) (loopProcessId l))
      else
        let pid := Some (processId_of options task (startedAt w task)) in
        let '(settled, m, effects) :=
          executeTask (loopManager l) w task options in
        let stop := loopStop l || stopRequestedDuring w task in
        let before := loopEffects l ++ [onTaskStart (taskId task)] ++ effects in
        match settled with
        | NeverSettles =>
            loop_hangs (mkLoop stop (loopResults l) m before pid)
        | Rejected e =>
            loop_throws e (mkLoop stop (loopResults l) m before pid)
        | Resolved taskResult =>
            let l' :=
              mkLoop stop (loopResults l ++ [taskResult]) m
                (before ++ [onTaskComplete (taskId task) taskResult]) pid in
            match status taskResult with
            | blocked =>
                loop_done
                  (mkLoop stop (loopResults l') m
                     (loopEffects l'
                        ++ [onBlocker (taskId task)
                              (match blockerReason taskResult with
                               | Some (c :: s) => c :: s
                               | _ => str "Unknown blocker"
                               end)])
                     pid)
            | _ => run_tasks w options rest l'
            end
        end
  end.

Definition count (s : ResultStatus) (rs : list TaskResult) : nat :=
  length (filter (fun r => ResultStatus_eqb (status r) s = true) rs).

Definition summarize (options : PhaseExecutionOptions) (w : World)
  (l : Loop) : PhaseResult :=
  let rs := loopResults l in
  mkPhaseResult (optPhaseId options)
    (count completed rs) (count failed rs) (count blocked rs)
    (count skipped rs) rs (loopStop l)
    (match list_find (fun r => ResultStatus_eqb (status r) blocked = true) rs with
     | Some (_, r) => blockerReason r
     | None => None
     end)
    (totalElapsed w).

Inductive PhaseOutcome :=
  | Returned (r : PhaseResult)
  | Raised (e : Thrown)
  | NeverReturns.

Definition is_pending (t : Task) : bool :=
  match taskStatus t with
  | pending | in_progress => true
  | _ => false
  end.

(** [executePhase]: the outcome, the orchestrator and the execution
    registry afterwards, and the effects in order.  The [finally] block
    resets the orchestrator whenever the function returns or throws. *)
Definition executePhase (o : Orchestrator) (m : AgentManager.Manager)
  (w : World) (options : PhaseExecutionOptions)
  : PhaseOutcome * Orchestrator * AgentManager.Manager * list Effect :=
  if isRunning o then
    (Raised (ErrorObj (str "Phase execution already in progress")), o, m, [])
  else
    match syncContext w with
    | Throws e => (Raised e, idle, m, [])
    | Ok _ =>
        match fetchTasksByPhase w with
        | Throws e => (Raised e, idle, m, [])
        | Ok allTasks =>
            let pendingTasks := List.filter is_pending allTasks in
            match pendingTasks with
            | [] =>
                (Returned
                   (mkPhaseResult (optPhaseId options) 0 0 0 0 [] false None
                      (totalElapsed w)),
                 idle, m, [])
            | _ =>
                match run_tasks w options pendingTasks
                        (mkLoop (stopRequestedEarly w) [] m [] None) with
                | loop_done l =>
                    let phaseResult := summarize options w l in
                    (Returned phaseResult, idle, loopManager l,
                     loopEffects l ++ [onPhaseComplete phaseResult])
                | loop_throws e l =>
                    (Raised e, idle, loopManager l, loopEffects l)
                | loop_hangs l =>
                    (NeverReturns,
                     mkOrchestrator true (loopStop l) (loopProcessId l),
                     loopManager l, loopEffects l)
                end
            end
        end
    end.

End PhaseOrchestrator.

(* ===================================================================== *)
(** ** The notions the properties are stated with *)
(* ===================================================================== *)

Module Spec.
Import Types.

(** [Matches ic its m]: the text [m] is, from its first to its last code
    unit, an instance of the pattern items [its]. *)
Inductive Matches (ic : bool) : list Regex.Item -> jsstring -> Prop :=
  | M_nil : Matches ic [] []
  | M_one cs c r m :
      Regex.in_set ic cs c = true ->
      Matches ic r m ->
      Matches ic ((cs, Regex.One) :: r) (c :: m)
  | M_star_stop cs r m :
      Matches ic r m ->
      Matches ic ((cs, Regex.Star) :: r) m
  | M_star_step cs c r m :
      Regex.in_set ic cs c = true ->
      Matches ic ((cs, Regex.Star) :: r) m ->
      Matches ic ((cs, Regex.Star) :: r) (c :: m).

(** A pattern that may match anywhere in a text and never across a line
    feed. *)
Definition line_local (re : Regex.RegExp) : bool :=
  negb (Regex.anchorStart re) && negb (Regex.anchorEnd re)
  && forallb (fun it : Regex.Item =>
                negb (Regex.in_set (Regex.ignoreCase re) (fst it) LF))
       (Regex.items re).

(** Some blocker pattern matches the text. *)
Definition blocker_in (text : jsstring) : bool :=
  existsb (fun pattern => Regex.test pattern text)
    PhaseOrchestrator.BLOCKER_PATTERNS.

(** No terminal event is followed by another event. *)
Definition terminal_last (l : list AgentOutput) : Prop :=
  forall pre o post,
    l = pre ++ o :: post -> is_terminal o = true -> post = [].

(** Exactly one terminal event, and it is the last event. *)
Definition one_terminal_last (l : list AgentOutput) : Prop :=
  exists pre t,
    l = pre ++ [t] /\ is_terminal t = true
    /\ Forall (fun o => is_terminal o = false) pre.

Definition is_closing (ev : ChildEvent) : bool :=
  match ev with
  | close_event _ | error_event _ => true
  | _ => false
  end.

Definition is_cancel (s : CopilotSdk.SessionStep) : bool :=
  match s with
  | CopilotSdk.Cancel => true
  | _ => false
  end.

(** [cancel] is never called on the session. *)
Definition uncancelled (env : CopilotSdk.Session) : bool :=
  negb (CopilotSdk.cancelledDuringSetup env)
  && forallb (fun s => negb (is_cancel s)) (CopilotSdk.steps env).

(** The adapters of this repository, each with the test that tells, for
    a task, whether its execution comes to an end of its own: a one-shot
    adapter whose child process closes or fails, the session adapter
    when nobody cancels. *)
Inductive Registered : AgentAdapter -> (TaskPrompt -> bool) -> Prop :=
  | one_shot_adapter a :
      executeSdk a = None ->
      Registered a
        (fun task =>
           match execute a task with
           | spawned events => existsb is_closing events
           | spawn_throws _ => false
           end)
  | session_adapter host env echo :
      Registered (CopilotSdk.adapter host env echo)
        (fun task => uncancelled (env task)).

(** The outputs the listeners of a child process emit for events that do
    not end it. *)
Definition output_of_data (ev : ChildEvent) : option AgentOutput :=
  match ev with
  | stdout_data d => Some (plain stdout d)
  | stderr_data d => Some (plain stderr d)
  | _ => None
  end.

(** A handler call that went well, or one that failed and said so: the
    handler returns, with [success] and the start and end events, or with
    [success: false], the error and the start and error events. *)
Definition well_reported (name : jsstring)
  (out : CopilotSdk.H CopilotSdk.ToolResult) : Prop :=
  exists r, snd out = Ok r /\
    ((CopilotSdk.success r = true /\ CopilotSdk.error r = None
      /\ fst out = [CopilotSdk.started name; CopilotSdk.ended name])
     \/ (CopilotSdk.success r = false
         /\ exists msg, is_Some (CopilotSdk.error r)
            /\ fst out = [CopilotSdk.started name; CopilotSdk.errored name msg])).

(** A computation that calls [onToolEvent] nowhere. *)
Definition quiet {A} (m : CopilotSdk.H A) : Prop := fst m = [].

(** The body of a handler's [try]: it either throws before any event, or
    reports the end of the tool and returns a success. *)
Definition clean_body (name : jsstring)
  (b : CopilotSdk.H CopilotSdk.ToolResult) : Prop :=
  (exists r, b = ([CopilotSdk.ended name], Ok r)
             /\ CopilotSdk.success r = true /\ CopilotSdk.error r = None)
  \/ (exists e, b = ([], Throws e)).

(** The outputs the execution registry puts on the Subject for a callback
    of an SDK execution: the output itself, or the status line and the
    structured event of a tool event. *)
Definition call_outputs (c : Callback) : list AgentOutput :=
  match c with
  | onOutput o => [o]
  | onToolEvent e =>
      [plain Types.status (AgentManager.formatToolStatus e);
       mkOutput (output_type_of (evType e)) (AgentManager.formatToolStatus e)
         (Some (evToolName e))]
  end.

Definition nonterminal_call (c : Callback) : Prop :=
  Forall (fun o => is_terminal o = false) (call_outputs c).

(** A list of callbacks in which only the last one may carry a terminal
    output; [sure] tells whether it has to. *)
Definition terminal_only_last (sure : bool) (calls : list Callback) : Prop :=
  exists body last,
    calls = body ++ last /\ Forall nonterminal_call body
    /\ (last = [] \/ exists t, last = [onOutput t] /\ is_terminal t = true)
    /\ (sure = true -> last <> []).

(** The result of a task that was executed to its end without a blocker. *)
Definition ran (r : PhaseOrchestrator.TaskResult) : Prop :=
  PhaseOrchestrator.status r = PhaseOrchestrator.completed
  \/ PhaseOrchestrator.status r = PhaseOrchestrator.failed.

(** The exception of a call, if it throws. *)
Definition thrown {A} (o : Outcome A) : option Thrown :=
  match o with
  | Throws e => Some e
  | Ok _ => None
  end.

(** The exception of the first of two calls that throws, the second
    being made with the value of the first. *)
Definition thrown_then {A} (o : Outcome A) (next : A -> option Thrown)
  : option Thrown :=
  match o with
  | Throws e => Some e
  | Ok a => next a
  end.

(** The failure a call of a tool meets, if it meets one: the exception
    of the first call of the host, within the [try] block of the handler,
    that throws and is not caught by an inner [try].  The inner ones are
    around ripgrep and around the reading of a file in [search_code], and
    around the reading of todo.md in [todo_write].  For [run_command] it
    is the rejection of [exec], with the message the handler reads off
    it. *)
Definition first_failure (host : CopilotSdk.Host) (root : jsstring)
  (c : CopilotSdk.ToolCall) : option Thrown :=
  let path_join := CopilotSdk.path_join host in
  match c with
  | CopilotSdk.Call_edit_file filePath content createDirectories =>
      let absolutePath := path_join root filePath in
      if default true createDirectories then
        thrown_then
          (CopilotSdk.fs_mkdir host (CopilotSdk.path_dirname host absolutePath))
          (fun _ => thrown (CopilotSdk.fs_writeFile host absolutePath content))
      else thrown (CopilotSdk.fs_writeFile host absolutePath content)
  | CopilotSdk.Call_read_file filePath =>
      thrown (CopilotSdk.fs_readFile host (path_join root filePath))
  | CopilotSdk.Call_run_command command _ _ =>
      match CopilotSdk.execAsync host command with
      | CopilotSdk.ExecOk _ _ => None
      | CopilotSdk.ExecFail message _ _ _ =>
          Some (ErrorObj
                  (CopilotSdk.or_else (default [] message)
                     (str "Command execution failed")))
      end
  | CopilotSdk.Call_list_files dirPath recursive maxDepth =>
      thrown
        (CopilotSdk.listFilesRecursive host
           (path_join root (default (str ".") dirPath))
           (default false recursive) (default 3%Z maxDepth))
  | CopilotSdk.Call_delete_file filePath =>
      thrown (CopilotSdk.fs_unlink host (path_join root filePath))
  | CopilotSdk.Call_search_code pattern searchPath caseSensitive maxResults
      filePattern =>
      let absoluteSearchPath := path_join root (default (str ".") searchPath) in
      match CopilotSdk.execAsync host
              (CopilotSdk.rg_command pattern absoluteSearchPath
                 (default false caseSensitive) (default 50%Z maxResults)
                 filePattern) with
      | CopilotSdk.ExecOk _ _ => None
      | CopilotSdk.ExecFail _ _ _ _ =>
          thrown_then
            (CopilotSdk.new_RegExp host pattern (default false caseSensitive))
            (fun regex =>
               thrown_then
                 (CopilotSdk.listFilesRecursive host absoluteSearchPath true 10)
                 (fun files =>
                    thrown
                      (CopilotSdk.manual_search host regex filePattern
                         absoluteSearchPath (default 50%Z maxResults)
                         files [])))
      end
  | CopilotSdk.Call_find_files pattern _ _ =>
      thrown_then (CopilotSdk.listFilesRecursive host root true 15)
        (fun _ => thrown (CopilotSdk.glob_test host pattern))
  | CopilotSdk.Call_apply_patch filePath edits =>
      let absolutePath := path_join root filePath in
      thrown_then (CopilotSdk.fs_readFile host absolutePath)
        (fun content =>
           thrown
             (CopilotSdk.fs_writeFile host absolutePath
                (fst (CopilotSdk.apply_edits edits content []))))
  | CopilotSdk.Call_collab_web_search query _ =>
      thrown_then
        (CopilotSdk.exec_as_outcome
           (CopilotSdk.execAsync host
              (str "curl -s " ++ [34] ++ str "https://api.duckduckgo.com/?q="
                 ++ CopilotSdk.encodeURIComponent host query
                 ++ str "&format=json&no_html=1" ++ [34])))
        (fun out => thrown (CopilotSdk.JSON_parse host (fst out)))
  | CopilotSdk.Call_web_fetch url _ _ =>
      thrown
        (CopilotSdk.exec_as_outcome
           (CopilotSdk.execAsync host
              (str "curl -s -L --max-time 15 " ++ [34] ++ url ++ [34])))
  | CopilotSdk.Call_todo_write items append =>
      let todoDir := path_join root (str ".collablearn") in
      let todoFile := path_join todoDir (str "todo.md") in
      thrown_then (CopilotSdk.fs_mkdir host todoDir)
        (fun _ =>
           let existingItems :=
             if default false append then
               match CopilotSdk.fs_readFile host todoFile with
               | Ok existing =>
                   omap CopilotSdk.parse_todo_line (split_lines existing)
               | Throws _ => []
               end
             else [] in
           thrown
             (CopilotSdk.fs_writeFile host todoFile
                (CopilotSdk.todo_markdown (existingItems ++ items))))
  end.

(** The [error] field of the value a handler returns for a failure with
    message [msg]: the message, which [run_command] alone cleans and
    cuts. *)
Definition returned_error (c : CopilotSdk.ToolCall) (msg : jsstring)
  : jsstring :=
  match c with
  | CopilotSdk.Call_run_command _ _ _ => CopilotSdk.safeToolText msg 8000
  | _ => msg
  end.

(** A failure is reported: the handler returns [success: false] with the
    message of the failure as [error], after the events [tool_start] and
    [tool_error], the latter with the same message. *)
Definition reports_failure (c : CopilotSdk.ToolCall) (e : Thrown)
  (out : CopilotSdk.H CopilotSdk.ToolResult) : Prop :=
  exists r,
    out = ([CopilotSdk.started (CopilotSdk.tool_name c);
            CopilotSdk.errored (CopilotSdk.tool_name c) (message_or_unknown e)],
           Ok r)
    /\ CopilotSdk.success r = false
    /\ CopilotSdk.error r = Some (returned_error c (message_or_unknown e)).

(** A success is reported: the handler returns [success: true] and no
    [error], after the events [tool_start] and [tool_end]. *)
Definition reports_success (c : CopilotSdk.ToolCall)
  (out : CopilotSdk.H CopilotSdk.ToolResult) : Prop :=
  exists r,
    out = ([CopilotSdk.started (CopilotSdk.tool_name c);
            CopilotSdk.ended (CopilotSdk.tool_name c)],
           Ok r)
    /\ CopilotSdk.success r = true
    /\ CopilotSdk.error r = None.

End Spec.

(* ===================================================================== *)
(** ** Sample data *)
(* ===================================================================== *)

Module Samples.
Import Types.

(** A host on which every call fails. *)
Definition failing_host : CopilotSdk.Host :=
  let e := ErrorObj (str "ENOENT") in
  CopilotSdk.mkHost
    (fun a b => a ++ [47] ++ b) (fun a => a)
    (fun _ => Throws e) (fun _ _ => Throws e) (fun _ => Throws e)
    (fun _ => Throws e) (fun _ => Throws e)
    (fun _ => CopilotSdk.ExecFail None None None None)
    (fun _ _ => Throws e) (fun _ => []) (fun _ => Throws e)
    (fun q => q) (fun s => s).

(** A one-shot adapter (one without [executeSdk]) whose child processes
    behave as [behaviour] says. *)
Definition one_shot (behaviour : TaskPrompt -> Launch) : AgentAdapter :=
  mkAdapter (str "github-copilot") (str "GitHub Copilot") behaviour None.

Definition manager_with (a : AgentAdapter) : AgentManager.Manager :=
  AgentManager.registerAdapter a (AgentManager.mkManager ∅ ∅).

Definition prompt_1 : TaskPrompt :=
  mkPrompt (str "1") (str "Add login") (str "Add a login form")
    (str "/work/app") None None.

Definition task_A : Task := mkTask 1 (str "A") None pending 7.
Definition task_B : Task := mkTask 2 (str "B") None pending 7.
Definition task_C : Task := mkTask 3 (str "C") None pending 7.

Definition options_cli : PhaseOrchestrator.PhaseExecutionOptions :=
  PhaseOrchestrator.mkOptions 7 1 (str "github-copilot") (str "/work/app").

(** A phase run over [tasks] in which [stopAfterCurrentTask] is called
    during the tasks [stop] selects. *)
Definition world_of (tasks : list Task) (stop : Task -> bool)
  : PhaseOrchestrator.World :=
  PhaseOrchestrator.mkWorld (Ok ()) (Ok tasks) (fun _ => 1000)
    (fun _ => 250) false stop 900.

Definition is_task (n : Z) (t : Task) : bool := Z.eqb (taskId t) n.

(** A child process that prints the given chunks and exits with [code]. *)
Definition prints (chunks : list jsstring) (code : Z) : Launch :=
  spawned (map stdout_data chunks ++ [close_event (Some code)]).

(** A session in which [cancel] is called while the request is pending. *)
Definition cancelled_session : CopilotSdk.Session :=
  CopilotSdk.mkSession true (Ok ()) (Ok ())
    false
    [CopilotSdk.Event (CopilotSdk.assistant_message_delta (Some (str "Working")));
     CopilotSdk.Cancel]
    (Throws (ErrorObj (str "aborted"))).

(** A session that runs to its end. *)
Definition plain_session : CopilotSdk.Session :=
  CopilotSdk.mkSession false (Ok ()) (Ok ())
    false
    [CopilotSdk.Event (CopilotSdk.assistant_message (Some (str "Done")))]
    (Ok ()).

Definition sdk_adapter (env : CopilotSdk.Session) : AgentAdapter :=
  CopilotSdk.adapter failing_host (fun _ => env)
    (fun _ => prints [str "Use CopilotSdkAdapter.executeSdk() for full SDK functionality"] 0).

(** The project tree with [src/a.ts], [src/a/b.ts] and [src/a/b.tsx]. *)
Definition sample_tree : list CopilotSdk.Entry :=
  [CopilotSdk.DirE (str "src")
     (Ok [CopilotSdk.FileE (str "a.ts");
          CopilotSdk.DirE (str "a")
            (Ok [CopilotSdk.FileE (str "b.ts");
                 CopilotSdk.FileE (str "b.tsx")])])].

Definition tree_host : CopilotSdk.Host :=
  let e := ErrorObj (str "ENOENT") in
  CopilotSdk.mkHost
    (fun a b => a ++ [47] ++ b) (fun a => a)
    (fun _ => Throws e) (fun _ _ => Throws e) (fun _ => Throws e)
    (fun _ => Throws e) (fun _ => Ok sample_tree)
    (fun _ => CopilotSdk.ExecFail None None None None)
    (fun _ _ => Throws e) (fun _ => []) (fun _ => Throws e)
    (fun q => q) (fun s => s).

(** The execution registry with a one-shot adapter whose child process
    prints "ok", "BLOCKED: missing API key" and "more", and exits. *)
Definition blocker_manager : AgentManager.Manager :=
  manager_with
    (one_shot (fun _ => prints [str "ok"; str "BLOCKED: missing API key";
                                str "more"] 0)).

(** A one-shot adapter whose child process completes task 1 with "done"
    and says, for any other task, that it cannot proceed. *)
Definition credentials_manager : AgentManager.Manager :=
  manager_with
    (one_shot
       (fun task =>
          if bool_decide (promptId task = str "1")
          then prints [str "done"] 0
          else prints [str "I cannot proceed without credentials."] 0)).

(** A one-shot adapter whose child process completes tasks 1 and 3 with
    "done"; for task 2 it says that it cannot proceed, and then the
    process fails. *)
Definition broken_pipe_manager : AgentManager.Manager :=
  manager_with
    (one_shot
       (fun task =>
          if bool_decide (promptId task = str "2")
          then spawned [stdout_data (str "I cannot proceed without credentials.");
                        error_event (str "read ECONNRESET")]
          else prints [str "done"] 0)).

(** A session whose request fails, with no [cancel]. *)
Definition timed_out_session : CopilotSdk.Session :=
  CopilotSdk.mkSession true (Ok ()) (Ok ())
    false
    [CopilotSdk.Event (CopilotSdk.assistant_message_delta (Some (str "Working")))]
    (Throws (ErrorObj (str "Request timed out"))).

(** A host on which files can be written and directories made, and no
    file can be read. *)
Definition write_only_host : CopilotSdk.Host :=
  let e := ErrorObj (str "EACCES") in
  CopilotSdk.mkHost
    (fun a b => a ++ [47] ++ b) (fun a => a)
    (fun _ => Ok ()) (fun _ _ => Ok ()) (fun _ => Throws e)
    (fun _ => Ok ()) (fun _ => Ok [])
    (fun _ => CopilotSdk.ExecFail None None None None)
    (fun _ _ => Throws e) (fun _ => []) (fun _ => Throws e)
    (fun q => q) (fun s => s).

(** A text of 50,000 code units that starts with the colour code for
    red. *)
Definition red_text : jsstring :=
  [27; 91; 51; 49; 109] ++ replicate (N.to_nat 49995) 97.

End Samples.

(* ===================================================================== *)
(** ** Further parts of the code *)
(* ===================================================================== *)

(** *** The execution log store (src/main/services/ConfigStore.ts) *)

(** The store as it is in memory; writing it to disk is best effort and
    nothing reads it back while the application runs.  The clock reading is
    an argument of each operation that takes one. *)
Module ConfigStore.
Import Types.

Definition CAP : nat := 2000.

Record ExecutionLog := mkLog {
  outputs : list AgentOutput;
  lastExecutedAt : N;
  processId : option jsstring;
  status : option AgentManager.Status;
}.

(** [storeData.executionLogs[taskId] || null] *)
Definition getExecutionLogs (logs : gmap Z ExecutionLog) (taskId : Z)
  : option ExecutionLog :=
  logs !! taskId.

Definition setExecutionLogs (logs : gmap Z ExecutionLog) (taskId : Z)
  (outs : list AgentOutput) (now : N) : gmap Z ExecutionLog :=
  let prev := logs !! taskId in
  <[taskId := mkLog outs now (prev ≫= processId) (prev ≫= status)]> logs.

(** [a ?? b] *)
Definition coalesce {A} (a b : option A) : option A :=
  match a with Some _ => a | None => b end.

Definition setExecutionMeta (logs : gmap Z ExecutionLog) (taskId : Z)
  (metaProcessId : option jsstring) (metaStatus : option AgentManager.Status)
  (now : N) : gmap Z ExecutionLog :=
  let prev := logs !! taskId in
  <[taskId :=
      mkLog (match prev with Some e => outputs e | None => [] end)
        (match prev with
         | Some e => if N.eqb (lastExecutedAt e) 0 then now else lastExecutedAt e
         | None => now
         end)
        (coalesce metaProcessId (prev ≫= processId))
        (coalesce metaStatus (prev ≫= status))]> logs.

Definition appendExecutionOutput (logs : gmap Z ExecutionLog) (taskId : Z)
  (output : AgentOutput) (now : N) : gmap Z ExecutionLog :=
  let prev := logs !! taskId in
  let outs := match prev with Some e => outputs e | None => [] end ++ [output] in
  let capped :=
    if Nat.ltb CAP (length outs) then drop (length outs - CAP) outs else outs in
  <[taskId := mkLog capped now (prev ≫= processId) (prev ≫= status)]> logs.

Definition clearExecutionLogs (logs : gmap Z ExecutionLog) (taskId : Z)
  : gmap Z ExecutionLog :=
  delete taskId logs.

(** The handler of [logs:getStatus] of the main process: the status
    of the live execution when the stored process id is still tracked, the
    stored status otherwise. *)
Definition getStatus (logs : gmap Z ExecutionLog) (m : AgentManager.Manager)
  (taskId : Z) : option jsstring * option AgentManager.Status :=
  let meta := getExecutionLogs logs taskId in
  let pid :=
    match meta ≫= processId with
    | Some (c :: p) => Some (c :: p)
    | _ => None
    end in
  let agentStatus :=
    match pid with
    | Some p => AgentManager.getExecutionStatus m p
    | None => None
    end in
  (pid, coalesce agentStatus (meta ≫= status)).

End ConfigStore.

(** *** The handler of [agents:executeTest] of the main process *)

(** The handler starts an execution, subscribes to its stream at once and
    keeps the log of the task in the store.  The [context] of a task input
    is only handed to the adapter and is left out, as in [TaskPrompt].  A
    value a stream fails with that is not an [Error] is taken to have no
    [message]. *)
Module Handlers.
Import Types.

Inductive Effect :=
  | send (channel : jsstring) (o : AgentOutput)
  | updateTaskStatus (task : Z) (s : TaskStatus).

(** The variables the callbacks of the subscription share; [handled]
    counts the notifications of the stream handled so far. *)
Record Run := mkRun {
  runLogs : gmap Z ConfigStore.ExecutionLog;
  hasError : bool;
  runEffects : list Effect;
  handled : nat;
}.

(** [taskInput.taskId] when it is truthy. *)
Definition realTaskId_of (taskId : option Z) : option Z :=
  match taskId with
  | Some 0%Z | None => None
  | Some t => Some t
  end.

(** The [next] callback; [stamp k] is the clock reading while the [k]-th
    notification is handled. *)
Definition on_next (channel : jsstring) (realTaskId : option Z)
  (stamp : nat -> N) (r : Run) (output : AgentOutput) : Run :=
  mkRun
    (match realTaskId with
     | Some t =>
         ConfigStore.appendExecutionOutput (runLogs r) t output
           (stamp (handled r))
     | None => runLogs r
     end)
    (match type output with error => true | _ => hasError r end)
    (runEffects r ++ [send channel output])
    (S (handled r)).

(** The [error] and [complete] callbacks. *)
Definition on_closing (channel : jsstring) (realTaskId : option Z)
  (stamp : nat -> N) (r : Run) (c : Rx.Closing)
  : gmap Z ConfigStore.ExecutionLog * list Effect :=
  let now := stamp (handled r) in
  match c with
  | Rx.Failed e =>
      let out :=
        plain error
          (match e with
           | ErrorObj (c :: m) => c :: m
           | _ => str "Unknown error"
           end) in
      match realTaskId with
      | Some t =>
          (ConfigStore.setExecutionMeta
             (ConfigStore.appendExecutionOutput (runLogs r) t out now)
             t None (Some AgentManager.failed) now,
           runEffects r ++ [send channel out; updateTaskStatus t blocked])
      | None => (runLogs r, runEffects r ++ [send channel out])
      end
  | Rx.Completed =>
      match realTaskId with
      | Some t =>
          (ConfigStore.setExecutionMeta (runLogs r) t None
             (Some (if hasError r then AgentManager.failed
                    else AgentManager.completed)) now,
           runEffects r
             ++ [updateTaskStatus t
                   (if hasError r then blocked else completed)])
      | None => (runLogs r, runEffects r)
      end
  end.

Definition taskPromptId (realTaskId : option Z) (now : N) : jsstring :=
  match realTaskId with
  | Some t => str "task-" ++ of_Z t
  | None => str "test-" ++ of_N now
  end.

Definition processId_of (agentId : jsstring) (realTaskId : option Z)
  (now : N) : jsstring :=
  agentId ++ str "-" ++ taskPromptId realTaskId now ++ str "-" ++ of_N now.

(** The handler: what it answers (the process id, or the exception of
    [executeTask]), the store and the registry afterwards, and what it
    sent and pushed, in order.  [now] is the clock reading at the call. *)
Definition executeTest (logs : gmap Z ConfigStore.ExecutionLog)
  (m : AgentManager.Manager) (agentId : jsstring)
  (title description projectPath : jsstring) (taskId : option Z)
  (model : option jsstring) (now : N) (stamp : nat -> N)
  : Outcome jsstring * gmap Z ConfigStore.ExecutionLog
    * AgentManager.Manager * list Effect :=
  let realTaskId := realTaskId_of taskId in
  let task :=
    mkPrompt (taskPromptId realTaskId now) title description projectPath
      model None in
  let processId := processId_of agentId realTaskId now in
  let channel := str "agent:output:" ++ processId in
  let logs0 :=
    match realTaskId with
    | Some t =>
        ConfigStore.setExecutionMeta logs t (Some processId)
          (Some AgentManager.running) now
    | None => logs
    end in
  let started :=
    match realTaskId with
    | Some t => [updateTaskStatus t in_progress]
    | None => []
    end in
  match AgentManager.run m agentId task (Some processId) now with
  | Throws e =>
      (Throws e,
       match realTaskId with
       | Some t =>
           ConfigStore.setExecutionMeta logs0 t None
             (Some AgentManager.failed) now
       | None => logs0
       end,
       m, started)
  | Ok x =>
      let stream := AgentManager.subject x in
      let r :=
        foldl (on_next channel realTaskId stamp)
          (mkRun logs0 false started 0) (Rx.delivered stream) in
      match Rx.closing stream with
      | None => (Ok processId, runLogs r, AgentManager.manager x, runEffects r)
      | Some c =>
          let '(logs1, effects) := on_closing channel realTaskId stamp r c in
          (Ok processId, logs1, AgentManager.manager x, effects)
      end
  end.

End Handlers.

(** *** Notions for the further properties *)

Module Laws.
Import Types.

Definition entry_name (e : CopilotSdk.Entry) : jsstring :=
  match e with
  | CopilotSdk.FileE n => n
  | CopilotSdk.DirE n _ => n
  end.

Definition entry_is_file (e : CopilotSdk.Entry) : bool :=
  match e with
  | CopilotSdk.FileE _ => true
  | CopilotSdk.DirE _ _ => false
  end.

(** A name of the fixed ignore set of the directory listing. *)
Definition ignored (name : jsstring) : bool :=
  existsb (CopilotSdk.jsstring_eqb name) CopilotSdk.ignored_dirs.

(** The listing entry of a directory entry itself. *)
Definition info_of (e : CopilotSdk.Entry) : CopilotSdk.FileInfo :=
  CopilotSdk.mkFileInfo (entry_name e) (entry_is_file e) (entry_name e).

(** A todo item that fits on a line of the checklist: its text is not empty
    and has no line terminator. *)
Definition todo_item_ok (it : jsstring * option CopilotSdk.TodoStatus) : Prop :=
  fst it <> []
  /\ forallb (fun c => negb (Regex.is_line_terminator c)) (fst it) = true.

(** The line of todo.md for an item. *)
Definition todo_line (it : jsstring * option CopilotSdk.TodoStatus) : jsstring :=
  str "- [" ++ [CopilotSdk.statusChar (snd it)] ++ str "] " ++ fst it.

(** An item as it is read back: a missing status is [pending]. *)
Definition todo_item_read (it : jsstring * option CopilotSdk.TodoStatus)
  : jsstring * option CopilotSdk.TodoStatus :=
  (fst it, Some (default CopilotSdk.todo_pending (snd it))).

(** The events the tool handlers of the steps emit. *)
Definition handler_calls (host : CopilotSdk.Host) (root : jsstring)
  (s : CopilotSdk.SessionStep) : list Callback :=
  match s with
  | CopilotSdk.Invoke c =>
      map onToolEvent (fst (CopilotSdk.handler host root c))
  | _ => []
  end.

(** The status pushes among the effects of the orchestrator. *)
Definition pushes (effects : list PhaseOrchestrator.Effect)
  : list (Z * TaskStatus) :=
  omap (fun e => match e with
                 | PhaseOrchestrator.updateTaskStatus t s => Some (t, s)
                 | _ => None
                 end) effects.

(** A host on which commands print [out] and files hold [content]. *)
Definition quiet_host (out content : jsstring) : CopilotSdk.Host :=
  let e := ErrorObj (str "ENOENT") in
  CopilotSdk.mkHost
    (fun a b => a ++ [47] ++ b) (fun a => a)
    (fun _ => Ok ()) (fun _ _ => Ok ()) (fun _ => Ok content)
    (fun _ => Ok ()) (fun _ => Ok [])
    (fun _ => CopilotSdk.ExecOk out [])
    (fun _ _ => Throws e) (fun _ => []) (fun _ => Throws e)
    (fun q => q) (fun s => s).

(** The registry [m'] differs from [m] at most in the entry of [pid]. *)
Definition only_entry (pid : jsstring) (m m' : AgentManager.Manager) : Prop :=
  AgentManager.adapters m' = AgentManager.adapters m
  /\ forall q, q <> pid ->
       AgentManager.runningProcesses m' !! q
       = AgentManager.runningProcesses m !! q.

(** The status a [close] or [error] event of a child process records. *)
Definition closing_status (ev : ChildEvent) : AgentManager.Status :=
  match ev with
  | close_event (Some 0%Z) => AgentManager.completed
  | _ => AgentManager.failed
  end.

(** The status a callback of a session records, if it records one. *)
Definition terminal_status (c : Callback) : option AgentManager.Status :=
  match c with
  | onOutput o =>
      match type o with
      | complete => Some AgentManager.completed
      | error => Some AgentManager.failed
      | _ => None
      end
  | onToolEvent _ => None
  end.

(** The status pushes that go with a result of the task loop. *)
Definition pushes_of_result (r : PhaseOrchestrator.TaskResult)
  : list (Z * TaskStatus) :=
  let t := PhaseOrchestrator.resTaskId r in
  match PhaseOrchestrator.status r with
  | PhaseOrchestrator.skipped => []
  | PhaseOrchestrator.failed => [(t, in_progress)]
  | PhaseOrchestrator.completed => [(t, in_progress); (t, completed)]
  | PhaseOrchestrator.blocked => [(t, in_progress); (t, blocked)]
  end.

(** Only the last result of a list may be [blocked]. *)
Definition blocked_last (rs : list PhaseOrchestrator.TaskResult) : Prop :=
  forall pre x post,
    rs = pre ++ x :: post ->
    PhaseOrchestrator.status x = PhaseOrchestrator.blocked -> post = [].

(** The outputs stored for a task, none when it has no log. *)
Definition stored_outputs (logs : gmap Z ConfigStore.ExecutionLog)
  (taskId : Z) : list AgentOutput :=
  match ConfigStore.getExecutionLogs logs taskId with
  | Some e => ConfigStore.outputs e
  | None => []
  end.

(** The outputs of a stream appended one by one, each at its time. *)
Definition append_all (logs : gmap Z ConfigStore.ExecutionLog) (taskId : Z)
  (l : list (AgentOutput * N)) : gmap Z ConfigStore.ExecutionLog :=
  foldl (fun lg o => ConfigStore.appendExecutionOutput lg taskId (fst o) (snd o))
    logs l.

(** The last [n] elements of a list. *)
Definition last_n {A} (n : nat) (l : list A) : list A :=
  drop (length l - n) l.

(** An output of type [error]. *)
Definition is_error_output (o : AgentOutput) : bool :=
  match type o with error => true | _ => false end.

(** The outputs sent to the renderer among the effects of the handler. *)
Definition sent (effects : list Handlers.Effect) : list AgentOutput :=
  omap (fun e => match e with
                 | Handlers.send _ o => Some o
                 | _ => None
                 end) effects.

(** What the handler appends to the log when the stream closes. *)
Definition closing_output (c : Rx.Closing) : list AgentOutput :=
  match c with
  | Rx.Failed (ErrorObj (c :: m)) => [plain error (c :: m)]
  | Rx.Failed _ => [plain error (str "Unknown error")]
  | Rx.Completed => []
  end.

End Laws.

(* ===================================================================== *)
(** * Facts *)
(* ===================================================================== *)

(** ** The matcher against the declarative reading of a pattern *)

Section MatcherFacts.
Import Regex Spec.
Variable ic : bool.

Lemma star_of_rest (inset : N -> bool) (k : jsstring -> option nat) s :
  is_Some (k s) -> is_Some (star inset k s).
Proof.
  intros Hk. destruct s as [|c t]; simpl; [done|].
  destruct (inset c); [|done].
  destruct (star inset k t); [eauto | done].
Qed.

(** Whatever the declarative reading accepts at the head of a text, the
    matcher finds some match there. *)
Lemma match_here_complete its m :
  Matches ic its m ->
  forall rest, is_Some (match_here ic false its (m ++ rest)).
Proof.
  induction 1 as [|cs c r m Hin _ IH|cs r m _ IH|cs c r m Hin _ IH];
    intros rest; simpl.
  - eauto.
  - rewrite Hin. destruct (IH rest) as [n ->]. simpl. eauto.
  - apply star_of_rest, IH.
  - rewrite Hin. specialize (IH rest). simpl in IH.
    destruct IH as [n ->]. eauto.
Qed.

Lemma star_sound (inset : N -> bool) (k : jsstring -> option nat)
  (P : jsstring -> Prop) :
  (forall s n, k s = Some n -> exists m rest, s = m ++ rest /\ length m = n /\ P m) ->
  forall s n, star inset k s = Some n ->
    exists pre m rest,
      s = pre ++ m ++ rest /\ (length pre + length m = n)%nat
      /\ Forall (fun c => inset c = true) pre /\ P m.
Proof.
  intros Hk. induction s as [|c t IH]; intros n; simpl.
  - intros H. destruct (Hk _ _ H) as (m & rest & E & L & HP).
    exists [], m, rest. simpl. auto.
  - destruct (inset c) eqn:Hc.
    + destruct (star inset k t) as [j|] eqn:Hs.
      * intros [= <-]. destruct (IH _ eq_refl) as (pre & m & rest & E & L & F & HP).
        exists (c :: pre), m, rest. subst t. simpl.
        repeat split; auto.
      * intros H. destruct (Hk _ _ H) as (m & rest & E & L & HP).
        exists [], m, rest. simpl. auto.
    + intros H. destruct (Hk _ _ H) as (m & rest & E & L & HP).
      exists [], m, rest. simpl. auto.
Qed.

Lemma Matches_star_prefix cs r pre m :
  Forall (fun c => in_set ic cs c = true) pre ->
  Matches ic r m ->
  Matches ic ((cs, Star) :: r) (pre ++ m).
Proof.
  induction 1; intros Hm; simpl.
  - by apply M_star_stop.
  - apply M_star_step; auto.
Qed.

(** A match the matcher reports is an instance of the pattern. *)
Lemma match_here_sound its :
  forall s n, match_here ic false its s = Some n ->
    exists m rest, s = m ++ rest /\ length m = n /\ Matches ic its m.
Proof.
  induction its as [|[cs q] r IH]; intros s n; simpl.
  - intros [= <-]. exists [], s. split; [done|]. split; [done|]. constructor.
  - destruct q.
    + destruct s as [|c t]; [done|].
      destruct (in_set ic cs c) eqn:Hc; [|done].
      destruct (match_here ic false r t) as [j|] eqn:Hm; [|done].
      simpl. intros [= <-].
      destruct (IH _ _ Hm) as (m & rest & -> & L & HM).
      exists (c :: m), rest. simpl. repeat split; auto.
      by constructor.
    + intros Hs.
      destruct (star_sound (in_set ic cs) (match_here ic false r)
                  (Matches ic r) IH _ _ Hs)
        as (pre & m & rest & -> & L & F & HM).
      exists (pre ++ m), rest. rewrite <- app_assoc. split; [done|].
      rewrite length_app. split; [done|].
      by apply Matches_star_prefix.
Qed.

Lemma search_complete its pre m post :
  Matches ic its m ->
  is_Some (search ic false its (pre ++ m ++ post)).
Proof.
  intros HM. induction pre as [|c pre IH]; simpl.
  - destruct (match_here_complete _ _ HM post) as [n E].
    destruct (m ++ post); simpl in *; rewrite E; eauto.
  - destruct (match_here ic false its (c :: pre ++ m ++ post)); [eauto|].
    destruct IH as [[i n] ->]. eauto.
Qed.

Lemma search_sound its s i n :
  search ic false its s = Some (i, n) ->
  exists pre m post, s = pre ++ m ++ post /\ Matches ic its m.
Proof.
  revert i n. induction s as [|c t IH]; intros i n; simpl.
  - destruct (match_here ic false its []) eqn:E; [|done].
    intros _. destruct (match_here_sound _ _ _ E) as (m & rest & Es & _ & HM).
    exists [], m, rest. auto.
  - destruct (match_here ic false its (c :: t)) eqn:E.
    + intros _. destruct (match_here_sound _ _ _ E) as (m & rest & Es & _ & HM).
      exists [], m, rest. auto.
    + destruct (search ic false its t) as [[j k]|] eqn:Hs; [|done].
      intros _. destruct (IH _ _ eq_refl) as (pre & m & post & -> & HM).
      exists (c :: pre), m, post. auto.
Qed.

(** An instance of a pattern whose items all refuse the line feed has no
    line feed in it. *)
Lemma Matches_no_LF its m :
  Matches ic its m ->
  forallb (fun it : Item => negb (in_set ic (fst it) LF)) its = true ->
  LF ∉ m.
Proof.
  induction 1 as [|cs c r m Hin _ IH|cs r m _ IH|cs c r m Hin _ IH];
    simpl; intros Hall.
  - by apply not_elem_of_nil.
  - apply andb_prop in Hall as [H1 H2].
    apply not_elem_of_cons. split; [|auto].
    intros <-. rewrite Hin in H1. done.
  - apply andb_prop in Hall as [H1 H2]. auto.
  - pose proof Hall as Hall'. apply andb_prop in Hall' as [H1 H2].
    apply not_elem_of_cons. split; [|auto].
    intros <-. rewrite Hin in H1. done.
Qed.
End MatcherFacts.

(** A pattern that is not anchored matches a text exactly when some part of
    the text is an instance of it. *)
Lemma test_iff_infix re s :
  Regex.anchorStart re = false -> Regex.anchorEnd re = false ->
  Regex.test re s = true <->
  exists pre m post,
    s = pre ++ m ++ post /\ Spec.Matches (Regex.ignoreCase re) (Regex.items re) m.
Proof.
  intros Ha He. unfold Regex.test, Regex.exec. rewrite Ha, He. split.
  - destruct (Regex.search _ _ _ s) as [[i n]|] eqn:E; [|done].
    intros _. eapply search_sound; eauto.
  - intros (pre & m & post & -> & HM).
    destruct (search_complete (Regex.ignoreCase re) _ pre m post HM) as [x ->].
    done.
Qed.

(** Every pattern written as a literal in the modelled code is in the
    language of the parser. *)
Lemma literals_parse :
  Forall (fun p : jsstring * bool => is_Some (Regex.compile (fst p) (snd p)))
    [(str "\x1b\[[0-9;]*m", false); (str "\*\*", false); (str "\*", false);
     (str "\?", false); (str "{{GLOBSTAR}}", false); (str "\.", false);
     (str "BLOCKED:", true); ([55357; 57003], false);
     (str "cannot proceed", true); (str "missing.*required", true);
     (str "waiting for.*input", true); (str "need.*clarification", true);
     (str "unable to continue", true); (str "blocked by", true)].
Proof. repeat constructor; vm_compute; eauto. Qed.

(** ** Lines *)

Lemma split_lines_nonempty s : Js.split_lines s <> [].
Proof.
  destruct s as [|c t]; simpl; [done|].
  destruct (N.eqb c LF); [done|]. destruct (split_lines t); done.
Qed.

Lemma split_lines_cons c s :
  c <> LF ->
  exists l ls, split_lines s = l :: ls /\ split_lines (c :: s) = (c :: l) :: ls.
Proof.
  intros Hc. simpl. destruct (N.eqb_spec c LF) as [|_]; [done|].
  destruct (split_lines s) as [|l ls] eqn:E.
  - by destruct (split_lines_nonempty s).
  - eauto.
Qed.

Lemma split_lines_app_no_LF m post :
  LF ∉ m ->
  exists l ls,
    split_lines post = l :: ls /\ split_lines (m ++ post) = (m ++ l) :: ls.
Proof.
  induction m as [|c m IH]; simpl; intros Hm.
  - destruct (split_lines post) as [|l ls] eqn:E.
    + by destruct (split_lines_nonempty post).
    + eauto.
  - apply not_elem_of_cons in Hm as [Hc Hm].
    destruct (IH Hm) as (l & ls & E1 & E2).
    destruct (N.eqb_spec c LF) as [->|_]; [done|].
    rewrite E2. eauto.
Qed.

(** A piece of text without line feed lies within one line. *)
Lemma infix_in_a_line pre m post :
  LF ∉ m ->
  exists line a b, line ∈ split_lines (pre ++ m ++ post) /\ line = a ++ m ++ b.
Proof.
  intros Hm. induction pre as [|c pre IH].
  - destruct (split_lines_app_no_LF m post Hm) as (l & ls & _ & E).
    exists (m ++ l), [], l. simpl. rewrite E. split; [apply list_elem_of_here|done].
  - destruct IH as (line & a & b & Hin & ->).
    destruct (N.eqb_spec c LF) as [->|Hc].
    + exists (a ++ m ++ b), a, b. split; [|done].
      simpl. by apply list_elem_of_further.
    + destruct (split_lines_cons c (pre ++ m ++ post) Hc) as (l & ls & E1 & E2).
      rewrite <- app_comm_cons, E2. rewrite E1 in Hin.
      apply elem_of_cons in Hin as [<-|Hin].
      * exists (c :: a ++ m ++ b), (c :: a), b. split; [apply list_elem_of_here|done].
      * exists (a ++ m ++ b), a, b. split; [by apply list_elem_of_further|done].
Qed.

(** A line-local pattern that matches a text matches one of its lines. *)
Lemma line_local_test re s :
  Spec.line_local re = true ->
  Regex.test re s = true ->
  exists line, line ∈ split_lines s /\ Regex.test re line = true.
Proof.
  unfold Spec.line_local. intros H.
  apply andb_prop in H as [H Hlf]. apply andb_prop in H as [Ha He].
  apply negb_true_iff in Ha, He. intros Ht.
  apply (test_iff_infix re s Ha He) in Ht as (pre & m & post & -> & HM).
  destruct (infix_in_a_line pre m post (Matches_no_LF _ _ _ HM Hlf))
    as (line & a & b & Hin & ->).
  exists (a ++ m ++ b). split; [done|].
  apply (test_iff_infix re _ Ha He). eauto.
Qed.

(** ** Truncation *)

Lemma slice_last_pos (n : nat) (s : jsstring) :
  n <> O -> slice_last n s = drop (length s - n) s.
Proof. destruct n; [done|]. reflexivity. Qed.

(** A text longer than the cap keeps [maxChars / 2] code units at each end,
    around the marker that counts what was cut. *)
Lemma truncateText_long input maxChars :
  maxChars < CopilotSdk.len input -> 2 <= maxChars ->
  CopilotSdk.truncateText input maxChars =
    take (N.to_nat (maxChars / 2)) input
      ++ CopilotSdk.truncation_marker
           (Z.of_N (CopilotSdk.len input) - 2 * Z.of_N (maxChars / 2))
      ++ drop (length input - N.to_nat (maxChars / 2)) input.
Proof.
  intros Hlong Hcap. unfold CopilotSdk.truncateText.
  destruct (N.leb_spec (CopilotSdk.len input) maxChars) as [Hle|_]; [lia|].
  assert (Hhalf : 1 <= maxChars / 2) by (apply N.div_le_lower_bound; lia).
  assert (Hhalf2 : maxChars / 2 <= maxChars) by (apply N.Div0.div_le_upper_bound; lia).
  unfold slice_to. rewrite slice_last_pos by lia.
  unfold CopilotSdk.len in *.
  rewrite length_take, length_drop.
  do 3 f_equal. lia.
Qed.

(** ** Tool handlers *)

Section HandlerFacts.
Import CopilotSdk Spec.
Local Open Scope handler_scope.

Lemma quiet_lift {A} (o : Outcome A) : quiet (lift o).
Proof. reflexivity. Qed.

Lemma quiet_ret {A} (a : A) : quiet (H_ret a).
Proof. reflexivity. Qed.

Lemma quiet_bind {A B} (m : H A) (k : A -> H B) :
  quiet m -> (forall a, quiet (k a)) -> quiet (H_bind m k).
Proof.
  destruct m as [evs [a|e]]; unfold quiet; simpl; intros -> Hk; [|done].
  specialize (Hk a). destruct (k a) as [evs' r]. simpl in *. by subst.
Qed.

Lemma clean_bind {A} name (m : H A) (k : A -> H ToolResult) :
  quiet m -> (forall a, clean_body name (k a)) ->
  clean_body name (H_bind m k).
Proof.
  destruct m as [evs [a|e]]; unfold quiet; simpl; intros -> Hk.
  - specialize (Hk a). destruct (k a) as [evs' r]. exact Hk.
  - right. eauto.
Qed.

Lemma clean_end name p :
  clean_body name
    (emit (ended name) ;;; H_ret (mkResult true None p)).
Proof. left. eexists. split; [reflexivity|]. done. Qed.

Lemma handler_shape name body p :
  clean_body name body ->
  well_reported name
    (emit (started name) ;;; try_catch body (report_failure name p)).
Proof.
  intros [(r & -> & Hs & He)|(e & ->)]; unfold well_reported; simpl.
  - exists r. split; [done|]. left. done.
  - eexists. split; [reflexivity|]. right. simpl. split; [done|].
    eexists. split; [eauto|reflexivity].
Qed.

Ltac clean_step :=
  first
    [ apply clean_end
    | apply clean_bind; [first [apply quiet_lift | apply quiet_ret]|intros ?] ].

Variables (host : Host) (root : jsstring).

Lemma edit_file_reported p c d :
  well_reported (str "edit_file") (edit_file host root p c d).
Proof.
  apply handler_shape. apply clean_bind; [|intros ?; repeat clean_step].
  destruct (default true d); [apply quiet_lift | apply quiet_ret].
Qed.

Lemma read_file_reported p :
  well_reported (str "read_file") (read_file host root p).
Proof. apply handler_shape. repeat clean_step. Qed.

Lemma run_command_reported c d t :
  well_reported (str "run_command") (run_command host root c d t).
Proof.
  unfold run_command, well_reported.
  destruct (execAsync host c); simpl; eexists; (split; [reflexivity|]); simpl.
  - left. done.
  - right. split; [done|]. eexists. split; [eauto|reflexivity].
Qed.

Lemma list_files_reported d r m :
  well_reported (str "list_files") (list_files host root d r m).
Proof. apply handler_shape. repeat clean_step. Qed.

Lemma delete_file_reported p :
  well_reported (str "delete_file") (delete_file host root p).
Proof. apply handler_shape. repeat clean_step. Qed.

Lemma search_code_reported p s c m f :
  well_reported (str "search_code") (search_code host root p s c m f).
Proof.
  apply handler_shape. apply clean_bind; [|intros ?; repeat clean_step].
  destruct (execAsync host _); [apply quiet_ret|].
  repeat (apply quiet_bind; [apply quiet_lift|intros ?]). apply quiet_lift.
Qed.

Lemma find_files_reported p i m :
  well_reported (str "find_files") (find_files host root p i m).
Proof. apply handler_shape. repeat clean_step. Qed.

Lemma apply_patch_reported p e :
  well_reported (str "apply_patch") (apply_patch host root p e).
Proof.
  apply handler_shape. clean_step.
  destruct (apply_edits e _ []) as [content' applied]. repeat clean_step.
Qed.

Lemma collab_web_search_reported q m :
  well_reported (str "collab_web_search") (collab_web_search host q m).
Proof. apply handler_shape. repeat clean_step. Qed.

Lemma web_fetch_reported u s m :
  well_reported (str "web_fetch") (web_fetch host u s m).
Proof. apply handler_shape. repeat clean_step. Qed.

Lemma todo_write_reported i a :
  well_reported (str "todo_write") (todo_write host root i a).
Proof. apply handler_shape. repeat clean_step. Qed.
End HandlerFacts.

(** ** The Subject and the execution registry *)

Section ManagerFacts.
Import Types Spec AgentManager.

Lemma next_closed o s : is_Some (Rx.closing s) -> Rx.next o s = s.
Proof. intros [c Hc]. unfold Rx.next. by rewrite Hc. Qed.

Lemma close_closed c s : is_Some (Rx.closing s) -> Rx.close c s = s.
Proof. intros [c' Hc]. unfold Rx.close. by rewrite Hc. Qed.

(** Once the Subject is closed, the listeners of the child process leave
    it as it is. *)
Lemma on_child_event_closed pid ev x :
  is_Some (Rx.closing (subject x)) ->
  subject (on_child_event pid ev x) = subject x.
Proof.
  intros Hc. destruct ev; simpl; unfold Rx.complete, Rx.error;
    rewrite ?next_closed, ?close_closed; auto.
Qed.

Lemma child_events_closed pid events x :
  is_Some (Rx.closing (subject x)) ->
  subject (foldl (fun acc ev => on_child_event pid ev acc) x events)
  = subject x.
Proof.
  revert x. induction events as [|ev events IH]; intros x Hc; simpl; [done|].
  rewrite IH; rewrite on_child_event_closed; auto.
Qed.

(** The stream a subscribed, open Subject ends up with when the child
    process goes through [events]: nothing terminal while no closing
    event has come, and one terminal event, the last, from the first
    closing event on. *)
Lemma child_events_stream pid events x :
  Rx.closing (subject x) = None ->
  Rx.observed (subject x) = true ->
  Forall (fun o => is_terminal o = false) (Rx.delivered (subject x)) ->
  let s := subject (foldl (fun acc ev => on_child_event pid ev acc) x events) in
  if existsb is_closing events
  then is_Some (Rx.closing s) /\ one_terminal_last (Rx.delivered s)
  else Rx.closing s = None
       /\ Forall (fun o => is_terminal o = false) (Rx.delivered s).
Proof.
  revert x. induction events as [|ev events IH]; intros x Hopen Hobs Hnt;
    simpl; [done|].
  destruct ev as [d|d|code|msg]; simpl.
  - apply IH; simpl; unfold Rx.next; rewrite Hopen, ?Hobs; simpl; auto.
    apply Forall_app. split; [done|]. by constructor.
  - apply IH; simpl; unfold Rx.next; rewrite Hopen, ?Hobs; simpl; auto.
    apply Forall_app. split; [done|]. by constructor.
  - rewrite child_events_closed.
    + simpl. unfold Rx.complete, Rx.close, Rx.next. rewrite Hopen, Hobs.
      simpl. split; [eauto|]. eexists _, _. split; [reflexivity|]. done.
    + simpl. unfold Rx.complete, Rx.close, Rx.next. rewrite Hopen. simpl. eauto.
  - rewrite child_events_closed.
    + simpl. unfold Rx.error, Rx.close, Rx.next. rewrite Hopen, Hobs.
      simpl. split; [eauto|]. eexists _, _. split; [reflexivity|]. done.
    + simpl. unfold Rx.error, Rx.close, Rx.next. rewrite Hopen. simpl. eauto.
Qed.

Lemma one_terminal_last_is_last l : one_terminal_last l -> terminal_last l.
Proof.
  intros (pre & t & -> & Ht & Hpre) pre' o post E Ho.
  destruct post as [|p post] using rev_ind; [done|].
  exfalso. clear IHpost.
  rewrite app_comm_cons, app_assoc in E.
  apply app_inj_tail in E as [E _]. subst pre.
  apply Forall_app in Hpre as [_ Hpre]. inversion Hpre; subst. congruence.
Qed.

Lemma no_terminal_is_last l :
  Forall (fun o => is_terminal o = false) l -> terminal_last l.
Proof.
  intros H pre o post -> Ho. apply Forall_app in H as [_ H].
  inversion H; subst. congruence.
Qed.

(** The outputs a callback of an SDK execution puts on the Subject. *)
Lemma call_subject pid c x :
  subject (call pid c x)
  = foldl (fun s o => Rx.next o s) (subject x) (call_outputs c).
Proof. destruct c; reflexivity. Qed.

Lemma next_open o s :
  Rx.closing s = None -> Rx.observed s = true ->
  Rx.closing (Rx.next o s) = None /\ Rx.observed (Rx.next o s) = true
  /\ Rx.delivered (Rx.next o s) = Rx.delivered s ++ [o].
Proof. intros Hc Ho. unfold Rx.next. rewrite Hc, Ho. done. Qed.

Lemma nexts_open l s :
  Rx.closing s = None -> Rx.observed s = true ->
  let s' := foldl (fun s o => Rx.next o s) s l in
  Rx.closing s' = None /\ Rx.observed s' = true
  /\ Rx.delivered s' = Rx.delivered s ++ l.
Proof.
  revert s. induction l as [|o l IH]; intros s Hc Ho; simpl.
  - by rewrite app_nil_r.
  - destruct (next_open o s Hc Ho) as (Hc' & Ho' & Hd).
    destruct (IH _ Hc' Ho') as (? & ? & E). repeat split; auto.
    rewrite E, Hd, <- app_assoc. done.
Qed.

(** While the Subject is open, everything the callbacks carry reaches the
    subscriber, in order. *)
Lemma calls_stream pid calls x :
  Rx.closing (subject x) = None -> Rx.observed (subject x) = true ->
  let s := subject (foldl (fun acc c => call pid c acc) x calls) in
  Rx.closing s = None /\ Rx.observed s = true
  /\ Rx.delivered s
     = Rx.delivered (subject x) ++ concat (map call_outputs calls).
Proof.
  revert x. induction calls as [|c calls IH]; intros x Hc Ho; simpl.
  - by rewrite app_nil_r.
  - pose proof (nexts_open (call_outputs c) (subject x) Hc Ho) as (Hc' & Ho' & Hd).
    rewrite <- call_subject with (pid := pid) in Hc', Ho', Hd.
    destruct (IH _ Hc' Ho') as (? & ? & E). repeat split; auto.
    rewrite E, Hd, <- app_assoc. done.
Qed.

Lemma settle_subject pid rejects x :
  subject (settle pid rejects x) = Rx.complete (subject x).
Proof. reflexivity. Qed.

(** The stream of callbacks of which only the last may be terminal. *)
Lemma terminal_only_last_stream sure calls :
  terminal_only_last sure calls ->
  terminal_last (concat (map call_outputs calls))
  /\ (sure = true -> one_terminal_last (concat (map call_outputs calls))).
Proof.
  intros (body & last & -> & Hbody & Hlast & Hsure).
  rewrite map_app, concat_app.
  assert (Hb : Forall (fun o => is_terminal o = false)
                 (concat (map call_outputs body))).
  { clear -Hbody. induction Hbody; simpl; [constructor|].
    apply Forall_app. split; auto. }
  destruct Hlast as [->|(t & -> & Ht)].
  - simpl. rewrite app_nil_r. split; [by apply no_terminal_is_last|].
    intros H. by destruct (Hsure H).
  - simpl. assert (one_terminal_last (concat (map call_outputs body) ++ [t]))
      by (eexists _, _; eauto).
    split; [by apply one_terminal_last_is_last|done].
Qed.
End ManagerFacts.

(** ** The session adapter's callbacks *)

Section SessionFacts.
Import Types Spec CopilotSdk.

Lemma tool_event_nonterminal e : nonterminal_call (onToolEvent e).
Proof.
  unfold nonterminal_call. simpl. repeat constructor.
  unfold is_terminal. simpl. by destruct (evType e).
Qed.

Lemma session_event_nonterminal e :
  Forall nonterminal_call (on_session_event e).
Proof.
  destruct e as [[d|]|[c|]|n|n [[|]|] err|n err|t]; simpl;
    repeat constructor; try apply tool_event_nonterminal;
    unfold nonterminal_call; simpl; repeat constructor.
Qed.

Lemma run_steps_nonterminal host root cancelled l :
  Forall nonterminal_call (fst (run_steps host root cancelled l)).
Proof.
  revert cancelled. induction l as [|[e|c|] l IH]; intros cancelled; simpl.
  - constructor.
  - specialize (IH cancelled).
    destruct (run_steps host root cancelled l) as [rest c']. simpl in *.
    apply Forall_app. split; [|done].
    destruct cancelled; [constructor|apply session_event_nonterminal].
  - specialize (IH cancelled).
    destruct (run_steps host root cancelled l) as [rest c']. simpl in *.
    apply Forall_app. split; [|done].
    apply Forall_map, Forall_forall. intros. apply tool_event_nonterminal.
  - apply IH.
Qed.

Lemma run_steps_uncancelled host root l :
  forallb (fun s => negb (is_cancel s)) l = true ->
  snd (run_steps host root false l) = false.
Proof.
  induction l as [|[e|c|] l IH]; simpl; intros H; try done.
  - destruct (run_steps host root false l). auto.
  - destruct (run_steps host root false l). auto.
Qed.

Lemma report_error_shape cancelled e :
  terminal_only_last (negb cancelled) (report_error cancelled e).
Proof.
  exists [], (report_error cancelled e). split; [done|].
  split; [constructor|]. destruct cancelled; simpl.
  - split; [by left|done].
  - split; [right; eauto|done].
Qed.

Lemma terminal_only_last_cons sure c calls :
  nonterminal_call c -> terminal_only_last sure calls ->
  terminal_only_last sure (c :: calls).
Proof.
  intros Hc (body & last & -> & Hb & Hl & Hs).
  exists (c :: body), last. repeat split; auto.
Qed.

Lemma terminal_only_last_weaken sure sure' calls :
  (sure' = true -> sure = true) ->
  terminal_only_last sure calls -> terminal_only_last sure' calls.
Proof.
  intros Hi (body & last & -> & Hb & Hl & Hs).
  exists body, last. repeat split; auto.
Qed.

Lemma status_nonterminal d : nonterminal_call (onOutput (plain Types.status d)).
Proof. unfold nonterminal_call. simpl. by repeat constructor. Qed.

Lemma session_part_shape host env task :
  terminal_only_last (uncancelled env) (session_part host env task).
Proof.
  unfold session_part, uncancelled.
  destruct (createSession env) as [[]|e].
  - pose proof (run_steps_nonterminal host (projectPath task)
                  (cancelledDuringSetup env) (steps env)) as Hnt.
    pose proof (run_steps_uncancelled host (projectPath task) (steps env)) as Hun.
    destruct (run_steps host (projectPath task) (cancelledDuringSetup env)
                (steps env)) as [calls cancelled] eqn:E. simpl in Hnt.
    apply terminal_only_last_cons; [apply status_nonterminal|].
    eexists calls, _. split; [reflexivity|]. split; [done|].
    assert (Hc : negb (cancelledDuringSetup env)
                 && forallb (fun s => negb (is_cancel s)) (steps env) = true
                 -> cancelled = false).
    { intros H. apply andb_prop in H as [H1 H2].
      apply negb_true_iff in H1. rewrite H1 in E. rewrite E in Hun. auto. }
    destruct (sendAndWait env) as [[]|e]; destruct cancelled; simpl;
      (split; [first [by left | right; eauto]|]);
      intros H; try done; by specialize (Hc H).
  - eapply terminal_only_last_weaken; [|apply report_error_shape].
    intros H. apply andb_prop in H as [H _]. done.
Qed.

(** Of the callbacks [executeSdk] makes after it returned, only the last
    can carry a terminal output, and it does when nobody cancels. *)
Lemma executeSdk_async_shape host env task :
  terminal_only_last (uncancelled env)
    (asyncCalls (executeSdk host env task)).
Proof.
  unfold executeSdk. destruct (clientStarted env); simpl.
  - apply session_part_shape.
  - destruct (startClient env) as [[]|e].
    + apply terminal_only_last_cons; [apply status_nonterminal|].
      apply session_part_shape.
    + eapply terminal_only_last_weaken; [|apply report_error_shape].
      unfold uncancelled. intros H. apply andb_prop in H as [H _]. done.
Qed.
End SessionFacts.

(* ===================================================================== *)
(** * The properties of the specification *)
(* ===================================================================== *)

(** ** Executions and their streams *)

Section Executions.
Import Types Spec AgentManager.

(** C1, as the code has it.  For an execution started by
    [AgentManager.executeTask] with a one-shot adapter or with the session
    adapter, the stream delivered to the subscriber never has an event
    after a terminal one ([complete] or [error]); and when the execution
    comes to an end of its own (the child process closes or fails, or the
    session is not cancelled) the stream is closed and holds exactly one
    terminal event, its last. *)
Theorem C1_terminal_event_is_last m agent a ends task pid now x :
  Registered a ends ->
  adapters m !! agent = Some a ->
  run m agent task pid now = Ok x ->
  terminal_last (Rx.delivered (subject x))
  /\ (ends task = true ->
      is_Some (Rx.closing (subject x))
      /\ one_terminal_last (Rx.delivered (subject x))).
Proof.
  intros Hreg Ha. unfold run, executeTask. rewrite Ha.
  destruct Hreg as [a Hnone|host env echo].
  - rewrite Hnone. destruct (execute a task) as [e|events].
    + intros [= <-]. simpl. split; [|done]. intros [|? ?] ? ? ?; done.
    + intros [= <-]. unfold finish.
      match goal with
      | |- context [foldl _ ?x0 events] =>
          pose proof (child_events_stream
                        (finalProcessId agent task pid now) events x0
                        eq_refl eq_refl (Forall_nil_2 _)) as H
      end.
      simpl in H. destruct (existsb is_closing events).
      * destruct H as [Hc H1]. split; [by apply one_terminal_last_is_last|auto].
      * destruct H as [Hc Hn]. split; [by apply no_terminal_is_last|done].
  - simpl executeSdk. cbv beta iota.
    intros [= <-]. unfold finish. rewrite settle_subject.
    pose proof (executeSdk_async_shape host (env task) task) as Hshape.
    apply terminal_only_last_stream in Hshape as [Hlast Hone].
    match goal with
    | |- context [foldl _ ?x0 (asyncCalls _)] =>
        assert (Hopen : Rx.closing (subject x0) = None
                        /\ Rx.observed (subject x0) = true
                        /\ Rx.delivered (subject x0) = []);
        [|destruct Hopen as (Hc & Ho & Hd);
          destruct (calls_stream (finalProcessId agent task pid now)
                      (asyncCalls (CopilotSdk.executeSdk host (env task) task))
                      x0 Hc Ho) as (Hc' & Ho' & Hd')]
    end.
    { unfold CopilotSdk.executeSdk. destruct (CopilotSdk.clientStarted (env task)); done. }
    rewrite Hd in Hd'. simpl in Hd'.
    unfold Rx.complete, Rx.close. rewrite Hc'. simpl. rewrite Hd'.
    split; [done|]. intros H. split; [eauto|auto].
Qed.
End Executions.
Section ExecutionClaims.
Import Types Spec AgentManager Samples.

Lemma no_terminal_not_one l :
  forallb (fun o => negb (is_terminal o)) l = true -> ~ one_terminal_last l.
Proof.
  intros H (pre & t & -> & Ht & _).
  rewrite forallb_app in H. apply andb_prop in H as [_ H]. simpl in H.
  rewrite Ht in H. done.
Qed.

(** C1, witness: a child process that prints and exits. *)
Lemma C1_terminal_event_is_last_witness :
  exists x,
    run (manager_with (one_shot (fun _ => prints [str "hello"] 0)))
      (str "github-copilot") prompt_1 (Some (str "p1")) 0 = Ok x
    /\ terminal_last (Rx.delivered (subject x))
    /\ one_terminal_last (Rx.delivered (subject x)).
Proof.
  eexists. split; [reflexivity|].
  destruct (C1_terminal_event_is_last
              (manager_with (one_shot (fun _ => prints [str "hello"] 0)))
              (str "github-copilot") _ _ prompt_1 (Some (str "p1")) 0 _
              (one_shot_adapter (one_shot (fun _ => prints [str "hello"] 0))
                 eq_refl)
              eq_refl eq_refl) as [H1 H2].
  split; [exact H1|]. exact (proj2 (H2 eq_refl)).
Defined.

(** C1, as stated, fails: a session execution on which [cancel] is called
    ends its stream, which is closed by [complete()], without any terminal
    event in it. *)
Lemma C1_cancelled_session_has_no_terminal_event :
  exists x,
    run (manager_with (sdk_adapter cancelled_session))
      (str "github-copilot-sdk") prompt_1 (Some (str "p1")) 0 = Ok x
    /\ Rx.closing (subject x) = Some Rx.Completed
    /\ ~ one_terminal_last (Rx.delivered (subject x)).
Proof.
  eexists. split; [reflexivity|]. split; [vm_compute; reflexivity|].
  apply no_terminal_not_one. vm_compute. reflexivity.
Qed.

(** C5, as the code has it.  For every tracked execution, whatever its
    status, [stopExecution] returns without raising unless the session's
    [cancel] callback rejects, and the tracked status is [stopped]
    afterwards, the other executions being left as they were. *)
Theorem C5_stop_sets_stopped m processId info cancel :
  runningProcesses m !! processId = Some info ->
  (handle info = cancel_handle -> cancel = Ok ()) ->
  exists m',
    stopExecution m processId cancel = Ok m'
    /\ getExecutionStatus m' processId = Some stopped
    /\ forall other, other <> processId ->
         runningProcesses m' !! other = runningProcesses m !! other.
Proof.
  intros Hin Hcancel. unfold stopExecution. rewrite Hin.
  exists (set_status processId stopped m). split.
  - destruct (handle info); [done|]. by rewrite Hcancel.
  - unfold getExecutionStatus, set_status. simpl. split.
    + rewrite lookup_alter_eq, Hin. done.
    + intros other Hne. by rewrite lookup_alter_ne.
Qed.

(** C5, witness: the execution of a child process that exited with 0. *)
Lemma C5_stop_sets_stopped_witness :
  exists m',
    stopExecution
      (track (str "p1")
         (mkRunning process_handle (str "github-copilot") (str "1") completed)
         (manager_with (one_shot (fun _ => prints [] 0))))
      (str "p1") (Ok ()) = Ok m'
    /\ getExecutionStatus m' (str "p1") = Some stopped
    /\ forall other, other <> str "p1" ->
         runningProcesses m' !! other
         = runningProcesses
             (track (str "p1")
                (mkRunning process_handle (str "github-copilot") (str "1")
                   completed)
                (manager_with (one_shot (fun _ => prints [] 0)))) !! other.
Proof.
  apply (C5_stop_sets_stopped _ (str "p1")
           (mkRunning process_handle (str "github-copilot") (str "1") completed)
           (Ok ())).
  - reflexivity.
  - reflexivity.
Defined.

(** C5, as stated, fails: an execution that has completed is tracked as
    [completed], and [stopExecution] turns that into [stopped]. *)
Lemma C5_stop_overrides_completed :
  exists x m',
    run (manager_with (one_shot (fun _ => prints [] 0)))
      (str "github-copilot") prompt_1 (Some (str "p1")) 0 = Ok x
    /\ getExecutionStatus (manager x) (str "p1") = Some completed
    /\ stopExecution (manager x) (str "p1") (Ok ()) = Ok m'
    /\ getExecutionStatus m' (str "p1") <> Some completed.
Proof.
  eexists _, _. split; [reflexivity|]. split; [vm_compute; reflexivity|].
  split; [reflexivity|]. vm_compute. discriminate.
Qed.

(** The listeners of the child process before it closes or fails: the
    data it prints reaches the subscriber as it comes. *)
Lemma child_data_stream pid events x :
  existsb is_closing events = false ->
  Rx.closing (subject x) = None -> Rx.observed (subject x) = true ->
  let s := subject (foldl (fun acc ev => on_child_event pid ev acc) x events) in
  Rx.closing s = None /\ Rx.observed s = true
  /\ Rx.delivered s = Rx.delivered (subject x) ++ omap output_of_data events.
Proof.
  revert x. induction events as [|ev events IH]; intros x Hev Hc Ho.
  - simpl. by rewrite app_nil_r.
  - destruct ev as [d|d|code|msg]; simpl in Hev; try done.
    + destruct (next_open (plain stdout d) (subject x) Hc Ho) as (Hc' & Ho' & Hd).
      destruct (IH (emit (plain stdout d) x) Hev Hc' Ho') as (? & ? & E).
      cbn [foldl omap list_omap output_of_data].
      change (on_child_event pid (stdout_data d) x) with (emit (plain stdout d) x).
      repeat split; auto. rewrite E. cbn [subject emit].
      rewrite Hd, <- app_assoc. done.
    + destruct (next_open (plain stderr d) (subject x) Hc Ho) as (Hc' & Ho' & Hd).
      destruct (IH (emit (plain stderr d) x) Hev Hc' Ho') as (? & ? & E).
      cbn [foldl omap list_omap output_of_data].
      change (on_child_event pid (stderr_data d) x) with (emit (plain stderr d) x).
      repeat split; auto. rewrite E. cbn [subject emit].
      rewrite Hd, <- app_assoc. done.
Qed.

(** The stream of a child process that fails: what it printed, the
    [error] event, and the error that closes the stream. *)
Lemma child_error_stream m agent a task pid now pre msg post :
  adapters m !! agent = Some a -> executeSdk a = None ->
  execute a task = spawned (pre ++ error_event msg :: post) ->
  existsb is_closing pre = false ->
  exists x,
    run m agent task pid now = Ok x
    /\ Rx.delivered (subject x)
       = omap output_of_data pre ++ [plain Types.error msg]
    /\ Rx.closing (subject x) = Some (Rx.Failed (ErrorObj msg)).
Proof.
  intros Ha Hnone Hex Hpre. unfold run, executeTask.
  rewrite Ha, Hnone, Hex. eexists. split; [reflexivity|].
  unfold finish. rewrite foldl_app.
  match goal with
  | |- context [foldl _ ?x0 pre] =>
      destruct (child_data_stream (finalProcessId agent task pid now) pre x0
                  Hpre eq_refl eq_refl) as (Hc & Ho & Hd);
      set (X := foldl _ x0 pre) in *
  end.
  cbn [foldl]. rewrite child_events_closed;
    cbn [on_child_event subject]; unfold Rx.error, Rx.close, Rx.next;
    rewrite Hc, ?Ho; cbn [Rx.closing Rx.delivered]; rewrite ?Hd; eauto.
Qed.

(** The runtime failure the orchestrator does record as [failed]: for
    every one-shot execution whose child process emits an [error] event
    before it closes, the stream delivered ends with an [error] event and
    is closed by that error, and the orchestrator records the task as
    [failed]. *)
Lemma child_error_fails_task m w task options a pre msg post :
  adapters m !! PhaseOrchestrator.optAgentId options = Some a ->
  executeSdk a = None ->
  execute a (PhaseOrchestrator.taskPrompt_of options task)
    = spawned (pre ++ error_event msg :: post) ->
  existsb is_closing pre = false ->
  exists x r,
    run m (PhaseOrchestrator.optAgentId options)
      (PhaseOrchestrator.taskPrompt_of options task)
      (Some (PhaseOrchestrator.processId_of options task
               (PhaseOrchestrator.startedAt w task)))
      (PhaseOrchestrator.startedAt w task) = Ok x
    /\ Rx.delivered (subject x)
       = omap output_of_data pre ++ [plain Types.error msg]
    /\ Rx.closing (subject x) = Some (Rx.Failed (ErrorObj msg))
    /\ fst (fst (PhaseOrchestrator.executeTask m w task options))
       = PhaseOrchestrator.Resolved r
    /\ PhaseOrchestrator.status r = PhaseOrchestrator.failed.
Proof.
  intros Ha Hnone Hex Hpre.
  destruct (child_error_stream m _ a _
              (Some (PhaseOrchestrator.processId_of options task
                       (PhaseOrchestrator.startedAt w task)))
              (PhaseOrchestrator.startedAt w task) pre msg post
              Ha Hnone Hex Hpre) as (x & Hrun & Hd & Hc).
  exists x. eexists. split; [exact Hrun|]. split; [exact Hd|].
  split; [exact Hc|].
  unfold PhaseOrchestrator.executeTask. rewrite Hrun, Hc. simpl.
  split; reflexivity.
Qed.

(** For instance, a child process that prints a line and then fails. *)
Lemma child_error_fails_task_example :
  exists x r,
    run (manager_with
           (one_shot (fun _ => spawned [stdout_data (str "working");
                                        error_event (str "spawn EACCES");
                                        close_event (Some (-13)%Z)])))
      (str "github-copilot")
      (PhaseOrchestrator.taskPrompt_of options_cli task_A)
      (Some (PhaseOrchestrator.processId_of options_cli task_A 1000)) 1000
    = Ok x
    /\ Rx.delivered (subject x)
       = [plain stdout (str "working"); plain Types.error (str "spawn EACCES")]
    /\ Rx.closing (subject x) = Some (Rx.Failed (ErrorObj (str "spawn EACCES")))
    /\ fst (fst (PhaseOrchestrator.executeTask
                   (manager_with
                      (one_shot (fun _ => spawned [stdout_data (str "working");
                                                   error_event (str "spawn EACCES");
                                                   close_event (Some (-13)%Z)])))
                   (world_of [task_A] (fun _ => false)) task_A options_cli))
       = PhaseOrchestrator.Resolved r
    /\ PhaseOrchestrator.status r = PhaseOrchestrator.failed.
Proof.
  apply (child_error_fails_task
           (manager_with
              (one_shot (fun _ => spawned [stdout_data (str "working");
                                           error_event (str "spawn EACCES");
                                           close_event (Some (-13)%Z)])))
           (world_of [task_A] (fun _ => false)) task_A options_cli
           (one_shot (fun _ => spawned [stdout_data (str "working");
                                        error_event (str "spawn EACCES");
                                        close_event (Some (-13)%Z)]))
           [stdout_data (str "working")] (str "spawn EACCES")
           [close_event (Some (-13)%Z)]).
  - reflexivity.
  - reflexivity.
  - reflexivity.
  - reflexivity.
Defined.

(** C6, the code at two failing inputs.  A child process that exits with
    code 1 ends its stream with a [complete] event and the stream
    completes: the [close] listener records the execution as [failed] in
    the registry, and the orchestrator records the task as [completed].
    A session whose request fails ends its stream with an [error] event,
    but the stream completes as well: the registry has [failed], the
    orchestrator [completed]. *)
Theorem C6_runtime_failure_is_recorded_completed :
  (exists x r,
     run (manager_with (one_shot (fun _ => prints [str "npm ERR!"] 1)))
       (str "github-copilot")
       (PhaseOrchestrator.taskPrompt_of options_cli task_A)
       (Some (PhaseOrchestrator.processId_of options_cli task_A 1000)) 1000
     = Ok x
     /\ Rx.delivered (subject x)
        = [plain stdout (str "npm ERR!");
           plain complete (str "Process exited with code: 1")]
     /\ Rx.closing (subject x) = Some Rx.Completed
     /\ getExecutionStatus (manager x)
          (PhaseOrchestrator.processId_of options_cli task_A 1000)
        = Some failed
     /\ fst (fst (PhaseOrchestrator.executeTask
                    (manager_with (one_shot (fun _ => prints [str "npm ERR!"] 1)))
                    (world_of [task_A] (fun _ => false)) task_A options_cli))
        = PhaseOrchestrator.Resolved r
     /\ PhaseOrchestrator.status r = PhaseOrchestrator.completed)
  /\ (exists x r,
        run (manager_with (sdk_adapter timed_out_session))
          (str "github-copilot-sdk")
          (PhaseOrchestrator.taskPrompt_of
             (PhaseOrchestrator.mkOptions 7 1 (str "github-copilot-sdk")
                (str "/work/app")) task_A)
          (Some (PhaseOrchestrator.processId_of
                   (PhaseOrchestrator.mkOptions 7 1 (str "github-copilot-sdk")
                      (str "/work/app")) task_A 1000)) 1000
        = Ok x
        /\ Rx.delivered (subject x)
           = [plain Types.status (str "Starting task: A");
              plain stdout (str "Working");
              plain Types.error (str "Request timed out")]
        /\ Rx.closing (subject x) = Some Rx.Completed
        /\ getExecutionStatus (manager x)
             (PhaseOrchestrator.processId_of
                (PhaseOrchestrator.mkOptions 7 1 (str "github-copilot-sdk")
                   (str "/work/app")) task_A 1000)
           = Some failed
        /\ fst (fst (PhaseOrchestrator.executeTask
                       (manager_with (sdk_adapter timed_out_session))
                       (world_of [task_A] (fun _ => false)) task_A
                       (PhaseOrchestrator.mkOptions 7 1
                          (str "github-copilot-sdk") (str "/work/app"))))
           = PhaseOrchestrator.Resolved r
        /\ PhaseOrchestrator.status r = PhaseOrchestrator.completed).
Proof.
  split.
  - eexists _, _. split; [reflexivity|].
    repeat (split; [vm_compute; reflexivity|]). vm_compute; reflexivity.
  - eexists _, _. split; [reflexivity|].
    repeat (split; [vm_compute; reflexivity|]). vm_compute; reflexivity.
Qed.

(** The one-shot path emits the "Started ..." status first. *)
Lemma one_shot_heartbeat_first m agent a task pid now events :
  adapters m !! agent = Some a -> executeSdk a = None ->
  execute a task = spawned events ->
  exists x p,
    executeTask m agent task pid now = Ok (x, p)
    /\ Rx.emitted (subject x) = [heartbeat a task].
Proof.
  intros Ha Hnone Hex. unfold executeTask. rewrite Ha, Hnone, Hex.
  eexists _, _. split; reflexivity.
Qed.

(** The session path emits it second: the adapter has already reported
    that it connects, or that it creates the session, when [executeSdk]
    returns. *)
Lemma session_heartbeat_second m agent host env echo task pid now :
  adapters m !! agent = Some (CopilotSdk.adapter host env echo) ->
  exists x p first,
    executeTask m agent task pid now = Ok (x, p)
    /\ Rx.emitted (subject x)
       = [first; heartbeat (CopilotSdk.adapter host env echo) task]
    /\ (first = plain Types.status (str "Connecting to Copilot SDK...")
        \/ exists text, first = plain Types.status
                                 (str "Creating session with model: " ++ text)).
Proof.
  intros Ha. unfold executeTask. rewrite Ha. simpl.
  unfold CopilotSdk.executeSdk.
  destruct (CopilotSdk.clientStarted (env task)); simpl;
    eexists _, _, _; (split; [reflexivity|]); (split; [reflexivity|]).
  - right. eauto.
  - by left.
Qed.

(** C7, the code at a failing input: with the session adapter and no
    client started yet, the first event emitted on the channel is the
    adapter's "Connecting to Copilot SDK..." status, and the
    "Started ... for task: ..." status comes after it. *)
Theorem C7_session_heartbeat_after_adapter_status :
  exists x p,
    executeTask (manager_with (sdk_adapter plain_session))
      (str "github-copilot-sdk") prompt_1 (Some (str "p1")) 0 = Ok (x, p)
    /\ Rx.emitted (subject x)
       = [plain Types.status (str "Connecting to Copilot SDK...");
          plain Types.status
            (str "Started GitHub Copilot (SDK) for task: Add login")].
Proof. eexists _, _. split; [reflexivity|]. vm_compute. reflexivity. Qed.
End ExecutionClaims.

(** ** Blockers, tasks and phases *)

Section BlockerFacts.
Import Types Spec PhaseOrchestrator.

Lemma blocker_patterns_line_local :
  forallb line_local BLOCKER_PATTERNS = true.
Proof. vm_compute. reflexivity. Qed.

(** A text in which a blocker pattern matches has a line in which a
    blocker pattern matches. *)
Lemma blocker_in_a_line text :
  blocker_in text = true ->
  exists line, line ∈ split_lines text /\ blocker_in line = true.
Proof.
  unfold blocker_in. intros H.
  apply existsb_exists in H as (p & Hp & Ht).
  pose proof blocker_patterns_line_local as Hall.
  rewrite forallb_forall in Hall. specialize (Hall p Hp).
  destruct (line_local_test p text Hall Ht) as (line & Hin & Hl).
  exists line. split; [done|]. apply existsb_exists. eauto.
Qed.

Lemma first_blocker_line_cons l lines :
  first_blocker_line (l :: lines)
  = if blocker_in l then Some l else first_blocker_line lines.
Proof. reflexivity. Qed.

Lemma first_blocker_line_found lines :
  (exists line, line ∈ lines /\ blocker_in line = true) ->
  exists before line after,
    lines = before ++ line :: after
    /\ Forall (fun l => blocker_in l = false) before
    /\ blocker_in line = true
    /\ first_blocker_line lines = Some line.
Proof.
  induction lines as [|l lines IH]; intros (line & Hin & Hb).
  - by apply elem_of_nil in Hin.
  - rewrite first_blocker_line_cons. destruct (blocker_in l) eqn:El.
    + exists [], l, lines. repeat split; auto.
    + apply elem_of_cons in Hin as [->|Hin]; [congruence|].
      destruct IH as (before & line' & after & -> & Hf & Hl & E); [eauto|].
      exists (l :: before), line', after. repeat split; auto.
Qed.

(** The reason is taken from the first line a pattern matches in. *)
Lemma extractBlockerReason_first_line text :
  blocker_in text = true ->
  exists before line after,
    split_lines text = before ++ line :: after
    /\ Forall (fun l => blocker_in l = false) before
    /\ blocker_in line = true
    /\ extractBlockerReason text = slice_to 200 (trim line).
Proof.
  intros H. apply blocker_in_a_line in H.
  destruct (first_blocker_line_found _ H) as (before & line & after & E & Hf & Hl & Hfirst).
  exists before, line, after. repeat split; auto.
  unfold extractBlockerReason. by rewrite Hfirst.
Qed.

Lemma on_next_detected r o :
  blockerDetected r = true ->
  blockerDetected (on_next r o) = true
  /\ runBlockerReason (on_next r o) = runBlockerReason r.
Proof. intros H. unfold on_next. rewrite H. done. Qed.

Lemma fold_detected l r :
  blockerDetected r = true ->
  blockerDetected (foldl on_next r l) = true
  /\ runBlockerReason (foldl on_next r l) = runBlockerReason r.
Proof.
  revert r. induction l as [|o l IH]; intros r H; simpl; [done|].
  destruct (on_next_detected r o H) as [H1 H2].
  destruct (IH _ H1) as [H3 H4]. split; [done|]. congruence.
Qed.

Lemma fold_undetected l r :
  blockerDetected r = false ->
  Forall (fun o => blocker_in (data o) = false) l ->
  blockerDetected (foldl on_next r l) = false.
Proof.
  revert r. induction l as [|o l IH]; intros r H Hl; simpl; [done|].
  inversion Hl as [|? ? Ho Hl']; subst. apply IH; [|done].
  unfold on_next, detectBlocker. fold (blocker_in (data o)).
  rewrite H, Ho. done.
Qed.

(** The first chunk a pattern matches in decides the reason, whatever
    comes after it. *)
Lemma fold_first_blocker pre o post :
  Forall (fun c => blocker_in (data c) = false) pre ->
  blocker_in (data o) = true ->
  let r := foldl on_next (mkTaskRun [] false None) (pre ++ o :: post) in
  blockerDetected r = true
  /\ runBlockerReason r = Some (extractBlockerReason (data o)).
Proof.
  intros Hpre Ho. simpl. rewrite foldl_app. simpl.
  pose proof (fold_undetected pre (mkTaskRun [] false None) eq_refl Hpre) as Hu.
  set (r0 := foldl on_next _ pre) in *.
  assert (H1 : blockerDetected (on_next r0 o) = true
               /\ runBlockerReason (on_next r0 o)
                  = Some (extractBlockerReason (data o))).
  { unfold on_next, detectBlocker. fold (blocker_in (data o)).
    rewrite Hu, Ho. done. }
  destruct H1 as [H1 H2].
  destruct (fold_detected post _ H1) as [H3 H4]. split; [done|]. congruence.
Qed.
End BlockerFacts.

Section TaskFacts.
Import Types Spec PhaseOrchestrator.
Variables (m : AgentManager.Manager) (w : World) (task : Task)
          (options : PhaseExecutionOptions).

Let run_of :=
  AgentManager.run m (optAgentId options) (taskPrompt_of options task)
    (Some (processId_of options task (startedAt w task))) (startedAt w task).

(** A task whose stream completes with a blocker in it. *)
Lemma executeTask_blocked x pre o post :
  run_of = Ok x ->
  Rx.closing (AgentManager.subject x) = Some Rx.Completed ->
  Rx.delivered (AgentManager.subject x) = pre ++ o :: post ->
  Forall (fun c => blocker_in (data c) = false) pre ->
  blocker_in (data o) = true ->
  exists r effects,
    executeTask m w task options = (Resolved r, AgentManager.manager x, effects)
    /\ status r = blocked
    /\ blockerReason r = Some (extractBlockerReason (data o))
    /\ resTaskId r = taskId task.
Proof.
  intros Hrun Hc Hd Hpre Ho. unfold executeTask. fold run_of.
  rewrite Hrun, Hc. unfold result_of. rewrite Hd.
  destruct (fold_first_blocker pre o post Hpre Ho) as [H1 H2].
  simpl in H1, H2. rewrite H1. eexists _, _. split; [reflexivity|].
  simpl. auto.
Qed.

(** A task whose stream completes without any. *)
Lemma executeTask_completed x :
  run_of = Ok x ->
  Rx.closing (AgentManager.subject x) = Some Rx.Completed ->
  Forall (fun c => blocker_in (data c) = false)
    (Rx.delivered (AgentManager.subject x)) ->
  exists r effects,
    executeTask m w task options = (Resolved r, AgentManager.manager x, effects)
    /\ status r = completed
    /\ resTaskId r = taskId task.
Proof.
  intros Hrun Hc Hd. unfold executeTask. fold run_of.
  rewrite Hrun, Hc. unfold result_of.
  rewrite (fold_undetected _ (mkTaskRun [] false None) eq_refl Hd).
  eexists _, _. split; [reflexivity|]. simpl. auto.
Qed.

(** A task that was executed is never recorded as skipped. *)
Lemma executeTask_not_skipped r m' effects :
  executeTask m w task options = (Resolved r, m', effects) ->
  status r <> skipped.
Proof.
  unfold executeTask. fold run_of. destruct run_of as [x|e]; [|done].
  destruct (Rx.closing (AgentManager.subject x)) as [c|]; [|done].
  unfold result_of. destruct c as [|e].
  - destruct (blockerDetected _); intros [= <- _ _]; done.
  - intros [= <- _ _]. done.
Qed.
End TaskFacts.

Section PhaseFacts.
Import Types Spec PhaseOrchestrator Samples.

(** C2, as the code has it.  For every task whose stream completes and
    has a chunk in which a blocker pattern matches, the result is
    [blocked]; the reason is the first line of the first such chunk in
    which a pattern matches, trimmed and cut to 200 code units, whatever
    the later chunks hold; and the task loop ends with this task: the
    tasks after it are not executed and get no result. *)
Theorem C2_first_blocker_decides m w task options x pre o post :
  AgentManager.run m (optAgentId options) (taskPrompt_of options task)
    (Some (processId_of options task (startedAt w task))) (startedAt w task)
  = Ok x ->
  Rx.closing (AgentManager.subject x) = Some Rx.Completed ->
  Rx.delivered (AgentManager.subject x) = pre ++ o :: post ->
  Forall (fun c => blocker_in (data c) = false) pre ->
  blocker_in (data o) = true ->
  exists r before line after,
    fst (fst (executeTask m w task options)) = Resolved r
    /\ status r = blocked
    /\ split_lines (data o) = before ++ line :: after
    /\ Forall (fun l => blocker_in l = false) before
    /\ blocker_in line = true
    /\ blockerReason r = Some (slice_to 200 (trim line))
    /\ forall rest l,
         loopStop l = false -> loopManager l = m ->
         exists l',
           run_tasks w options (task :: rest) l = loop_done l'
           /\ loopResults l' = loopResults l ++ [r]
           /\ loopManager l' = AgentManager.manager x
           /\ run_tasks w options (task :: rest) l
              = run_tasks w options [task] l.
Proof.
  intros Hrun Hc Hd Hpre Ho.
  destruct (executeTask_blocked m w task options x pre o post
              Hrun Hc Hd Hpre Ho) as (r & effects & Hex & Hs & Hr & _).
  destruct (extractBlockerReason_first_line (data o) Ho)
    as (before & line & after & Hlines & Hbefore & Hline & Hreason).
  exists r, before, line, after. rewrite Hex. simpl.
  split; [done|]. split; [done|]. split; [done|]. split; [done|].
  split; [done|]. split; [by rewrite Hr, Hreason|].
  intros rest l Hstop <-. simpl. rewrite Hstop, Hex, Hs.
  eexists. split; [reflexivity|]. simpl. done.
Qed.

(** C2, witness: the chunks "ok", "BLOCKED: missing API key", "more". *)
Lemma C2_first_blocker_decides_witness :
  exists x r before line after,
    AgentManager.run blocker_manager (str "github-copilot")
      (taskPrompt_of options_cli task_A)
      (Some (processId_of options_cli task_A 1000)) 1000 = Ok x
    /\ fst (fst (executeTask blocker_manager
                   (world_of [task_A; task_B] (fun _ => false))
                   task_A options_cli)) = Resolved r
    /\ status r = blocked
    /\ split_lines (str "BLOCKED: missing API key") = before ++ line :: after
    /\ Forall (fun l => blocker_in l = false) before
    /\ blocker_in line = true
    /\ blockerReason r = Some (slice_to 200 (trim line))
    /\ forall rest l,
         loopStop l = false -> loopManager l = blocker_manager ->
         exists l',
           run_tasks (world_of [task_A; task_B] (fun _ => false)) options_cli
             (task_A :: rest) l = loop_done l'
           /\ loopResults l' = loopResults l ++ [r]
           /\ loopManager l' = AgentManager.manager x
           /\ run_tasks (world_of [task_A; task_B] (fun _ => false)) options_cli
                (task_A :: rest) l
              = run_tasks (world_of [task_A; task_B] (fun _ => false))
                  options_cli [task_A] l.
Proof.
  eexists.
  assert (Hpre : Forall (fun c => blocker_in (data c) = false)
                   [plain stdout (str "ok")])
    by (constructor; [vm_compute; reflexivity|constructor]).
  destruct (C2_first_blocker_decides blocker_manager
              (world_of [task_A; task_B] (fun _ => false)) task_A options_cli _
              [plain stdout (str "ok")]
              (plain stdout (str "BLOCKED: missing API key"))
              [plain stdout (str "more");
               plain complete (str "Process exited with code: 0")]
              eq_refl eq_refl eq_refl
              Hpre eq_refl)
    as (r & before & line & after & H).
  exists r, before, line, after. split; [reflexivity|]. exact H.
Defined.

(** C2, as stated, fails: a task that prints a blocker and whose stream
    then fails is recorded as [failed], without a blocker reason. *)
Lemma C2_blocker_then_stream_error_is_failed :
  exists x r,
    AgentManager.run
      (manager_with
         (one_shot (fun _ => spawned [stdout_data (str "BLOCKED: missing API key");
                                      error_event (str "read ECONNRESET")])))
      (str "github-copilot") (taskPrompt_of options_cli task_A)
      (Some (processId_of options_cli task_A 1000)) 1000 = Ok x
    /\ Exists (fun c => blocker_in (data c) = true)
         (Rx.delivered (AgentManager.subject x))
    /\ fst (fst (executeTask
                   (manager_with
                      (one_shot
                         (fun _ => spawned [stdout_data (str "BLOCKED: missing API key");
                                            error_event (str "read ECONNRESET")])))
                   (world_of [task_A] (fun _ => false)) task_A options_cli))
       = Resolved r
    /\ status r = failed
    /\ blockerReason r = None.
Proof.
  eexists _, _. split; [reflexivity|].
  split; [apply Exists_cons_hd; vm_compute; reflexivity|].
  split; vm_compute; try reflexivity. split; reflexivity.
Qed.
End PhaseFacts.

Section PhaseRuns.
Import Types Spec PhaseOrchestrator Samples.

Lemma starts_with_prefix p s :
  starts_with p s = true -> exists b, s = p ++ b.
Proof.
  revert s. induction p as [|a p IH]; intros s; simpl; [eauto|].
  destruct s as [|c s]; [done|]. intros H. apply andb_prop in H as [H1 H2].
  apply N.eqb_eq in H1 as ->. destruct (IH _ H2) as [b ->]. eauto.
Qed.

Lemma includes_infix p s :
  includes p s = true -> exists a b, s = a ++ p ++ b.
Proof.
  induction s as [|c s IH]; simpl; intros H.
  - rewrite orb_false_r in H. destruct (starts_with_prefix _ _ H) as [b ->].
    exists [], b. done.
  - apply orb_prop in H as [H|H].
    + destruct (starts_with_prefix _ _ H) as [b ->]. exists [], b. done.
    + destruct (IH H) as (a & b & ->). exists (c :: a), b. done.
Qed.

(** A text in which an unanchored pattern matches still matches inside a
    longer text. *)
Lemma test_infix_mono re s a b :
  Regex.anchorStart re = false -> Regex.anchorEnd re = false ->
  Regex.test re s = true -> Regex.test re (a ++ s ++ b) = true.
Proof.
  intros Ha He H.
  apply (test_iff_infix re s Ha He) in H as (pre & t & post & -> & HM).
  apply (test_iff_infix re _ Ha He).
  exists (a ++ pre), t, (post ++ b). split; [|done].
  by rewrite <- !app_assoc.
Qed.

(** The phrase of the end-to-end scenario is a blocker. *)
Lemma credentials_phrase_is_blocker text :
  includes (str "cannot proceed without credentials") text = true ->
  blocker_in text = true.
Proof.
  intros H. destruct (includes_infix _ _ H) as (a & b & ->).
  unfold blocker_in. apply existsb_exists.
  exists (Regex.literal (str "cannot proceed") true).
  split; [unfold BLOCKER_PATTERNS; auto 10 using in_eq, in_cons|].
  change (str "cannot proceed without credentials")
    with (str "cannot proceed" ++ str " without credentials").
  rewrite <- (app_assoc (str "cannot proceed")).
  apply test_infix_mono; vm_compute; reflexivity.
Qed.

Lemma first_blocker_chunk (l : list AgentOutput) :
  Exists (fun c => blocker_in (data c) = true) l ->
  exists pre o post,
    l = pre ++ o :: post
    /\ Forall (fun c => blocker_in (data c) = false) pre
    /\ blocker_in (data o) = true.
Proof.
  induction l as [|c l IH]; intros H; [by inversion H|].
  destruct (blocker_in (data c)) eqn:E.
  - exists [], c, l. auto.
  - inversion H as [? ? Hc|? ? Hl]; subst; [congruence|].
    destruct (IH Hl) as (pre & o & post & -> & Hpre & Ho).
    exists (c :: pre), o, post. auto.
Qed.

Lemma filter_pending_all (l : list Task) :
  Forall (fun t => is_pending t = true) l -> List.filter is_pending l = l.
Proof.
  induction 1 as [|t l Ht _ IH]; simpl; [done|]. by rewrite Ht, IH.
Qed.

(** C3, as the code has it.  In a phase with the pending tasks A, B and C,
    in which no stop is asked for before B runs, A's stream completes
    without blocker, and B's stream completes after a chunk in which a
    blocker pattern matches, as one does in a chunk that holds "cannot
    proceed without credentials": [executePhase] returns one completed and
    one blocked task, no skipped one, and its results are those of A and
    B only. *)
Theorem C3_blocker_halts_phase o m w options A B C xA xB :
  isRunning o = false ->
  syncContext w = Ok () ->
  fetchTasksByPhase w = Ok [A; B; C] ->
  is_pending A = true -> is_pending B = true -> is_pending C = true ->
  stopRequestedEarly w = false ->
  stopRequestedDuring w A = false ->
  AgentManager.run m (optAgentId options) (taskPrompt_of options A)
    (Some (processId_of options A (startedAt w A))) (startedAt w A) = Ok xA ->
  Rx.closing (AgentManager.subject xA) = Some Rx.Completed ->
  Forall (fun c => blocker_in (data c) = false)
    (Rx.delivered (AgentManager.subject xA)) ->
  AgentManager.run (AgentManager.manager xA) (optAgentId options)
    (taskPrompt_of options B)
    (Some (processId_of options B (startedAt w B))) (startedAt w B) = Ok xB ->
  Rx.closing (AgentManager.subject xB) = Some Rx.Completed ->
  Exists (fun c => blocker_in (data c) = true)
    (Rx.delivered (AgentManager.subject xB)) ->
  exists r,
    fst (fst (fst (executePhase o m w options))) = Returned r
    /\ tasksCompleted r = 1%nat
    /\ tasksBlocked r = 1%nat
    /\ tasksSkipped r = 0%nat
    /\ map resTaskId (results r) = [taskId A; taskId B]
    /\ map status (results r) = [completed; blocked].
Proof.
  intros Hidle Hsync Hfetch HA HB HC Hearly HstopA
    HrunA HcA HdA HrunB HcB HdB.
  destruct (executeTask_completed m w A options xA HrunA HcA HdA)
    as (rA & effA & HexA & HsA & HidA).
  destruct (first_blocker_chunk _ HdB) as (pre & ob & post & Hd & Hpre & Hob).
  destruct (executeTask_blocked (AgentManager.manager xA) w B options xB
              pre ob post HrunB HcB Hd Hpre Hob)
    as (rB & effB & HexB & HsB & HrB & HidB).
  unfold executePhase. rewrite Hidle, Hsync, Hfetch.
  cbn [List.filter]. rewrite HA, HB, HC.
  cbn [run_tasks loopStop loopManager]. rewrite Hearly.
  rewrite HexA. cbn [loopStop loopManager orb]. rewrite HsA, HstopA.
  rewrite HexB. cbn [loopStop loopManager orb loopResults]. rewrite HsB.
  eexists. split; [reflexivity|].
  cbn [summarize tasksCompleted tasksBlocked tasksSkipped results
         loopResults app map].
  unfold count.
  destruct rA as [ia ta sa ba da oa], rB as [ib tb sb bb db ob'].
  simpl in HsA, HsB, HidA, HidB. subst. done.
Qed.

(** C3, witness: A prints "done", B prints the phrase, C is never run. *)
Lemma C3_blocker_halts_phase_witness :
  exists r,
    fst (fst (fst (executePhase idle credentials_manager
                     (world_of [task_A; task_B; task_C] (fun _ => false))
                     options_cli))) = Returned r
    /\ tasksCompleted r = 1%nat
    /\ tasksBlocked r = 1%nat
    /\ tasksSkipped r = 0%nat
    /\ map resTaskId (results r) = [1%Z; 2%Z]
    /\ map status (results r) = [completed; blocked].
Proof.
  assert (HdA : Forall (fun c => blocker_in (data c) = false)
                  [plain stdout (str "done");
                   plain complete (str "Process exited with code: 0")])
    by (repeat constructor; vm_compute; reflexivity).
  assert (HdB : Exists (fun c => blocker_in (data c) = true)
                  [plain stdout (str "I cannot proceed without credentials.");
                   plain complete (str "Process exited with code: 0")])
    by (apply Exists_cons_hd; apply credentials_phrase_is_blocker;
        vm_compute; reflexivity).
  exact (C3_blocker_halts_phase idle credentials_manager
           (world_of [task_A; task_B; task_C] (fun _ => false)) options_cli
           task_A task_B task_C _ _
           eq_refl eq_refl eq_refl eq_refl eq_refl eq_refl eq_refl eq_refl
           eq_refl eq_refl HdA eq_refl eq_refl HdB).
Defined.

(** C3, as stated, fails: B says "I cannot proceed without credentials."
    and then its child process fails.  The stream of B is ended by the
    error, B is recorded as [failed], not as [blocked], and the phase goes
    on to C. *)
Lemma C3_blocker_then_stream_error_runs_next_task :
  exists r rB,
    fst (fst (fst (executePhase idle broken_pipe_manager
                     (world_of [task_A; task_B; task_C] (fun _ => false))
                     options_cli))) = Returned r
    /\ results r !! 1%nat = Some rB
    /\ includes (str "cannot proceed without credentials") (output rB) = true
    /\ tasksCompleted r = 2%nat
    /\ tasksFailed r = 1%nat
    /\ tasksBlocked r = 0%nat
    /\ tasksSkipped r = 0%nat
    /\ map resTaskId (results r) = [1%Z; 2%Z; 3%Z]
    /\ map status (results r) = [completed; failed; completed].
Proof.
  eexists _, _. split; [vm_compute; reflexivity|].
  split; [reflexivity|]. split; [vm_compute; reflexivity|].
  repeat split.
Qed.
End PhaseRuns.

Section GracefulStop.
Import Types Spec PhaseOrchestrator Samples.
Variables (w : World) (options : PhaseExecutionOptions).

(** Once the stop flag is up, every remaining task is recorded as
    skipped, none is executed. *)
Lemma run_tasks_stopped rest l :
  loopStop l = true ->
  run_tasks w options rest l
  = loop_done (mkLoop true (loopResults l ++ map skipped_result rest)
                 (loopManager l) (loopEffects l) (loopProcessId l)).
Proof.
  revert l. induction rest as [|t rest IH]; intros l Hstop; simpl.
  - rewrite app_nil_r. destruct l; simpl in *; by subst.
  - rewrite Hstop. rewrite IH by done. simpl.
    by rewrite <- app_assoc.
Qed.

(** One turn of the loop that ends neither the phase nor the loop. *)
Lemma run_tasks_step t rest l l1 :
  loopStop l = false ->
  run_tasks w options (t :: rest) l = loop_done l1 ->
  Forall (fun r => status r <> blocked) (loopResults l1) ->
  exists r l',
    ran r
    /\ loopStop l' = stopRequestedDuring w t
    /\ loopResults l' = loopResults l ++ [r]
    /\ run_tasks w options rest l' = loop_done l1.
Proof.
  intros Hstop. simpl. rewrite Hstop.
  destruct (executeTask (loopManager l) w t options) as [[settled m'] effects] eqn:E.
  destruct settled as [r| |]; [|done|done].
  pose proof (executeTask_not_skipped _ _ _ _ _ _ _ E) as Hns.
  destruct (status r) eqn:Hs; try done.
  - intros Hrun _. eexists r, _. split; [by left|]. split; [|split; [|exact Hrun]]; done.
  - intros Hrun _. eexists r, _. split; [by right|]. split; [|split; [|exact Hrun]]; done.
  - intros [= <-] Hall. simpl in Hall.
    apply Forall_app in Hall as [_ Hall]. inversion Hall; subst. done.
Qed.

(** The tasks up to the one during which the stop is asked for are all
    executed, and the flag is up after the last of them. *)
Lemma run_tasks_until_stop before current l l1 :
  loopStop l = false ->
  Forall (fun t => stopRequestedDuring w t = false) before ->
  stopRequestedDuring w current = true ->
  run_tasks w options (before ++ [current]) l = loop_done l1 ->
  Forall (fun r => status r <> blocked) (loopResults l1) ->
  loopStop l1 = true
  /\ exists new,
       loopResults l1 = loopResults l ++ new
       /\ length new = S (length before)
       /\ Forall ran new.
Proof.
  revert l. induction before as [|t before IH]; intros l Hstop Hbefore Hcur Hrun Hall.
  - destruct (run_tasks_step _ _ _ _ Hstop Hrun Hall) as (r & l' & Hr & Hs & Hres & Hend).
    simpl in Hend. injection Hend as <-. split; [congruence|].
    exists [r]. repeat split; auto.
  - inversion Hbefore as [|? ? Ht Hbefore']; subst.
    simpl in Hrun.
    destruct (run_tasks_step _ _ _ _ Hstop Hrun Hall) as (r & l' & Hr & Hs & Hres & Hend).
    rewrite Ht in Hs.
    destruct (IH l' Hs Hbefore' Hcur Hend Hall) as (Hstop1 & new & Hnew & Hlen & Hran).
    split; [done|]. exists (r :: new). rewrite Hnew, Hres, <- app_assoc.
    repeat split; simpl; auto.
Qed.

(** What came before decides what the loop does with the tasks after. *)
Lemma run_tasks_app xs ys l l1 :
  run_tasks w options xs l = loop_done l1 ->
  Forall (fun r => status r <> blocked) (loopResults l1) ->
  run_tasks w options (xs ++ ys) l = run_tasks w options ys l1.
Proof.
  revert l. induction xs as [|t xs IH]; intros l Hrun Hall.
  - simpl in Hrun. by injection Hrun as <-.
  - simpl in *. destruct (loopStop l); [by apply IH|].
    destruct (executeTask (loopManager l) w t options) as [[settled m'] effects].
    destruct settled as [r| |]; [|done|done].
    destruct (status r) eqn:Hs; try (by apply IH).
    injection Hrun as <-. simpl in Hall.
    apply Forall_app in Hall as [_ Hall]. inversion Hall; subst. done.
Qed.

Lemma count_app s (a b : list TaskResult) :
  count s (a ++ b) = (count s a + count s b)%nat.
Proof. unfold count. by rewrite filter_app, length_app. Qed.

Lemma count_skipped_ran l : Forall ran l -> count skipped l = 0%nat.
Proof.
  unfold count. induction 1 as [|r l Hr _ IH]; [done|].
  rewrite filter_cons. destruct (decide _) as [H|_]; [|done].
  destruct Hr as [Hr|Hr]; rewrite Hr in H; done.
Qed.

Lemma count_skipped_skipped (ts : list Task) :
  count skipped (map skipped_result ts) = length ts.
Proof.
  unfold count. induction ts as [|t ts IH]; [done|].
  cbn [map]. rewrite filter_cons. destruct (decide _) as [_|H]; [|done].
  cbn [length]. by rewrite IH.
Qed.
End GracefulStop.

Lemma nonempty_match {A B} (l : list A) (a b : B) :
  l <> [] -> match l with [] => a | _ :: _ => b end = b.
Proof. by destruct l. Qed.

Section GracefulStopClaim.
Import Types Spec PhaseOrchestrator Samples.

(** C4, as the code has it.  In a phase of pending tasks in which
    [stopAfterCurrentTask] is called during the k-th task and not before,
    and in which none of the first k tasks ends blocked, [executePhase]
    returns k results of executed tasks (completed or failed) followed by
    one result per remaining task with status [skipped] and duration 0,
    and [stoppedByUser] is true. *)
Theorem C4_graceful_stop_skips_the_rest o m w options before current rest l1 :
  isRunning o = false ->
  syncContext w = Ok () ->
  fetchTasksByPhase w = Ok (before ++ current :: rest) ->
  Forall (fun t => is_pending t = true) (before ++ current :: rest) ->
  stopRequestedEarly w = false ->
  Forall (fun t => stopRequestedDuring w t = false) before ->
  stopRequestedDuring w current = true ->
  run_tasks w options (before ++ [current]) (mkLoop false [] m [] None)
  = loop_done l1 ->
  Forall (fun r => status r <> blocked) (loopResults l1) ->
  exists r,
    fst (fst (fst (executePhase o m w options))) = Returned r
    /\ results r = loopResults l1 ++ map skipped_result rest
    /\ length (loopResults l1) = S (length before)
    /\ Forall ran (loopResults l1)
    /\ Forall (fun s => status s = skipped /\ duration s = 0)
         (map skipped_result rest)
    /\ tasksSkipped r = length rest
    /\ stoppedByUser r = true.
Proof.
  intros Hidle Hsync Hfetch Hpending Hearly Hbefore Hcur Hrun Hall.
  destruct (run_tasks_until_stop w options before current
              (mkLoop false [] m [] None) l1
              eq_refl Hbefore Hcur Hrun Hall)
    as (Hstop1 & new & Hnew & Hlen & Hran).
  simpl in Hnew. subst new.
  unfold executePhase. rewrite Hidle, Hsync, Hfetch.
  rewrite (filter_pending_all _ Hpending).
  rewrite nonempty_match by (by destruct before).
  rewrite Hearly.
  rewrite (cons_middle current before rest), app_assoc.
  rewrite (run_tasks_app w options _ rest _ l1 Hrun Hall).
  rewrite (run_tasks_stopped w options rest l1 Hstop1).
  eexists. split; [reflexivity|].
  cbn [summarize results tasksSkipped stoppedByUser loopResults loopStop].
  split; [done|]. split; [done|]. split; [done|].
  split; [apply Forall_map, Forall_forall; done|].
  split; [|done].
  by rewrite count_app, (count_skipped_ran _ Hran), count_skipped_skipped.
Qed.

(** C4, witness: three tasks, the stop asked for during the first. *)
Lemma C4_graceful_stop_skips_the_rest_witness :
  exists l1 r,
    run_tasks (world_of [task_A; task_B; task_C] (is_task 1)) options_cli
      [task_A] (mkLoop false [] credentials_manager [] None) = loop_done l1
    /\ fst (fst (fst (executePhase idle credentials_manager
                        (world_of [task_A; task_B; task_C] (is_task 1))
                        options_cli))) = Returned r
    /\ results r = loopResults l1 ++ map skipped_result [task_B; task_C]
    /\ length (loopResults l1) = 1%nat
    /\ Forall ran (loopResults l1)
    /\ Forall (fun s => status s = skipped /\ duration s = 0)
         (map skipped_result [task_B; task_C])
    /\ tasksSkipped r = 2%nat
    /\ stoppedByUser r = true.
Proof.
  eexists.
  assert (Hp : Forall (fun t => is_pending t = true)
                 ([] ++ task_A :: [task_B; task_C]))
    by (repeat constructor).
  assert (Hall : Forall (fun r => status r <> blocked)
                   [mkTaskResult 1 (str "A") completed None 250
                      (str "done" ++ [LF]
                         ++ str "Process exited with code: 0" ++ [LF])])
    by (repeat constructor; discriminate).
  destruct (C4_graceful_stop_skips_the_rest idle credentials_manager
              (world_of [task_A; task_B; task_C] (is_task 1)) options_cli
              [] task_A [task_B; task_C] _
              eq_refl eq_refl eq_refl Hp eq_refl (Forall_nil_2 _) eq_refl
              eq_refl Hall) as (r & H).
  exists r. split; [reflexivity|]. exact H.
Defined.

(** C4, as stated, fails: when the task during which the stop is asked
    for ends blocked, the loop ends there and the remaining task gets no
    result at all, skipped or other. *)
Lemma C4_stop_during_blocked_task_skips_nothing :
  exists r,
    fst (fst (fst (executePhase idle blocker_manager
                     (world_of [task_A; task_B] (is_task 1))
                     options_cli))) = Returned r
    /\ map status (results r) = [blocked]
    /\ tasksSkipped r = 0%nat
    /\ stoppedByUser r = true.
Proof. eexists. split; [vm_compute; reflexivity|]. done. Qed.
End GracefulStopClaim.

(** ** Tools *)

Section ToolClaims.
Import Types Spec CopilotSdk Samples.

(** Ends a case of a handler: the events and the value are computed. *)
Ltac settle_report :=
  simpl; eexists; split; [reflexivity|]; split; reflexivity.

(** C8, the code at a failing input.  The glob [src/**/*.ts] becomes the
    pattern [^src/\.*/[^/]*\.ts$]: the dot of the [.*] put in for [**] is
    escaped by the last replacement, so that [**] stands for a run of
    dots.  The pattern matches none of [src/a/b.ts], [src/a.ts] and
    [src/a/b.tsx], and [find_files] finds nothing in a project that has
    the three files. *)
Theorem C8_globstar_dot_is_escaped :
  glob_to_regex_source (str "src/**/*.ts") = str "src/\.*/[^/]*\.ts"
  /\ exists re,
       glob_regex (str "src/**/*.ts") = Some re
       /\ Regex.test re (str "src/a/b.ts") = false
       /\ Regex.test re (str "src/a.ts") = false
       /\ Regex.test re (str "src/a/b.tsx") = false
       /\ Regex.test re (str "src/../b.ts") = true
       /\ find_files tree_host (str "/work/app") (str "src/**/*.ts") None None
          = ([started (str "find_files"); ended (str "find_files")],
             Ok (mkResult true None (P_find_files [] 0))).
Proof.
  split; [vm_compute; reflexivity|].
  eexists. split; [vm_compute; reflexivity|].
  repeat split; vm_compute; reflexivity.
Qed.

(** The pattern of [stripAnsi], as it is parsed. *)
Lemma ansi_pattern_parsed :
  Regex.items ansi_pattern
  = [(Regex.CsChar 27, Regex.One); (Regex.CsChar 91, Regex.One);
     (Regex.CsClass false [(48, 57); (59, 59)], Regex.Star);
     (Regex.CsChar 109, Regex.One)]
  /\ Regex.ignoreCase ansi_pattern = false
  /\ Regex.anchorEnd ansi_pattern = false.
Proof. vm_compute. done. Qed.

(** [stripAnsi] leaves a text without escape character as it is. *)
Lemma stripAnsi_plain input : 27 ∉ input -> stripAnsi input = input.
Proof.
  intros Hesc. unfold stripAnsi, Regex.replace_all.
  destruct ansi_pattern_parsed as (-> & -> & ->).
  induction input as [|c t IH]; [reflexivity|].
  apply not_elem_of_cons in Hesc as [Hc Ht].
  cbn [Regex.replace_from Regex.match_here Regex.in_set Regex.canonicalize andb].
  destruct (N.eqb_spec 27 c) as [E|_]; [by destruct Hc|].
  f_equal. by apply IH.
Qed.

(** [stripAnsi] drops the colour code for red at the head of a text. *)
Lemma stripAnsi_red t :
  27 ∉ t -> stripAnsi ([27; 91; 51; 49; 109] ++ t) = t.
Proof.
  intros Hesc. rewrite <- (stripAnsi_plain t Hesc) at 2.
  unfold stripAnsi, Regex.replace_all.
  destruct ansi_pattern_parsed as (-> & -> & ->).
  reflexivity.
Qed.

(** C9, as the code has it.  A text of 50,000 code units cut at 20,000 by
    [truncateText] is its first 10,000 code units, the marker, and its
    last 10,000 code units: its length is 20,000 plus that of the marker,
    and the two ends of the input are its prefix and its suffix.
    [safeToolText] gives the same on a text that [stripAnsi] leaves as it
    is, one without colour codes. *)
Theorem C9_truncation_keeps_both_ends input :
  len input = 50000 ->
  let out := truncateText input 20000 in
  let marker := truncation_marker 30000 in
  out = take (N.to_nat 10000) input ++ marker ++ drop (N.to_nat 40000) input
  /\ len out <= 20000 + len marker
  /\ take (N.to_nat 10000) out = take (N.to_nat 10000) input
  /\ drop (length out - N.to_nat 10000) out = drop (N.to_nat 40000) input
  /\ (stripAnsi input = input -> safeToolText input default_maxChars = out).
Proof.
  intros Hlen out marker.
  assert (Hout : out = take (N.to_nat 10000) input ++ marker
                         ++ drop (N.to_nat 40000) input).
  { unfold out. rewrite truncateText_long by lia.
    change (20000 / 2) with 10000. rewrite Hlen.
    unfold len in Hlen. do 3 f_equal. lia. }
  assert (Hl1 : length (take (N.to_nat 10000) input) = N.to_nat 10000).
  { rewrite length_take. unfold len in Hlen. lia. }
  assert (Hl2 : length (drop (N.to_nat 40000) input) = N.to_nat 10000).
  { rewrite length_drop. unfold len in Hlen. lia. }
  split; [exact Hout|]. rewrite Hout. repeat split.
  - unfold len. rewrite !length_app, Hl1, Hl2. lia.
  - rewrite take_app_le by lia. rewrite take_take, Nat.min_id. reflexivity.
  - rewrite !length_app, Hl1, Hl2.
    rewrite app_assoc, drop_app_ge by (rewrite length_app, Hl1; lia).
    rewrite length_app, Hl1.
    replace (_ - _)%nat with 0%nat by lia. done.
  - intros Hplain. unfold safeToolText. rewrite Hplain. exact Hout.
Qed.

(** C9, witness: 50,000 times the letter a. *)
Lemma C9_truncation_keeps_both_ends_witness :
  let input := replicate (N.to_nat 50000) 97 in
  let out := truncateText input 20000 in
  let marker := truncation_marker 30000 in
  len input = 50000
  /\ out = take (N.to_nat 10000) input ++ marker ++ drop (N.to_nat 40000) input
  /\ len out <= 20000 + len marker
  /\ take (N.to_nat 10000) out = take (N.to_nat 10000) input
  /\ drop (length out - N.to_nat 10000) out = drop (N.to_nat 40000) input
  /\ (stripAnsi input = input -> safeToolText input default_maxChars = out).
Proof.
  intros input out marker.
  assert (Hlen : len input = 50000) by (vm_compute; reflexivity).
  split; [exact Hlen|].
  exact (C9_truncation_keeps_both_ends input Hlen).
Defined.

(** C9, as stated, fails for [safeToolText]: the colour codes are taken
    out before the text is cut.  Of a text of 50,000 code units that
    starts with the colour code for red, [safeToolText] keeps the first
    and the last 10,000 code units of what follows the code, and says
    that 29,995 were cut: its first 10,000 code units are not those of the
    input. *)
Lemma C9_colour_codes_are_stripped_before_the_cut :
  len red_text = 50000
  /\ safeToolText red_text default_maxChars
     = replicate (N.to_nat 10000) 97 ++ truncation_marker 29995
         ++ replicate (N.to_nat 10000) 97
  /\ take (N.to_nat 10000) (safeToolText red_text default_maxChars)
     <> take (N.to_nat 10000) red_text.
Proof.
  assert (Hplain : 27 ∉ replicate (N.to_nat 49995) 97).
  { intros [E _]%elem_of_replicate. discriminate E. }
  assert (Hsafe : safeToolText red_text default_maxChars
                  = replicate (N.to_nat 10000) 97 ++ truncation_marker 29995
                      ++ replicate (N.to_nat 10000) 97).
  { unfold safeToolText, red_text. rewrite (stripAnsi_red _ Hplain).
    rewrite truncateText_long
      by (unfold len, default_maxChars; rewrite ?length_replicate; lia).
    unfold len, default_maxChars. rewrite length_replicate.
    change (20000 / 2) with 10000.
    rewrite take_replicate, drop_replicate.
    match goal with
    | |- replicate ?a _ ++ truncation_marker ?z ++ replicate ?b _ = _ =>
        replace a with (N.to_nat 10000) by lia;
        replace z with 29995%Z by lia;
        replace b with (N.to_nat 10000) by lia
    end.
    reflexivity. }
  split; [|split; [exact Hsafe|]].
  - unfold len, red_text. rewrite length_app, length_replicate.
    cbn [length]. lia.
  - rewrite Hsafe. intros H.
    apply (f_equal (fun l => l !! 0%nat)) in H.
    rewrite !lookup_take_lt in H by lia.
    rewrite lookup_app_l in H by (rewrite length_replicate; lia).
    rewrite lookup_replicate_2 in H by lia.
    discriminate H.
Qed.

(** C10, as the code has it.  Every handler of the session's tool
    registry, on every host and for every arguments, returns a value
    instead of throwing, after the event [tool_start] and one more event.
    When a call of the host fails in its [try] block and no inner [try]
    catches the failure, the value has [success: false] and, as [error],
    the message of that failure, and the event is [tool_error] with the
    same message.  Otherwise the value is a success and the event is
    [tool_end]. *)
Theorem C10_handlers_report_failures host root call :
  tool_name call ∈ tool_registry
  /\ well_reported (tool_name call) (handler host root call)
  /\ match first_failure host root call with
     | Some e => reports_failure call e (handler host root call)
     | None => reports_success call (handler host root call)
     end.
Proof.
  split; [|split].
  - destruct call; unfold tool_registry; simpl;
      repeat first [apply list_elem_of_here | apply list_elem_of_further].
  - destruct call; simpl.
    + apply edit_file_reported.
    + apply read_file_reported.
    + apply run_command_reported.
    + apply list_files_reported.
    + apply delete_file_reported.
    + apply search_code_reported.
    + apply find_files_reported.
    + apply apply_patch_reported.
    + apply collab_web_search_reported.
    + apply web_fetch_reported.
    + apply todo_write_reported.
  - unfold reports_failure, reports_success.
    destruct call; cbn [handler first_failure tool_name returned_error].
    + unfold edit_file. destruct (default true createDirectories).
      * destruct (fs_mkdir host _) as [[]|e]; [|settle_report].
        cbn [thrown_then].
        destruct (fs_writeFile host _ _) as [[]|e]; settle_report.
      * destruct (fs_writeFile host _ _) as [[]|e]; settle_report.
    + unfold read_file. destruct (fs_readFile host _) as [content|e];
        settle_report.
    + unfold run_command. destruct (execAsync host _) as [out err|m out err code];
        settle_report.
    + unfold list_files. destruct (listFilesRecursive host _ _ _) as [files|e];
        settle_report.
    + unfold delete_file. destruct (fs_unlink host _) as [[]|e]; settle_report.
    + unfold search_code.
      destruct (execAsync host _) as [out err|m out err code]; [settle_report|].
      destruct (new_RegExp host _ _) as [regex|e]; [|settle_report].
      cbn [thrown_then default].
      destruct (listFilesRecursive host _ _ _) as [files|e]; [|settle_report].
      cbn [thrown_then H_bind lift].
      destruct (manual_search host _ _ _ _ _ _) as [results|e]; settle_report.
    + unfold find_files.
      destruct (listFilesRecursive host _ _ _) as [files|e]; [|settle_report].
      cbn [thrown_then H_bind lift].
      destruct (glob_test host _) as [regex|e]; settle_report.
    + unfold apply_patch.
      destruct (fs_readFile host _) as [content|e]; [|settle_report].
      cbn [thrown_then lift H_bind app].
      destruct (apply_edits edits content []) as [content' applied].
      cbn [fst]. destruct (fs_writeFile host _ _) as [[]|e]; settle_report.
    + unfold collab_web_search.
      destruct (exec_as_outcome _) as [out|e]; [|settle_report].
      cbn [thrown_then H_bind lift].
      destruct (JSON_parse host _) as [data|e]; settle_report.
    + unfold web_fetch.
      destruct (exec_as_outcome _) as [out|e]; settle_report.
    + unfold todo_write.
      destruct (fs_mkdir host _) as [[]|e]; [|settle_report].
      cbn [thrown_then H_bind lift].
      destruct (fs_writeFile host _ _) as [[]|e]; settle_report.
Qed.

(** C10, at a failure: on a host on which every call fails, [edit_file]
    reports the failure of [mkdir]. *)
Lemma C10_handlers_report_failures_witness :
  tool_name (Call_edit_file (str "src/a.ts") (str "export {}") None)
    ∈ tool_registry
  /\ well_reported (str "edit_file")
       (edit_file failing_host (str "/work/app") (str "src/a.ts")
          (str "export {}") None)
  /\ reports_failure (Call_edit_file (str "src/a.ts") (str "export {}") None)
       (ErrorObj (str "ENOENT"))
       (edit_file failing_host (str "/work/app") (str "src/a.ts")
          (str "export {}") None).
Proof.
  exact (C10_handlers_report_failures failing_host (str "/work/app")
           (Call_edit_file (str "src/a.ts") (str "export {}") None)).
Defined.

(** C10, as stated, fails: a failure inside a handler that an inner [try]
    catches is not reported.  In append mode, when todo.md cannot be read,
    [todo_write] starts from an empty list, overwrites the file and
    returns a success. *)
Lemma C10_unreadable_todo_is_not_reported :
  fs_readFile write_only_host (str "/work/app/.collablearn/todo.md")
  = Throws (ErrorObj (str "EACCES"))
  /\ todo_write write_only_host (str "/work/app") [(str "ship", None)]
       (Some true)
     = ([started (str "todo_write"); ended (str "todo_write")],
        Ok (mkResult true None
              (P_todo_write (str "/work/app/.collablearn/todo.md") 1))).
Proof. split; reflexivity. Qed.
End ToolClaims.

(* ===================================================================== *)
(** * Further properties of the code *)
(* ===================================================================== *)

(** ** Text helpers *)

Section TextLaws.
Import CopilotSdk.

(** X1.  A text longer than a cap of at least 2 is cut to [cap / 2] code
    units at each end around the marker: the length of the result is twice
    [cap / 2] plus the length of the marker, its first [cap / 2] code units
    are those of the input, and the marker counts exactly what was cut. *)
Theorem X1_truncateText_cut input cap :
  2 <= cap -> cap < len input ->
  let h := N.to_nat (cap / 2) in
  let marker := truncation_marker (Z.of_N (len input) - 2 * Z.of_N (cap / 2)) in
  truncateText input cap = take h input ++ marker ++ drop (length input - h) input
  /\ len (truncateText input cap) = 2 * (cap / 2) + len marker
  /\ take h (truncateText input cap) = take h input.
Proof.
  intros Hcap Hlong h marker.
  assert (Hh : (h <= length input)%nat).
  { unfold h, len in *. assert (cap / 2 <= cap) by (apply N.Div0.div_le_upper_bound; lia). lia. }
  rewrite (truncateText_long input cap Hlong Hcap). fold h marker.
  split; [done|]. split.
  - unfold len. rewrite !length_app, length_take, length_drop. unfold h in *. lia.
  - rewrite take_app_le by (rewrite length_take; lia).
    rewrite take_take, Nat.min_id. done.
Qed.

Lemma X1_truncateText_cut_witness :
  let input := str "abcdefghij" in
  let h := N.to_nat (4 / 2) in
  let marker := truncation_marker (Z.of_N (len input) - 2 * Z.of_N (4 / 2)) in
  truncateText input 4 = take h input ++ marker ++ drop (length input - h) input
  /\ len (truncateText input 4) = 2 * (4 / 2) + len marker
  /\ take h (truncateText input 4) = take h input.
Proof.
  apply (X1_truncateText_cut (str "abcdefghij") 4); vm_compute; congruence.
Defined.

(** X2.  With a cap below 2 nothing is cut: [slice(-0)] is the whole text,
    so the result is the marker, announcing 0 characters, followed by the
    entire input, and is longer than the input. *)
Theorem X2_truncateText_cap_below_two input cap :
  cap < 2 -> cap < len input ->
  truncateText input cap = truncation_marker 0 ++ input.
Proof.
  intros Hcap Hlong. unfold truncateText.
  destruct (N.leb_spec (len input) cap) as [?|_]; [lia|].
  assert (E : cap / 2 = 0) by (apply N.div_small; lia).
  rewrite E. change (N.to_nat 0) with 0%nat.
  unfold slice_to, slice_last. rewrite take_0. cbn [app].
  replace (Z.of_N (len input) - Z.of_N (len []) - Z.of_N (len input))%Z
    with 0%Z by (unfold len; simpl; lia).
  done.
Qed.

Lemma X2_truncateText_cap_below_two_witness :
  truncateText (str "abc") 1 = truncation_marker 0 ++ str "abc".
Proof.
  apply (X2_truncateText_cap_below_two (str "abc") 1); vm_compute; reflexivity.
Defined.

Lemma ansi_items :
  Regex.items ansi_pattern
  = [(Regex.CsChar 27, Regex.One); (Regex.CsChar 91, Regex.One);
     (Regex.CsClass false [(48, 57); (59, 59)], Regex.Star);
     (Regex.CsChar 109, Regex.One)]
  /\ Regex.ignoreCase ansi_pattern = false
  /\ Regex.anchorEnd ansi_pattern = false.
Proof. vm_compute. done. Qed.

(** X3.  A text without the escape character goes through [stripAnsi]
    unchanged, and through [safeToolText] too when it is within the cap. *)
Theorem X3_stripAnsi_without_escape input cap :
  27 ∉ input ->
  stripAnsi input = input
  /\ (len input <= cap -> safeToolText input cap = input).
Proof.
  intros Hesc.
  assert (Hs : stripAnsi input = input).
  { unfold stripAnsi, Regex.replace_all.
    destruct ansi_items as (-> & -> & ->).
    induction input as [|c t IH]; [reflexivity|].
    apply not_elem_of_cons in Hesc as [Hc Ht].
    cbn [Regex.replace_from Regex.match_here Regex.in_set Regex.canonicalize andb].
    destruct (N.eqb_spec 27 c) as [E|_]; [by destruct Hc|].
    f_equal. by apply IH. }
  split; [exact Hs|]. intros Hle. unfold safeToolText. rewrite Hs.
  unfold truncateText. destruct (N.leb_spec (len input) cap); [done|lia].
Qed.

Lemma X3_stripAnsi_without_escape_witness :
  stripAnsi (str "npm install") = str "npm install"
  /\ (len (str "npm install") <= 20000
      -> safeToolText (str "npm install") 20000 = str "npm install").
Proof.
  apply (X3_stripAnsi_without_escape (str "npm install") 20000).
  vm_compute. intros H. repeat (apply elem_of_cons in H as [H|H]; [discriminate|]).
  by apply elem_of_nil in H.
Defined.
End TextLaws.

(** ** The tools *)

Section PatchLaws.
Import CopilotSdk.

Lemma find_first_Some p s b a :
  find_first p s = Some (b, a) -> s = b ++ p ++ a.
Proof.
  revert b. induction s as [|c t IH]; intros b; simpl.
  - destruct (starts_with p []) eqn:E; [|done]. intros [= <- <-].
    destruct (starts_with_prefix _ _ E) as [x Hx].
    destruct p; [done|done].
  - destruct (starts_with p (c :: t)) eqn:E.
    + intros [= <- <-]. destruct (starts_with_prefix _ _ E) as [x Hx].
      rewrite Hx, drop_app_length. done.
    + destruct (find_first p t) as [[b' a']|] eqn:F; [|done].
      intros [= <- <-]. rewrite (IH _ eq_refl). done.
Qed.

Lemma starts_with_app p x : starts_with p (p ++ x) = true.
Proof. induction p as [|c p IH]; simpl; [done|]. by rewrite N.eqb_refl. Qed.

(** The occurrence [find_first] returns is the first one. *)
Lemma find_first_least p s b' a' :
  s = b' ++ p ++ a' ->
  exists b a, find_first p s = Some (b, a) /\ (length b <= length b')%nat.
Proof.
  revert b'. induction s as [|c t IH]; intros b' E.
  - destruct b'; [|done]. simpl in E. destruct p; [|done].
    simpl. exists [], []. done.
  - cbn [find_first]. destruct (starts_with p (c :: t)) eqn:S.
    + eexists _, _. split; [reflexivity|]. simpl. lia.
    + destruct b' as [|c' b'].
      * simpl in E. rewrite E, starts_with_app in S. done.
      * injection E as -> E. destruct (IH _ E) as (b & a & -> & Hl).
        eexists _, _. split; [reflexivity|]. simpl. lia.
Qed.

Lemma includes_find_first p s :
  includes p s = true -> is_Some (find_first p s).
Proof.
  intros H. destruct (includes_infix _ _ H) as (b & a & E).
  destruct (find_first_least p s b a E) as (? & ? & -> & _). eauto.
Qed.

Lemma expand_replacement_plain rep m b a :
  36 ∉ rep -> expand_replacement rep m b a = rep.
Proof.
  induction rep as [|c r IH]; [done|]. intros H.
  apply not_elem_of_cons in H as [Hc Hr].
  assert (E : expand_replacement (c :: r) m b a = c :: expand_replacement r m b a).
  { destruct c as [|p]; [done|].
    do 6 (destruct p as [p|p|]; try done). }
  rewrite E, IH; done.
Qed.

(** X4.  Edits whose search text does not occur are not fatal: the content
    is left as it is, and each edit is reported, in order, with the first
    50 code units of its search text and [found: false]. *)
Theorem X4_apply_edits_absent edits content applied :
  Forall (fun e => includes (fst e) content = false) edits ->
  apply_edits edits content applied
  = (content, applied ++ map (fun e => (slice_to 50 (fst e), false)) edits).
Proof.
  intros H. revert applied. induction H as [|[search rep] edits Hs _ IH]; intros applied.
  - simpl. by rewrite app_nil_r.
  - simpl in *. rewrite Hs, IH, <- app_assoc. done.
Qed.

Lemma X4_apply_edits_absent_witness :
  apply_edits [(str "foo", str "bar"); (str "baz", str "qux")] (str "hello") []
  = (str "hello",
     [] ++ map (fun e => (slice_to 50 (fst e), false))
             [(str "foo", str "bar"); (str "baz", str "qux")]).
Proof.
  apply (X4_apply_edits_absent
           [(str "foo", str "bar"); (str "baz", str "qux")] (str "hello") []).
  repeat constructor.
Defined.

(** X5.  An edit whose search text occurs and whose replacement has no [$]
    replaces the first occurrence only, and writes the replacement as it
    is: the content is split at the leftmost occurrence, and what is before
    and after it is kept. *)
Theorem X5_replace_first_leftmost search rep content :
  includes search content = true ->
  36 ∉ rep ->
  exists before after,
    content = before ++ search ++ after
    /\ replace_first search rep content = before ++ rep ++ after
    /\ forall before' after',
         content = before' ++ search ++ after' ->
         (length before <= length before')%nat.
Proof.
  intros Hin Hrep. unfold replace_first.
  destruct (includes_find_first _ _ Hin) as [[b a] E]. rewrite E.
  exists b, a. split; [by apply find_first_Some|].
  split; [by rewrite expand_replacement_plain|].
  intros b' a' E'. destruct (find_first_least _ _ _ _ E') as (b2 & a2 & E2 & Hl).
  rewrite E in E2. by injection E2 as <- <-.
Qed.

Lemma X5_replace_first_leftmost_witness :
  exists before after,
    str "a-b-c" = before ++ str "-" ++ after
    /\ replace_first (str "-") (str "+") (str "a-b-c") = before ++ str "+" ++ after
    /\ forall before' after',
         str "a-b-c" = before' ++ str "-" ++ after' ->
         (length before <= length before')%nat.
Proof.
  apply (X5_replace_first_leftmost (str "-") (str "+") (str "a-b-c")).
  - reflexivity.
  - vm_compute. intros H. apply elem_of_cons in H as [H|H]; [discriminate|].
    by apply elem_of_nil in H.
Defined.
End PatchLaws.

Section TodoLaws.
Import CopilotSdk Laws.

Lemma split_lines_line s rest :
  LF ∉ s -> split_lines (s ++ LF :: rest) = s :: split_lines rest.
Proof.
  intros Hs. destruct (split_lines_app_no_LF s (LF :: rest) Hs) as (l & ls & E1 & E2).
  simpl in E1. injection E1 as <- <-. by rewrite E2, app_nil_r.
Qed.

Lemma todo_line_parses it :
  todo_item_ok it -> parse_todo_line (todo_line it) = Some (todo_item_read it).
Proof.
  intros [Hne Hlt]. destruct it as [text st]. simpl in *.
  unfold todo_line, parse_todo_line, todo_item_read. simpl.
  rewrite Hlt. unfold jsstring_eqb. rewrite bool_decide_eq_false_2 by done.
  destruct st as [[| |]|]; reflexivity.
Qed.

Lemma todo_line_no_LF it : todo_item_ok it -> LF ∉ todo_line it.
Proof.
  intros [_ Hlt]. unfold todo_line. intros H.
  apply elem_of_app in H as [H|H].
  { revert H. vm_compute. intros H.
    repeat (apply elem_of_cons in H as [H|H]; [discriminate|]).
    by apply elem_of_nil in H. }
  apply elem_of_app in H as [H|H].
  { apply list_elem_of_singleton in H. destruct it as [t [[| |]|]]; discriminate. }
  apply elem_of_app in H as [H|H].
  { revert H. vm_compute. intros H.
    repeat (apply elem_of_cons in H as [H|H]; [discriminate|]).
    by apply elem_of_nil in H. }
  rewrite forallb_forall in Hlt. apply list_elem_of_In in H.
  specialize (Hlt _ H). done.
Qed.

Lemma todo_lines_read items :
  Forall todo_item_ok items ->
  omap parse_todo_line (split_lines (join [LF] (map todo_line items) ++ [LF]))
  = map todo_item_read items.
Proof.
  induction 1 as [|it items Hit Hitems IH]; [reflexivity|].
  destruct items as [|it2 items].
  - cbn [map join]. rewrite (split_lines_line _ [] (todo_line_no_LF _ Hit)).
    cbn [split_lines omap list_omap]. by rewrite (todo_line_parses _ Hit).
  - change (join [LF] (map todo_line (it :: it2 :: items)))
      with (todo_line it ++ [LF] ++ join [LF] (map todo_line (it2 :: items))).
    rewrite <- !app_assoc. cbn [app].
    rewrite (split_lines_line _ _ (todo_line_no_LF _ Hit)).
    cbn [omap list_omap]. rewrite (todo_line_parses _ Hit).
    cbn [map] in *. rewrite <- IH. reflexivity.
Qed.

Lemma todo_markdown_lines items :
  split_lines (todo_markdown items)
  = str "# Todo List" :: [] ::
      split_lines (join [LF] (map todo_line items) ++ [LF]).
Proof.
  unfold todo_markdown.
  change (map (fun it => str "- [" ++ [statusChar (snd it)] ++ str "] " ++ fst it) items)
    with (map todo_line items).
  change (str "# Todo List" ++ [LF; LF] ++ join [LF] (map todo_line items) ++ [LF])
    with (str "# Todo List" ++ LF :: ([] ++ LF :: (join [LF] (map todo_line items) ++ [LF]))).
  rewrite split_lines_line.
  - by rewrite split_lines_line by apply not_elem_of_nil.
  - vm_compute. intros H.
    repeat (apply elem_of_cons in H as [H|H]; [discriminate|]).
    by apply elem_of_nil in H.
Qed.

(** X6.  What [todo_write] writes, its append mode reads back: for items
    whose text is not empty and has no line terminator, parsing the lines
    of the generated todo.md gives the items again, in order, a missing
    status being read as [pending]. *)
Theorem X6_todo_markdown_reads_back items :
  Forall todo_item_ok items ->
  omap parse_todo_line (split_lines (todo_markdown items))
  = map todo_item_read items.
Proof.
  intros Hok. rewrite todo_markdown_lines.
  cbn [omap list_omap].
  change (parse_todo_line (str "# Todo List"))
    with (@None (jsstring * option TodoStatus)).
  change (parse_todo_line []) with (@None (jsstring * option TodoStatus)).
  by apply todo_lines_read.
Qed.

Lemma X6_todo_markdown_reads_back_witness :
  omap parse_todo_line
    (split_lines (todo_markdown [(str "write tests", Some todo_completed);
                                 (str "ship", None)]))
  = map todo_item_read [(str "write tests", Some todo_completed);
                        (str "ship", None)].
Proof.
  apply (X6_todo_markdown_reads_back
           [(str "write tests", Some todo_completed); (str "ship", None)]).
  repeat constructor; done.
Defined.

(** X7.  In append mode, on a host where the checklist directory can be
    made, todo.md holds a checklist written before and can be written, the
    handler succeeds and counts the old items and the new ones. *)
Theorem X7_todo_write_append_counts host root old items :
  fs_mkdir host (path_join host root (str ".collablearn")) = Ok () ->
  fs_readFile host
    (path_join host (path_join host root (str ".collablearn")) (str "todo.md"))
  = Ok (todo_markdown old) ->
  (forall content,
     fs_writeFile host
       (path_join host (path_join host root (str ".collablearn")) (str "todo.md"))
       content = Ok ()) ->
  Forall todo_item_ok old ->
  todo_write host root items (Some true)
  = ([started (str "todo_write"); ended (str "todo_write")],
     Ok (mkResult true None
           (P_todo_write
              (path_join host (path_join host root (str ".collablearn"))
                 (str "todo.md"))
              (N.of_nat (length old + length items))))).
Proof.
  intros Hmk Hrd Hwr Hok. unfold todo_write.
  cbn [default]. rewrite Hmk, Hrd.
  rewrite todo_markdown_lines. cbn [omap list_omap].
  change (parse_todo_line (str "# Todo List"))
    with (@None (jsstring * option TodoStatus)).
  change (parse_todo_line []) with (@None (jsstring * option TodoStatus)).
  rewrite (todo_lines_read old Hok).
  unfold H_bind, try_catch, lift, emit, H_ret. rewrite Hwr.
  cbn [app]. unfold id. rewrite length_app, length_map. reflexivity.
Qed.

Lemma X7_todo_write_append_counts_witness :
  todo_write (quiet_host [] (todo_markdown [(str "ship", None)])) (str "/work/app")
    [(str "write tests", Some todo_in_progress)] (Some true)
  = ([started (str "todo_write"); ended (str "todo_write")],
     Ok (mkResult true None
           (P_todo_write (str "/work/app/.collablearn/todo.md")
              (N.of_nat (length [(str "ship", @None TodoStatus)]
                         + length [(str "write tests", Some todo_in_progress)]))))).
Proof.
  apply (X7_todo_write_append_counts
           (quiet_host [] (todo_markdown [(str "ship", None)])) (str "/work/app")
           [(str "ship", None)] [(str "write tests", Some todo_in_progress)]).
  - reflexivity.
  - reflexivity.
  - reflexivity.
  - repeat constructor; done.
Defined.
End TodoLaws.

Section ListingLaws.
Import CopilotSdk Laws.

Lemma find_loop_spec matches ignore maxResults files results :
  let rs := find_loop matches ignore maxResults files results in
  (length rs <= Nat.max (length results) (Z.to_nat maxResults))%nat
  /\ exists found,
       rs = results ++ found
       /\ Forall (fun p => exists f, f ∈ files /\ fiPath f = p
                           /\ fiIsFile f = true /\ matches p = true
                           /\ existsb (fun ig => includes ig p) ignore = false)
            found.
Proof.
  revert results. induction files as [|file rest IH]; intros results; simpl.
  - split; [lia|]. exists []. by rewrite app_nil_r.
  - destruct (Z.leb_spec maxResults (Z.of_nat (length results))) as [Hfull|Hroom].
    { split; [lia|]. exists []. by rewrite app_nil_r. }
    assert (Hweaken : forall found : list jsstring,
               Forall (fun p => exists f, f ∈ rest /\ fiPath f = p
                                /\ fiIsFile f = true /\ matches p = true
                                /\ existsb (fun ig => includes ig p) ignore = false)
                 found ->
               Forall (fun p => exists f, f ∈ file :: rest /\ fiPath f = p
                                /\ fiIsFile f = true /\ matches p = true
                                /\ existsb (fun ig => includes ig p) ignore = false)
                 found).
    { intros found HF. eapply Forall_impl; [exact HF|]. intros p (f & Hf & H).
      exists f. split; [by apply list_elem_of_further|done]. }
    destruct (fiIsFile file) eqn:Hfile; simpl.
    + destruct (existsb _ ignore) eqn:Hig.
      * destruct (IH results) as (Hl & found & E & Hf). split; [done|]. eauto.
      * destruct (matches (fiPath file)) eqn:Hm.
        -- destruct (IH (results ++ [fiPath file])) as (Hl & found & E & Hf).
           split.
           { rewrite length_app in Hl. simpl in Hl. lia. }
           exists (fiPath file :: found). split.
           { rewrite E, <- app_assoc. done. }
           constructor; [|auto]. exists file.
           split; [apply list_elem_of_here|done].
        -- destruct (IH results) as (Hl & found & E & Hf). split; [done|]. eauto.
    + destruct (IH results) as (Hl & found & E & Hf). split; [done|]. eauto.
Qed.

(** X8.  The file search is capped and sound: it returns at most
    [maxResults] paths (none when [maxResults] is not positive), and every
    path it returns is that of a listed entry that is a file, matches the
    pattern and contains none of the ignore texts. *)
Theorem X8_find_loop_capped_and_sound matches ignore maxResults files :
  (length (find_loop matches ignore maxResults files []) <= Z.to_nat maxResults)%nat
  /\ Forall (fun p => exists f, f ∈ files /\ fiPath f = p
                      /\ fiIsFile f = true /\ matches p = true
                      /\ existsb (fun ig => includes ig p) ignore = false)
       (find_loop matches ignore maxResults files []).
Proof.
  destruct (find_loop_spec matches ignore maxResults files [])
    as (Hl & found & E & Hf).
  simpl in *. split; [lia|]. by rewrite E.
Qed.

(** X9.  Without recursion, or at the depth bound, the listing is the
    entries of the directory that are not in the ignore set, in order, each
    with its name as path; sub-directories are not read, so one that cannot
    be read does not make the listing fail. *)
Theorem X9_listEntries_flat recursive maxDepth currentDepth entries :
  recursive = false \/ (maxDepth <= currentDepth)%Z ->
  listEntries recursive maxDepth currentDepth entries
  = Ok (map info_of
          (List.filter (fun e => negb (ignored (entry_name e))) entries)).
Proof.
  intros Hflat.
  assert (Hguard : recursive && (currentDepth <? maxDepth)%Z = false).
  { destruct Hflat as [->|H]; [done|].
    destruct (Z.ltb_spec currentDepth maxDepth); [lia|]. by rewrite andb_false_r. }
  induction entries as [|e entries IH]; [reflexivity|].
  cbn [listEntries List.filter]. rewrite IH.
  destruct e as [name|name children]; cbn [listEntry entry_name];
    fold (ignored name); destruct (ignored name); cbn [negb app map]; try done.
  rewrite Hguard. done.
Qed.

Lemma X9_listEntries_flat_witness :
  listEntries false 3 0
    [FileE (str "a.ts"); DirE (str "node_modules") (Throws NonError);
     DirE (str "locked") (Throws NonError)]
  = Ok (map info_of
          (List.filter (fun e => negb (ignored (entry_name e)))
             [FileE (str "a.ts"); DirE (str "node_modules") (Throws NonError);
              DirE (str "locked") (Throws NonError)])).
Proof.
  apply (X9_listEntries_flat false 3 0). left. reflexivity.
Defined.

Lemma Entry_nested_ind (P : Entry -> Prop) :
  (forall n, P (FileE n)) ->
  (forall n l, Forall P l -> P (DirE n (Ok l))) ->
  (forall n e, P (DirE n (Throws e))) ->
  forall e, P e.
Proof.
  intros Hfile Hdir Hlocked. fix IH 1. intros [n|n [l|err]].
  - apply Hfile.
  - apply Hdir. induction l as [|x r IHl]; constructor; [apply IH|exact IHl].
  - apply Hlocked.
Qed.

Lemma listEntry_children recursive maxDepth depth (P : FileInfo -> Prop) sub :
  Forall (fun e => forall d l, listEntry recursive maxDepth d e = Ok l -> Forall P l) sub ->
  forall l,
    (fix each (l : list Entry) : Outcome (list FileInfo) :=
       match l with
       | [] => Ok []
       | x :: r =>
           match listEntry recursive maxDepth depth x with
           | Ok a =>
               match each r with
               | Ok b => Ok (a ++ b)
               | Throws e => Throws e
               end
           | Throws e => Throws e
           end
       end) sub = Ok l ->
    Forall P l.
Proof.
  induction 1 as [|x r Hx _ IH]; intros l.
  - intros [= <-]. constructor.
  - destruct (listEntry recursive maxDepth depth x) as [a|] eqn:Ea; [|done].
    match goal with |- context [match ?t with Ok _ => _ | Throws _ => _ end] =>
      destruct t as [b|] eqn:Eb end; [|done].
    intros [= <-]. apply Forall_app. split; [eapply Hx; eauto|by apply IH].
Qed.

(** X10.  However deep the listing goes, no entry it returns bears a name
    of the ignore set ([node_modules], [.git], [dist], [.next],
    [__pycache__]), and nothing below such a directory is listed. *)
Theorem X10_listing_skips_ignored recursive maxDepth currentDepth entries listing :
  listEntries recursive maxDepth currentDepth entries = Ok listing ->
  Forall (fun f => ignored (fiName f) = false) listing.
Proof.
  assert (Hentry : forall e d l,
             listEntry recursive maxDepth d e = Ok l ->
             Forall (fun f => ignored (fiName f) = false) l).
  { induction e as [n|n sub IH|n err] using Entry_nested_ind; intros d l;
      cbn [listEntry]; fold (ignored n); destruct (ignored n) eqn:Hn;
      try (intros [= <-]; repeat constructor; done).
    - destruct (recursive && (d <? maxDepth)%Z).
      + match goal with |- context [match ?t with Ok _ => _ | Throws _ => _ end] =>
          destruct t as [b|] eqn:Eb end; [|done].
        intros [= <-]. constructor; [done|].
        apply Forall_map. cbn [prepend_dir fiName].
        eapply (listEntry_children recursive maxDepth (d + 1)
                  (fun f => ignored (fiName f) = false)); eauto.
      + intros [= <-]. repeat constructor; done.
    - destruct (recursive && (d <? maxDepth)%Z); [done|].
      intros [= <-]. repeat constructor; done. }
  revert listing. induction entries as [|e entries IH]; intros listing; simpl.
  - intros [= <-]. constructor.
  - destruct (listEntry recursive maxDepth currentDepth e) as [a|] eqn:Ea; [|done].
    destruct (listEntries recursive maxDepth currentDepth entries) as [b|]; [|done].
    intros [= <-]. apply Forall_app. split; [eapply Hentry; eauto|by apply IH].
Qed.

Lemma X10_listing_skips_ignored_witness :
  Forall (fun f => ignored (fiName f) = false)
    [mkFileInfo (str "src") false (str "src");
     mkFileInfo (str "a.ts") true (str "src/a.ts")].
Proof.
  apply (X10_listing_skips_ignored true 3 0
           [DirE (str "src")
              (Ok [FileE (str "a.ts");
                   DirE (str "dist") (Ok [FileE (str "bundle.js")])]);
            DirE (str ".git") (Throws NonError)]).
  reflexivity.
Defined.
End ListingLaws.

Section SearchLaws.
Import CopilotSdk Laws.

Lemma scan_lines_inv (P : SearchHit -> Prop) first_match maxResults file :
  (forall i l m, P (mkHit file i (slice_to 200 (trim l)) m)) ->
  forall lines i results,
    Forall P results ->
    let rs := scan_lines first_match maxResults file lines i results in
    Forall P rs
    /\ (length rs <= Nat.max (length results) (Z.to_nat maxResults))%nat.
Proof.
  intros HP. induction lines as [|l rest IH]; intros i results Hres; simpl.
  - split; [done|lia].
  - destruct (Z.ltb_spec (Z.of_nat (length results)) maxResults) as [Hroom|Hfull];
      [|split; [done|lia]].
    destruct (first_match l) as [m|].
    + destruct (IH (i + 1) (results ++ [mkHit file (i + 1) (slice_to 200 (trim l)) m]))
        as [HF Hl].
      { apply Forall_app. split; [done|]. constructor; [apply HP|constructor]. }
      split; [done|]. rewrite length_app in Hl. simpl in Hl. lia.
    + by apply IH.
Qed.

Lemma manual_search_inv host (P : SearchHit -> Prop) first_match filePattern
  searchDir maxResults :
  (forall file i l m, P (mkHit file i (slice_to 200 (trim l)) m)) ->
  forall files results rs,
    Forall P results ->
    manual_search host first_match filePattern searchDir maxResults files results
    = Ok rs ->
    Forall P rs
    /\ (length rs <= Nat.max (length results) (Z.to_nat maxResults))%nat.
Proof.
  intros HP. induction files as [|file rest IH]; intros results rs Hres; simpl.
  - intros [= <-]. split; [done|lia].
  - destruct (fiIsFile file); simpl; [|by apply IH].
    destruct (Z.leb_spec maxResults (Z.of_nat (length results))).
    { intros [= <-]. split; [done|lia]. }
    match goal with |- context [match ?s with Ok _ => _ | Throws _ => _ end] =>
      destruct s as [[|]|] end; [by apply IH| |done].
    destruct (fs_readFile host _) as [content|]; [|by apply IH].
    destruct (scan_lines_inv P first_match maxResults (fiPath file)
                (HP (fiPath file)) (split_lines content) 0 results Hres)
      as [HF Hl].
    intros Hrs. destruct (IH _ _ HF Hrs) as [HF' Hl']. split; [done|lia].
Qed.

(** X11.  The search that stands in for ripgrep returns at most
    [maxResults] hits, and the line text of each hit is at most 200 code
    units. *)
Theorem X11_manual_search_capped host first_match filePattern searchDir
  maxResults files results :
  manual_search host first_match filePattern searchDir maxResults files []
  = Ok results ->
  (length results <= Z.to_nat maxResults)%nat
  /\ Forall (fun h => (length (hitContent h) <= 200)%nat) results.
Proof.
  intros Hrs.
  destruct (manual_search_inv host (fun h => (length (hitContent h) <= 200)%nat)
              first_match filePattern searchDir maxResults) with
    (files := files) (results := @nil SearchHit) (rs := results) as [HF Hl];
    [|constructor|done|].
  - intros file i l m. cbn [hitContent]. unfold slice_to.
    rewrite length_take. lia.
  - split; [simpl in Hl; lia|done].
Qed.

Lemma X11_manual_search_capped_witness :
  let first_match :=
    fun l : jsstring => if includes (str "a") l then Some (str "a") else None in
  let results :=
    [mkHit (str "f.txt") 1 (str "a") (str "a");
     mkHit (str "f.txt") 3 (str "ab") (str "a")] in
  (length results <= Z.to_nat 2)%nat
  /\ Forall (fun h => (length (hitContent h) <= 200)%nat) results.
Proof.
  intros first_match results.
  apply (X11_manual_search_capped
           (quiet_host [] (str "a" ++ [LF] ++ str "b" ++ [LF] ++ str " ab "
                             ++ [LF] ++ str "ca"))
           first_match None (str "/work") 2
           [mkFileInfo (str "f.txt") true (str "f.txt")]).
  reflexivity.
Defined.

(** X12.  [run_command] always returns a result, and the exit code in it
    is 0 exactly when the result is a success: a rejection of [exec] whose
    code is missing or 0 is reported with exit code 1. *)
Theorem X12_run_command_exit_code host root command cwd timeout :
  exists r out err code,
    snd (run_command host root command cwd timeout) = Ok r
    /\ payload r = P_run_command out err code
    /\ (success r = true <-> code = 0%Z).
Proof.
  unfold run_command. destruct (execAsync host command) as [out err|msg out err code].
  - eexists _, _, _, _. simpl. split; [reflexivity|]. split; [reflexivity|]. done.
  - eexists _, _, _, _. simpl. split; [reflexivity|]. split; [reflexivity|].
    split; [done|]. destruct code as [[| |]|]; done.
Qed.

(** X13.  With a non-negative [maxLength], the content [web_fetch] returns
    is at most [maxLength] code units and the 15 of the truncation note, and
    the reported length is that of the content. *)
Theorem X13_web_fetch_bounded host url selector maxLength r :
  (0 <= maxLength)%Z ->
  snd (web_fetch host url selector (Some maxLength)) = Ok r ->
  success r = true ->
  exists content,
    payload r = P_web_fetch url content (len content)
    /\ (length content <= Z.to_nat maxLength + 15)%nat.
Proof.
  intros Hmax. unfold web_fetch. cbn [default].
  destruct (exec_as_outcome (execAsync host _)) as [out|e]; simpl.
  - intros [= <-] _. eexists. split; [reflexivity|].
    match goal with |- context [if ?b then strip_tags host _ else _] =>
      generalize (if b then strip_tags host (fst out) else fst out) end.
    intros content.
    destruct (Z.ltb_spec maxLength (Z.of_nat (length content))).
    + unfold slice0. destruct (Z.leb_spec 0 maxLength); [|lia].
      rewrite !length_app, length_take. simpl. lia.
    + lia.
  - intros [= <-]. done.
Qed.

Lemma X13_web_fetch_bounded_witness :
  exists content,
    payload (mkResult true None
               (P_web_fetch (str "http://x")
                  (str "hello" ++ [LF] ++ str "...[truncated]") 20))
    = P_web_fetch (str "http://x") content (len content)
    /\ (length content <= Z.to_nat 5 + 15)%nat.
Proof.
  apply (X13_web_fetch_bounded (quiet_host (str "hello world") [])
           (str "http://x") None 5).
  - lia.
  - reflexivity.
  - reflexivity.
Defined.

(** X14.  Once [cancel] was called, the events of the session reach no
    callback, while the handlers of the tools still report theirs; the
    flag is not reset. *)
Theorem X14_cancel_silences_session_events host root cancelled pre post :
  run_steps host root cancelled (pre ++ Cancel :: post)
  = (fst (run_steps host root cancelled pre)
       ++ flat_map (handler_calls host root) post,
     true).
Proof.
  assert (Hpost : forall l,
             run_steps host root true l
             = (flat_map (handler_calls host root) l, true)).
  { induction l as [|[e|c|] l IH]; simpl; try rewrite IH; done. }
  revert cancelled. induction pre as [|[e|c|] pre IH]; intros cancelled; simpl.
  - by rewrite Hpost.
  - rewrite IH. destruct (run_steps host root cancelled pre). simpl.
    by rewrite app_assoc.
  - rewrite IH. destruct (run_steps host root cancelled pre). simpl.
    by rewrite app_assoc.
  - apply IH.
Qed.
End SearchLaws.

(** ** The execution registry *)

Section RegistryLaws.
Import Types Spec AgentManager Laws Samples.

Lemma only_entry_refl pid m : only_entry pid m m.
Proof. by split. Qed.

Lemma only_entry_trans pid m1 m2 m3 :
  only_entry pid m1 m2 -> only_entry pid m2 m3 -> only_entry pid m1 m3.
Proof.
  intros [A1 R1] [A2 R2]. split; [congruence|].
  intros q Hq. rewrite R2, R1; done.
Qed.

Lemma only_entry_set_status pid s m : only_entry pid m (set_status pid s m).
Proof.
  split; [done|]. intros q Hq. simpl. by rewrite lookup_alter_ne.
Qed.

Lemma only_entry_track pid info m : only_entry pid m (track pid info m).
Proof.
  split; [done|]. intros q Hq. simpl. by rewrite lookup_insert_ne.
Qed.

Lemma only_entry_call pid c x : only_entry pid (manager x) (manager (call pid c x)).
Proof.
  destruct c as [o|e]; simpl; [|apply only_entry_refl].
  destruct (type o); simpl;
    first [apply only_entry_refl | apply only_entry_set_status].
Qed.

Lemma only_entry_child pid ev x :
  only_entry pid (manager x) (manager (on_child_event pid ev x)).
Proof.
  destruct ev; simpl;
    first [apply only_entry_refl | apply only_entry_set_status].
Qed.

Lemma only_entry_foldl {A} pid (f : Exec -> A -> Exec) l :
  (forall x a, only_entry pid (manager x) (manager (f x a))) ->
  forall x, only_entry pid (manager x) (manager (foldl f x l)).
Proof.
  intros Hf. induction l as [|a l IH]; intros x; simpl.
  - apply only_entry_refl.
  - eapply only_entry_trans; [apply Hf|apply IH].
Qed.

Lemma only_entry_settle pid rejects x :
  only_entry pid (manager x) (manager (settle pid rejects x)).
Proof.
  unfold settle. destruct rejects; simpl; [apply only_entry_set_status|].
  destruct (getExecutionStatus (manager x) pid) as [[| | |]|];
    first [apply only_entry_refl | apply only_entry_set_status].
Qed.

(** X15.  An execution touches one entry of the registry: whatever the
    adapter does, at the end of a run the registered adapters are the same
    and so is the entry of every process id other than its own. *)
Theorem X15_run_touches_only_its_entry m agent task processId now x :
  run m agent task processId now = Ok x ->
  only_entry (finalProcessId agent task processId now) m (manager x).
Proof.
  unfold run, executeTask.
  set (pid := finalProcessId agent task processId now).
  destruct (adapters m !! agent) as [a|]; [|done].
  destruct (executeSdk a) as [run_sdk|].
  - destruct (run_sdk task) as [e|execution].
    + intros [= <-]. apply only_entry_refl.
    + intros [= <-]. cbn [finish manager subject emit].
      eapply only_entry_trans; [|apply only_entry_settle].
      eapply only_entry_trans;
        [|apply (only_entry_foldl pid (fun acc c => call pid c acc));
          intros; apply only_entry_call].
      cbn [manager].
      eapply only_entry_trans; [|apply only_entry_track].
      apply (only_entry_foldl pid (fun acc c => call pid c acc) _
               (fun x c => only_entry_call pid c x) (mkExec m Rx.fresh)).
  - destruct (execute a task) as [e|events].
    + intros [= <-]. apply only_entry_refl.
    + intros [= <-]. cbn [finish manager subject emit].
      eapply only_entry_trans;
        [|apply (only_entry_foldl pid (fun acc ev => on_child_event pid ev acc));
          intros; apply only_entry_child].
      cbn [manager]. apply only_entry_track.
Qed.

Lemma X15_run_touches_only_its_entry_witness :
  exists x,
    run (manager_with (one_shot (fun _ => prints [str "hello"] 0)))
      (str "github-copilot") prompt_1 (Some (str "p1")) 0 = Ok x
    /\ only_entry (str "p1")
         (manager_with (one_shot (fun _ => prints [str "hello"] 0)))
         (manager x).
Proof.
  eexists. split; [reflexivity|].
  apply (X15_run_touches_only_its_entry
           (manager_with (one_shot (fun _ => prints [str "hello"] 0)))
           (str "github-copilot") prompt_1 (Some (str "p1")) 0).
  reflexivity.
Defined.

(** X16.  When the adapter itself throws, nothing is tracked and the
    registry is as before; the error output is emitted before the caller
    can subscribe, so the subscriber receives no output at all, only the
    failure of the stream. *)
Theorem X16_launch_failure_tracks_nothing m agent a task processId now e :
  adapters m !! agent = Some a ->
  match executeSdk a with
  | Some run_sdk => run_sdk task = sdk_throws e
  | None => execute a task = spawn_throws e
  end ->
  exists x,
    run m agent task processId now = Ok x
    /\ manager x = m
    /\ Rx.emitted (subject x) = [plain error (message_or_unknown e)]
    /\ Rx.delivered (subject x) = []
    /\ Rx.closing (subject x) = Some (Rx.Failed e).
Proof.
  intros Ha Hthrow. unfold run, executeTask. rewrite Ha.
  destruct (executeSdk a) as [run_sdk|]; rewrite Hthrow;
    eexists; (split; [reflexivity|]); simpl; by destruct m.
Qed.

Lemma X16_launch_failure_tracks_nothing_witness :
  exists x,
    run (manager_with (one_shot (fun _ => spawn_throws (ErrorObj (str "ENOENT")))))
      (str "github-copilot") prompt_1 None 5 = Ok x
    /\ manager x
       = manager_with (one_shot (fun _ => spawn_throws (ErrorObj (str "ENOENT"))))
    /\ Rx.emitted (subject x) = [plain error (str "ENOENT")]
    /\ Rx.delivered (subject x) = []
    /\ Rx.closing (subject x) = Some (Rx.Failed (ErrorObj (str "ENOENT"))).
Proof.
  apply (X16_launch_failure_tracks_nothing
           (manager_with (one_shot (fun _ => spawn_throws (ErrorObj (str "ENOENT")))))
           (str "github-copilot")
           (one_shot (fun _ => spawn_throws (ErrorObj (str "ENOENT"))))
           prompt_1 None 5 (ErrorObj (str "ENOENT"))).
  - reflexivity.
  - reflexivity.
Defined.

Lemma status_set pid s m :
  is_Some (runningProcesses m !! pid) ->
  getExecutionStatus (set_status pid s m) pid = Some s.
Proof.
  intros [info Hi]. unfold getExecutionStatus, set_status. simpl.
  by rewrite lookup_alter_eq, Hi.
Qed.

Lemma status_set_is_Some pid q s m :
  is_Some (runningProcesses m !! pid) ->
  is_Some (runningProcesses (set_status q s m) !! pid).
Proof.
  intros [info Hi]. unfold set_status. simpl.
  destruct (decide (q = pid)) as [->|Hne].
  - rewrite lookup_alter_eq, Hi. by eexists.
  - rewrite lookup_alter_ne by done. by eexists.
Qed.

Lemma child_events_status pid events x s :
  getExecutionStatus (manager x) pid = Some s ->
  getExecutionStatus
    (manager (foldl (fun acc ev => on_child_event pid ev acc) x events)) pid
  = Some (default s (closing_status
                       <$> last (List.filter is_closing events))).
Proof.
  revert x s. induction events as [|ev events IH]; intros x s Hs; [done|].
  assert (Hin : is_Some (runningProcesses (manager x) !! pid)).
  { unfold getExecutionStatus in Hs.
    destruct (runningProcesses (manager x) !! pid); [by eexists|done]. }
  cbn [foldl List.filter].
  destruct ev as [d|d|code|msg]; cbn [is_closing].
  - by apply IH.
  - by apply IH.
  - rewrite (IH _ (closing_status (close_event code)))
      by (cbn [on_child_event manager]; by apply status_set).
    f_equal. destruct (List.filter is_closing events) as [|e l] eqn:E; [done|].
    rewrite last_cons_cons. destruct (last_is_Some (e :: l)) as [_ [v ->]]; done.
  - rewrite (IH _ (closing_status (error_event msg)))
      by (cbn [on_child_event manager]; by apply status_set).
    f_equal. destruct (List.filter is_closing events) as [|e l] eqn:E; [done|].
    rewrite last_cons_cons. destruct (last_is_Some (e :: l)) as [_ [v ->]]; done.
Qed.

(** X17.  For an adapter without [executeSdk], the status the registry
    ends with is that of the last [close] or [error] event of the child
    process, also when the stream was closed by an earlier one: completed
    for an exit with code 0, failed otherwise. *)
Theorem X17_child_status_is_last_closing m agent a task processId now
  pre ev post :
  adapters m !! agent = Some a -> executeSdk a = None ->
  execute a task = spawned (pre ++ ev :: post) ->
  is_closing ev = true -> existsb is_closing post = false ->
  exists x,
    run m agent task processId now = Ok x
    /\ getExecutionStatus (manager x)
         (finalProcessId agent task processId now)
       = Some (closing_status ev).
Proof.
  intros Ha Hsdk Hspawn Hev Hpost. unfold run, executeTask.
  rewrite Ha, Hsdk, Hspawn. eexists. split; [reflexivity|].
  cbn [finish manager subject emit].
  rewrite (child_events_status _ _ _ running).
  - f_equal. rewrite List.filter_app. cbn [List.filter]. rewrite Hev.
    replace (List.filter is_closing post) with (@nil ChildEvent).
    + by rewrite last_snoc.
    + symmetry. clear -Hpost. induction post as [|p post IH]; [done|].
      simpl in *. destruct (is_closing p); [done|]. by apply IH.
  - unfold getExecutionStatus, track. cbn [manager runningProcesses].
    by rewrite lookup_insert_eq.
Qed.

Lemma X17_child_status_is_last_closing_witness :
  exists x,
    run (manager_with
           (one_shot (fun _ => spawned [error_event (str "EPIPE");
                                        close_event (Some 0%Z)])))
      (str "github-copilot") prompt_1 (Some (str "p1")) 0 = Ok x
    /\ getExecutionStatus (manager x)
         (finalProcessId (str "github-copilot") prompt_1 (Some (str "p1")) 0)
       = Some (closing_status (close_event (Some 0%Z))).
Proof.
  apply (X17_child_status_is_last_closing
           (manager_with
              (one_shot (fun _ => spawned [error_event (str "EPIPE");
                                           close_event (Some 0%Z)])))
           (str "github-copilot")
           (one_shot (fun _ => spawned [error_event (str "EPIPE");
                                        close_event (Some 0%Z)]))
           prompt_1 (Some (str "p1")) 0
           [error_event (str "EPIPE")] (close_event (Some 0%Z)) []).
  - reflexivity.
  - reflexivity.
  - reflexivity.
  - reflexivity.
  - reflexivity.
Defined.

Lemma calls_status pid calls x s :
  getExecutionStatus (manager x) pid = Some s ->
  getExecutionStatus
    (manager (foldl (fun acc c => call pid c acc) x calls)) pid
  = Some (default s (last (omap terminal_status calls))).
Proof.
  revert x s. induction calls as [|c calls IH]; intros x s Hs; [done|].
  assert (Hin : is_Some (runningProcesses (manager x) !! pid)).
  { unfold getExecutionStatus in Hs.
    destruct (runningProcesses (manager x) !! pid); [by eexists|done]. }
  cbn [foldl].
  destruct c as [o|e]; [|by apply IH].
  assert (Hcons : omap terminal_status (onOutput o :: calls)
                  = match type o with
                    | complete => completed :: omap terminal_status calls
                    | error => failed :: omap terminal_status calls
                    | _ => omap terminal_status calls
                    end) by (simpl; by destruct (type o)).
  rewrite Hcons. clear Hcons. cbn [call]. unfold handleSdkOutput.
  destruct (type o); cbn [manager]; try (by apply IH).
  - rewrite (IH _ completed) by (cbn [manager]; by apply status_set).
    f_equal. destruct (omap terminal_status calls) as [|e l]; [done|].
    rewrite last_cons_cons. destruct (last_is_Some (e :: l)) as [_ [v ->]]; done.
  - rewrite (IH _ failed) by (cbn [manager]; by apply status_set).
    f_equal. destruct (omap terminal_status calls) as [|e l]; [done|].
    rewrite last_cons_cons. destruct (last_is_Some (e :: l)) as [_ [v ->]]; done.
Qed.

(** X18.  For an adapter with [executeSdk], the status the registry ends
    with is failed when [done] rejects; otherwise it is that of the last
    [complete] or [error] output made after [executeSdk] returned, and
    completed when there was none.  Outputs made before it returned do not
    count: the execution is tracked, as running, after them. *)
Theorem X18_session_status m agent a run_sdk task processId now execution :
  adapters m !! agent = Some a -> executeSdk a = Some run_sdk ->
  run_sdk task = sdk_started execution ->
  exists x,
    run m agent task processId now = Ok x
    /\ getExecutionStatus (manager x)
         (finalProcessId agent task processId now)
       = Some (if doneRejects execution then failed
               else default completed
                      (last (omap terminal_status (asyncCalls execution)))).
Proof.
  intros Ha Hsdk Hrun. unfold run, executeTask.
  rewrite Ha, Hsdk, Hrun. eexists. split; [reflexivity|].
  set (pid := finalProcessId agent task processId now).
  cbn [finish manager subject emit].
  match goal with |- context [foldl ?f ?x0 (asyncCalls execution)] =>
    pose proof (calls_status pid (asyncCalls execution) x0 running) as Hc;
    set (X := foldl f x0 (asyncCalls execution)) in * end.
  cbn [manager] in Hc.
  specialize (Hc ltac:(unfold getExecutionStatus, track; cbn [runningProcesses];
                       by rewrite lookup_insert_eq)).
  unfold settle. cbn [manager].
  destruct (doneRejects execution).
  - apply status_set. unfold getExecutionStatus in Hc.
    destruct (runningProcesses (manager X) !! pid); [by eexists|done].
  - rewrite Hc.
    destruct (last (omap terminal_status (asyncCalls execution))) as [s|] eqn:El.
    + cbn [default]. assert (s <> running).
      { apply last_Some_elem_of, list_elem_of_omap in El as (c & _ & Hc').
        destruct c as [o|e]; [|done]. simpl in Hc'. destruct (type o); congruence. }
      destruct s; done.
    + cbn [default]. apply status_set. unfold getExecutionStatus in Hc.
      destruct (runningProcesses (manager X) !! pid); [by eexists|done].
Qed.

Lemma X18_session_status_witness :
  exists x,
    run (manager_with (sdk_adapter cancelled_session))
      (str "github-copilot-sdk") prompt_1 (Some (str "p1")) 0 = Ok x
    /\ getExecutionStatus (manager x)
         (finalProcessId (str "github-copilot-sdk") prompt_1 (Some (str "p1")) 0)
       = Some completed.
Proof.
  apply (X18_session_status (manager_with (sdk_adapter cancelled_session))
           (str "github-copilot-sdk") (sdk_adapter cancelled_session)
           (fun task => sdk_started
                          (CopilotSdk.executeSdk failing_host cancelled_session task))
           prompt_1 (Some (str "p1")) 0
           (CopilotSdk.executeSdk failing_host cancelled_session prompt_1)).
  - reflexivity.
  - reflexivity.
  - reflexivity.
Defined.
End RegistryLaws.

(** ** The phase orchestrator *)

Section PhaseLaws.
Import Types Spec PhaseOrchestrator Laws Samples.

Lemma pushes_app a b : pushes (a ++ b) = pushes a ++ pushes b.
Proof. apply omap_app. Qed.

Lemma pushes_outputs t (l : list AgentOutput) :
  pushes (map (onTaskOutput t) l) = [].
Proof. induction l as [|o l IH]; [done|]. simpl. exact IH. Qed.

Lemma pushes_status t s l :
  pushes (updateTaskStatus t s :: l) = (t, s) :: pushes l.
Proof. reflexivity. Qed.

Lemma on_next_reason outs r0 :
  (blockerDetected r0 = true <-> is_Some (runBlockerReason r0)) ->
  let r := foldl on_next r0 outs in
  blockerDetected r = true <-> is_Some (runBlockerReason r).
Proof.
  revert r0. induction outs as [|o outs IH]; intros r0 H0; [done|].
  simpl. apply IH. unfold on_next.
  destruct (negb (blockerDetected r0) && detectBlocker (data o)); simpl; [|done].
  split; [by eexists|done].
Qed.

(** What a settled task looks like. *)
Lemma executeTask_result m w task options r m' effects :
  executeTask m w task options = (Resolved r, m', effects) ->
  resTaskId r = taskId task
  /\ status r <> skipped
  /\ (status r = blocked <-> is_Some (blockerReason r))
  /\ pushes effects = pushes_of_result r.
Proof.
  unfold executeTask.
  destruct (AgentManager.run _ _ _ _ _) as [x|e]; [|done].
  destruct (Rx.closing (AgentManager.subject x)) as [[|e]|]; [| |done].
  - pose proof (on_next_reason (Rx.delivered (AgentManager.subject x))
                  (mkTaskRun [] false None)) as Hinv.
    cbn zeta in Hinv. unfold result_of.
    destruct (blockerDetected (foldl on_next _ _)) eqn:Hb.
    + intros [= <- <- <-]. cbn [resTaskId status blockerReason].
      split; [done|]. split; [done|]. split.
      * split; [intros _|done]. apply Hinv; [|done]. simpl. split; [done|].
        intros [? ?]; done.
      * rewrite pushes_status, pushes_app, pushes_outputs. reflexivity.
    + intros [= <- <- <-]. cbn [resTaskId status blockerReason].
      split; [done|]. split; [done|]. split.
      * split; [done|]. intros [? ?]; done.
      * rewrite pushes_status, pushes_app, pushes_outputs. reflexivity.
  - unfold result_of. intros [= <- <- <-]. cbn [resTaskId status blockerReason].
    split; [done|]. split; [done|]. split.
    + split; [done|]. intros [? ?]; done.
    + rewrite pushes_status, pushes_app, pushes_outputs. reflexivity.
Qed.

Lemma blocked_last_nil : blocked_last [].
Proof. intros [|? ?] x post E; done. Qed.

Lemma blocked_last_single r : blocked_last [r].
Proof.
  intros [|? [|? ?]] x post E _; [|done..]. by injection E as _ <-.
Qed.

Lemma blocked_last_cons r rs :
  status r <> blocked -> blocked_last rs -> blocked_last (r :: rs).
Proof.
  intros Hr Hrs [|p pre] x post E Hx.
  - injection E as -> _. done.
  - injection E as _ E. by eapply Hrs.
Qed.

(** The task loop, when it comes to its end: the results it adds are those
    of a prefix of the tasks, in order; it covers every task unless the last
    result is [blocked]; and the status pushes are those of the results. *)
Lemma run_tasks_shape w options tasks l l1 :
  run_tasks w options tasks l = loop_done l1 ->
  exists rs,
    loopResults l1 = loopResults l ++ rs
    /\ map resTaskId rs = take (length rs) (map taskId tasks)
    /\ (length rs = length tasks
        \/ exists r, last rs = Some r /\ status r = blocked)
    /\ blocked_last rs
    /\ Forall (fun r => status r = blocked <-> is_Some (blockerReason r)) rs
    /\ pushes (loopEffects l1)
       = pushes (loopEffects l) ++ flat_map pushes_of_result rs.
Proof.
  revert l. induction tasks as [|task rest IH]; intros l; cbn [run_tasks].
  - intros [= <-]. exists []. rewrite !app_nil_r.
    repeat split; [by left|apply blocked_last_nil|constructor].
  - destruct (loopStop l).
    + intros Hrun. destruct (IH _ Hrun) as (rs & Hres & Hids & Hall & Hlast & Hreason & Hpush).
      cbn [loopResults loopEffects] in *.
      exists (skipped_result task :: rs). rewrite Hres, <- app_assoc.
      split; [done|]. split; [simpl; by rewrite Hids|]. split.
      { destruct Hall as [Hlen|(r & Hr & Hb)]; [left; simpl; lia|right].
        exists r. split; [|done]. destruct rs as [|r' rs]; [done|].
        by rewrite last_cons_cons. }
      split; [by apply blocked_last_cons|]. split.
      { constructor; [|done]. simpl. split; [done|]. intros [? ?]; done. }
      rewrite Hpush. reflexivity.
    + destruct (executeTask (loopManager l) w task options) as [[settled m'] effects] eqn:Hex.
      destruct settled as [r|e|]; [|done..].
      destruct (executeTask_result _ _ _ _ _ _ _ Hex) as (Hid & Hskip & Hreason1 & Hpush1).
      assert (Hpush2 :
                pushes ((loopEffects l ++ [onTaskStart (taskId task)] ++ effects)
                          ++ [onTaskComplete (taskId task) r])
                = pushes (loopEffects l) ++ pushes_of_result r).
      { rewrite !pushes_app, Hpush1. simpl. by rewrite app_nil_r. }
      destruct (status r) eqn:Hst.
      1,2: intros Hrun;
        destruct (IH _ Hrun) as (rs & Hres & Hids & Hall & Hlast & Hreason & Hpush);
        cbn [loopResults loopEffects] in *;
        exists (r :: rs); rewrite Hres, <- app_assoc;
        (split; [done|]); (split; [simpl; by rewrite Hids, Hid|]);
        (split;
         [destruct Hall as [Hlen|(r' & Hr & Hb)]; [left; simpl; lia|right];
          exists r'; split; [|done]; destruct rs as [|r'' rs]; [done|];
          by rewrite last_cons_cons|]);
        (split; [apply blocked_last_cons; [congruence|done]|]);
        (split; [constructor; [rewrite Hst; exact Hreason1|done]|]);
        rewrite Hpush, Hpush2, <- app_assoc; reflexivity.
      * intros [= <-]. cbn [loopResults loopEffects].
        exists [r]. split; [done|]. split; [simpl; by rewrite Hid, take_0|].
        split; [right; by exists r|]. split; [apply blocked_last_single|].
        split; [constructor; [rewrite Hst; exact Hreason1|constructor]|].
        rewrite pushes_app. cbn [flat_map pushes omap list_omap].
        rewrite !app_nil_r. exact Hpush2.
      * done.
Qed.

Lemma count_partition rs :
  (count completed rs + count failed rs + count blocked rs + count skipped rs
   = length rs)%nat.
Proof.
  unfold count. induction rs as [|r rs IH]; [done|].
  rewrite !filter_cons. destruct (status r); simpl; lia.
Qed.

(** The phase result [executePhase] returns, in terms of the task loop. *)
Lemma executePhase_returned o m w options r o' m' effects :
  executePhase o m w options = (Returned r, o', m', effects) ->
  o' = idle
  /\ ((r = mkPhaseResult (optPhaseId options) 0 0 0 0 [] false None
             (totalElapsed w)
       /\ effects = []
       /\ exists allTasks,
            fetchTasksByPhase w = Ok allTasks
            /\ List.filter is_pending allTasks = [])
      \/ exists allTasks l,
           fetchTasksByPhase w = Ok allTasks
           /\ run_tasks w options (List.filter is_pending allTasks)
                (mkLoop (stopRequestedEarly w) [] m [] None) = loop_done l
           /\ r = summarize options w l
           /\ effects = loopEffects l ++ [onPhaseComplete r]).
Proof.
  unfold executePhase. destruct (isRunning o); [done|].
  destruct (syncContext w); [|done].
  destruct (fetchTasksByPhase w) as [allTasks|]; [|done].
  destruct (List.filter is_pending allTasks) as [|t ts] eqn:Hp.
  - intros [= <- <- <- <-]. split; [done|]. left.
    split; [done|]. split; [done|]. by exists allTasks.
  - destruct (run_tasks _ _ _ _) as [l|e l|l] eqn:Hrun; [|done..].
    intros [= <- <- <- <-]. split; [done|]. right.
    exists allTasks, l. rewrite Hp. done.
Qed.

(** X19.  In a phase result the four counts add up to the number of
    results: every result is counted once. *)
Theorem X19_phase_counts_add_up o m w options r o' m' effects :
  executePhase o m w options = (Returned r, o', m', effects) ->
  (tasksCompleted r + tasksFailed r + tasksBlocked r + tasksSkipped r
   = length (results r))%nat.
Proof.
  intros H. apply executePhase_returned in H
    as (_ & [(-> & _)|(allTasks & l & _ & _ & -> & _)]); [done|].
  apply count_partition.
Qed.

Lemma X19_phase_counts_add_up_witness :
  exists r o' m' effects,
    executePhase idle credentials_manager
      (world_of [task_A; task_B; task_C] (fun _ => false)) options_cli
    = (Returned r, o', m', effects)
    /\ (tasksCompleted r + tasksFailed r + tasksBlocked r + tasksSkipped r
        = length (results r))%nat.
Proof.
  eexists _, _, _, _. split; [reflexivity|].
  eapply (X19_phase_counts_add_up idle credentials_manager
            (world_of [task_A; task_B; task_C] (fun _ => false)) options_cli).
  reflexivity.
Defined.

(** X20.  The results of a phase are those of the first pending tasks of
    the phase, one each and in the order of the task store; every pending
    task has a result unless the last result is [blocked]. *)
Theorem X20_results_follow_pending_tasks o m w options allTasks r o' m' effects :
  fetchTasksByPhase w = Ok allTasks ->
  executePhase o m w options = (Returned r, o', m', effects) ->
  let pendingTasks := List.filter is_pending allTasks in
  map resTaskId (results r)
  = take (length (results r)) (map taskId pendingTasks)
  /\ (length (results r) = length pendingTasks
      \/ exists last_result,
           last (results r) = Some last_result
           /\ status last_result = blocked).
Proof.
  intros Hfetch H pendingTasks. apply executePhase_returned in H
    as (_ & [(-> & _ & all' & Hf & Hp)|(all' & l & Hf & Hrun & -> & _)]);
    rewrite Hfetch in Hf; injection Hf as <-.
  - subst pendingTasks. rewrite Hp. split; [done|by left].
  - apply run_tasks_shape in Hrun as (rs & Hres & Hids & Hall & _).
    cbn [loopResults app] in Hres. cbn [summarize results]. rewrite Hres.
    done.
Qed.

Lemma X20_results_follow_pending_tasks_witness :
  exists r,
    fst (fst (fst (executePhase idle credentials_manager
                     (world_of [task_A; task_B; task_C] (fun _ => false))
                     options_cli))) = Returned r
    /\ map resTaskId (results r) = take (length (results r)) [1%Z; 2%Z; 3%Z]
    /\ (length (results r) = 3%nat
        \/ exists last_result,
             last (results r) = Some last_result
             /\ status last_result = blocked).
Proof.
  eexists. split; [reflexivity|].
  eapply (X20_results_follow_pending_tasks idle credentials_manager
            (world_of [task_A; task_B; task_C] (fun _ => false)) options_cli
            [task_A; task_B; task_C]).
  - reflexivity.
  - reflexivity.
Defined.

(** X21.  A [blocked] result is the last result of its phase, so there is
    at most one; it carries a reason, and that reason is the blocker reason
    of the phase result. *)
Theorem X21_blocked_result_is_last o m w options r o' m' effects pre x post :
  executePhase o m w options = (Returned r, o', m', effects) ->
  results r = pre ++ x :: post ->
  status x = blocked ->
  post = []
  /\ tasksBlocked r = 1%nat
  /\ is_Some (blockerReason x)
  /\ phaseBlockerReason r = blockerReason x.
Proof.
  intros H Hres Hx. apply executePhase_returned in H
    as (_ & [(-> & _)|(allTasks & l & _ & Hrun & -> & _)]).
  { by destruct pre. }
  apply run_tasks_shape in Hrun as (rs & Hrs & _ & _ & Hlast & Hreason & _).
  cbn [loopResults app] in Hrs. cbn [summarize results] in Hres.
  rewrite Hres in Hrs. subst rs.
  assert (Hpost : post = []) by (by eapply Hlast).
  subst post.
  assert (Hpre : Forall (fun r => status r <> blocked) pre).
  { apply Forall_forall. intros y Hy Hyb.
    apply list_elem_of_split in Hy as (p1 & p2 & ->).
    specialize (Hlast p1 y (p2 ++ [x])). rewrite <- app_assoc in Hlast.
    specialize (Hlast eq_refl Hyb). by destruct p2. }
  split; [done|]. split; [|split].
  - cbn [summarize tasksBlocked]. rewrite Hres, count_app. unfold count.
    replace (filter _ pre) with (@nil TaskResult).
    + rewrite filter_cons, Hx. done.
    + symmetry. clear -Hpre. induction Hpre as [|y pre Hy _ IH]; [done|].
      rewrite filter_cons. destruct (status y); done.
  - apply Forall_app in Hreason as [_ Hreason].
    apply Forall_cons in Hreason as [Hreason _]. by apply Hreason.
  - cbn [summarize phaseBlockerReason]. rewrite Hres.
    replace (list_find _ (pre ++ [x])) with (Some (length pre, x)); [done|].
    symmetry. apply list_find_Some. split; [|split].
    + by rewrite lookup_app_r, Nat.sub_diag by lia.
    + by rewrite Hx.
    + intros j y Hj Hlt. rewrite lookup_app_l in Hj by done.
      eapply Forall_lookup_1 in Hpre; [|exact Hj]. by destruct (status y).
Qed.

Lemma X21_blocked_result_is_last_witness :
  exists r x,
    fst (fst (fst (executePhase idle credentials_manager
                     (world_of [task_A; task_B; task_C] (fun _ => false))
                     options_cli))) = Returned r
    /\ status x = blocked
    /\ tasksBlocked r = 1%nat
    /\ is_Some (blockerReason x)
    /\ phaseBlockerReason r = blockerReason x.
Proof.
  eexists _, _. split; [reflexivity|]. split; [shelve|].
  eapply (X21_blocked_result_is_last idle credentials_manager
            (world_of [task_A; task_B; task_C] (fun _ => false)) options_cli
            _ _ _ _ [_] _ []).
  - reflexivity.
  - reflexivity.
  - reflexivity.
  Unshelve. reflexivity.
Defined.
End PhaseLaws.

Section PhaseEffects.
Import Types Spec PhaseOrchestrator Laws Samples.

(** X22.  The status pushes of a phase that returns are those of its
    results, in order: [in_progress] and then [completed] or [blocked] for
    a task that ended so, [in_progress] alone for a failed task, which is
    thus left in progress in the task store, and none for a skipped one. *)
Theorem X22_status_pushes_follow_results o m w options r o' m' effects :
  executePhase o m w options = (Returned r, o', m', effects) ->
  pushes effects = flat_map pushes_of_result (results r).
Proof.
  intros H. apply executePhase_returned in H
    as (_ & [(-> & -> & _)|(allTasks & l & _ & Hrun & -> & ->)]); [done|].
  apply run_tasks_shape in Hrun as (rs & Hres & _ & _ & _ & _ & Hpush).
  cbn [loopResults loopEffects app pushes omap list_omap] in Hres, Hpush.
  rewrite pushes_app, Hpush. cbn [summarize results]. rewrite Hres.
  simpl. by rewrite app_nil_r.
Qed.

Lemma X22_status_pushes_follow_results_witness :
  exists r o' m' effects,
    executePhase idle
      (manager_with
         (one_shot (fun task =>
                      if bool_decide (promptId task = str "1")
                      then spawned [error_event (str "spawn ENOENT")]
                      else prints [str "done"] 0)))
      (world_of [task_A; task_B; task_C] (is_task 2)) options_cli
    = (Returned r, o', m', effects)
    /\ map status (results r) = [failed; completed; skipped]
    /\ pushes effects
       = [(1%Z, in_progress); (2%Z, in_progress); (2%Z, Types.completed)].
Proof.
  eexists _, _, _, _. split; [reflexivity|]. split; [reflexivity|].
  etransitivity.
  - eapply (X22_status_pushes_follow_results idle
              (manager_with
                 (one_shot (fun task =>
                              if bool_decide (promptId task = str "1")
                              then spawned [error_event (str "spawn ENOENT")]
                              else prints [str "done"] 0)))
              (world_of [task_A; task_B; task_C] (is_task 2)) options_cli).
    reflexivity.
  - reflexivity.
Defined.

(** X23.  A call of [executePhase] on an orchestrator that is not running
    leaves it reset, whether the call returns or throws.  Only a call that
    never returns, because the stream of a task never closes, leaves it
    running, and then every later call throws at once, with no effect. *)
Theorem X23_orchestrator_reset_or_stuck o m w options out o' m' effects :
  isRunning o = false ->
  executePhase o m w options = (out, o', m', effects) ->
  (out <> NeverReturns -> o' = idle)
  /\ (out = NeverReturns ->
      forall m2 w2 options2,
        executePhase o' m2 w2 options2
        = (Raised (ErrorObj (str "Phase execution already in progress")),
           o', m2, [])).
Proof.
  intros Ho. unfold executePhase at 1. rewrite Ho.
  destruct (syncContext w); [|by intros [= <- <- <- <-]].
  destruct (fetchTasksByPhase w) as [allTasks|]; [|by intros [= <- <- <- <-]].
  destruct (List.filter is_pending allTasks) as [|t ts];
    [by intros [= <- <- <- <-]|].
  destruct (run_tasks _ _ _ _) as [l|e l|l]; intros [= <- <- <- <-];
    (split; [done|]); done.
Qed.

Lemma X23_orchestrator_reset_or_stuck_witness :
  exists o' m' effects,
    executePhase idle
      (manager_with (one_shot (fun _ => spawned [stdout_data (str "working")])))
      (world_of [task_A; task_B] (fun _ => false)) options_cli
    = (NeverReturns, o', m', effects)
    /\ forall m2 w2 options2,
         executePhase o' m2 w2 options2
         = (Raised (ErrorObj (str "Phase execution already in progress")),
            o', m2, []).
Proof.
  eexists _, _, _. split; [reflexivity|].
  eapply (X23_orchestrator_reset_or_stuck idle
            (manager_with (one_shot (fun _ => spawned [stdout_data (str "working")])))
            (world_of [task_A; task_B] (fun _ => false)) options_cli).
  - reflexivity.
  - reflexivity.
  - reflexivity.
Defined.

(** X24.  With an agent id no adapter is registered for, the phase throws
    at its first pending task: the error is the registry's, the
    orchestrator is reset, the registry is as before, and the task has
    been announced and pushed as [in_progress], which nothing takes back. *)
Theorem X24_unknown_agent_raises o m w options allTasks first rest :
  isRunning o = false ->
  syncContext w = Ok () ->
  fetchTasksByPhase w = Ok allTasks ->
  List.filter is_pending allTasks = first :: rest ->
  stopRequestedEarly w = false ->
  AgentManager.adapters m !! optAgentId options = None ->
  executePhase o m w options
  = (Raised (ErrorObj (str "Agent not found: " ++ optAgentId options)),
     idle, m,
     [onTaskStart (taskId first); updateTaskStatus (taskId first) in_progress]).
Proof.
  intros Ho Hsync Hfetch Hpending Hstop Hagent.
  unfold executePhase. rewrite Ho, Hsync, Hfetch, Hpending, Hstop.
  cbn [run_tasks loopStop loopManager].
  unfold executeTask, AgentManager.run, AgentManager.executeTask.
  rewrite Hagent. reflexivity.
Qed.

Lemma X24_unknown_agent_raises_witness :
  executePhase idle (AgentManager.mkManager ∅ ∅)
    (world_of [task_A; task_B] (fun _ => false)) options_cli
  = (Raised (ErrorObj (str "Agent not found: github-copilot")),
     idle, AgentManager.mkManager ∅ ∅,
     [onTaskStart 1%Z; updateTaskStatus 1%Z in_progress]).
Proof.
  apply (X24_unknown_agent_raises idle (AgentManager.mkManager ∅ ∅)
           (world_of [task_A; task_B] (fun _ => false)) options_cli
           [task_A; task_B] task_A [task_B]).
  - reflexivity.
  - reflexivity.
  - reflexivity.
  - reflexivity.
  - reflexivity.
  - reflexivity.
Defined.

(** X25.  When the adapter throws at the launch of a task, the task ends
    [failed]: the error output was emitted before the orchestrator
    subscribed, so no output is passed on, and the recorded output is the
    error line alone.  The registry is unchanged and the task has been
    pushed as [in_progress] only. *)
Theorem X25_launch_failure_is_failed_task m w task options a e :
  AgentManager.adapters m !! optAgentId options = Some a ->
  match executeSdk a with
  | Some run_sdk => run_sdk (taskPrompt_of options task) = sdk_throws e
  | None => execute a (taskPrompt_of options task) = spawn_throws e
  end ->
  executeTask m w task options
  = (Resolved
       (mkTaskResult (taskId task) (taskTitle task) failed None
          (elapsed w task) ([LF; LF] ++ str "Error: " ++ message_of e)),
     m, [updateTaskStatus (taskId task) in_progress]).
Proof.
  intros Ha Hthrow. unfold executeTask, AgentManager.run, AgentManager.executeTask.
  rewrite Ha. destruct (executeSdk a) as [run_sdk|]; rewrite Hthrow; by destruct m.
Qed.

Lemma X25_launch_failure_is_failed_task_witness :
  executeTask
    (manager_with (one_shot (fun _ => spawn_throws (ErrorObj (str "EACCES")))))
    (world_of [task_A] (fun _ => false)) task_A options_cli
  = (Resolved
       (mkTaskResult 1 (str "A") failed None 250
          ([LF; LF] ++ str "Error: " ++ str "EACCES")),
     manager_with (one_shot (fun _ => spawn_throws (ErrorObj (str "EACCES")))),
     [updateTaskStatus 1 in_progress]).
Proof.
  apply (X25_launch_failure_is_failed_task
           (manager_with (one_shot (fun _ => spawn_throws (ErrorObj (str "EACCES")))))
           (world_of [task_A] (fun _ => false)) task_A options_cli
           (one_shot (fun _ => spawn_throws (ErrorObj (str "EACCES"))))
           (ErrorObj (str "EACCES"))).
  - reflexivity.
  - reflexivity.
Defined.
End PhaseEffects.

(** ** The execution log store and the handlers that keep it *)

Section LogLaws.
Import Types ConfigStore Laws.

Lemma last_n_last_n {A} n (a b : list A) :
  last_n n (last_n n a ++ b) = last_n n (a ++ b).
Proof.
  unfold last_n. rewrite <- (drop_app_le a b) by lia.
  rewrite drop_drop, !length_drop, !length_app. f_equal. lia.
Qed.

Lemma last_n_length {A} n (l : list A) : (length (last_n n l) <= n)%nat.
Proof. unfold last_n. rewrite length_drop. lia. Qed.

Lemma append_outputs logs t o now :
  stored_outputs (appendExecutionOutput logs t o now) t
  = last_n CAP (stored_outputs logs t ++ [o]).
Proof.
  unfold stored_outputs, getExecutionLogs, appendExecutionOutput.
  rewrite lookup_insert_eq. cbn [outputs].
  set (outs := match logs !! t with Some e => outputs e | None => [] end ++ [o]).
  unfold last_n. destruct (Nat.ltb_spec CAP (length outs)); [done|].
  replace (length outs - CAP)%nat with 0%nat by lia. done.
Qed.

Lemma append_meta logs t o now :
  getExecutionLogs (appendExecutionOutput logs t o now) t ≫= processId
  = getExecutionLogs logs t ≫= processId
  /\ getExecutionLogs (appendExecutionOutput logs t o now) t ≫= status
     = getExecutionLogs logs t ≫= status.
Proof.
  unfold getExecutionLogs, appendExecutionOutput.
  rewrite lookup_insert_eq. done.
Qed.

Lemma append_elsewhere logs t o now t' :
  t' <> t ->
  getExecutionLogs (appendExecutionOutput logs t o now) t'
  = getExecutionLogs logs t'.
Proof.
  intros Hne. unfold getExecutionLogs, appendExecutionOutput.
  by rewrite lookup_insert_ne.
Qed.

Lemma append_all_outputs logs t o l :
  stored_outputs (append_all logs t (o :: l)) t
  = last_n CAP (stored_outputs logs t ++ map fst (o :: l)).
Proof.
  revert logs o. induction l as [|o' l IH]; intros logs o.
  - apply append_outputs.
  - change (append_all logs t (o :: o' :: l))
      with (append_all (appendExecutionOutput logs t (fst o) (snd o)) t (o' :: l)).
    rewrite IH, append_outputs, last_n_last_n, <- app_assoc. done.
Qed.

(** X26.  The log of a task holds the last 2000 outputs: after the outputs
    of a stream were appended one by one, the stored outputs are the last
    2000 of the ones stored before followed by the appended ones, so the
    newest is always kept and the oldest are dropped first. *)
Theorem X26_log_keeps_last_2000 logs t o l :
  let stored := stored_outputs (append_all logs t (l ++ [o])) t in
  stored = last_n 2000 (stored_outputs logs t ++ map fst (l ++ [o]))
  /\ (length stored <= 2000)%nat
  /\ last stored = Some (fst o).
Proof.
  intros stored.
  assert (E : stored = last_n 2000 (stored_outputs logs t ++ map fst (l ++ [o]))).
  { subst stored. destruct l as [|o' l]; apply append_all_outputs. }
  split; [done|]. split; [rewrite E; apply last_n_length|].
  rewrite E, map_app, app_assoc. cbn [map]. unfold last_n.
  set (a := stored_outputs logs t ++ map fst l).
  rewrite length_app. cbn [length].
  rewrite drop_app_le by lia. by rewrite last_snoc.
Qed.

(** X27.  Appending outputs touches nothing else: the process id and the
    status stored for the task stay as they were, and so does the log of
    every other task. *)
Theorem X27_append_keeps_meta logs t l :
  getExecutionLogs (append_all logs t l) t ≫= processId
  = getExecutionLogs logs t ≫= processId
  /\ getExecutionLogs (append_all logs t l) t ≫= status
     = getExecutionLogs logs t ≫= status
  /\ forall t', t' <> t ->
       getExecutionLogs (append_all logs t l) t' = getExecutionLogs logs t'.
Proof.
  revert logs. induction l as [|o l IH]; intros logs; [done|].
  change (append_all logs t (o :: l))
    with (append_all (appendExecutionOutput logs t (fst o) (snd o)) t l).
  destruct (IH (appendExecutionOutput logs t (fst o) (snd o))) as (Hp & Hs & Hf).
  destruct (append_meta logs t (fst o) (snd o)) as [Hp' Hs'].
  split; [congruence|]. split; [congruence|].
  intros t' Hne. rewrite Hf by done. by apply append_elsewhere.
Qed.
End LogLaws.

Section HandlerLaws.
Import Types ConfigStore Handlers Laws Samples.

Lemma meta_outputs logs t p s now :
  stored_outputs (setExecutionMeta logs t p s now) t = stored_outputs logs t.
Proof.
  unfold stored_outputs, getExecutionLogs, setExecutionMeta.
  rewrite lookup_insert_eq. cbn [outputs]. by destruct (logs !! t).
Qed.

Lemma meta_fields logs t p s now :
  getExecutionLogs (setExecutionMeta logs t p s now) t ≫= processId
  = coalesce p (getExecutionLogs logs t ≫= processId)
  /\ getExecutionLogs (setExecutionMeta logs t p s now) t ≫= status
     = coalesce s (getExecutionLogs logs t ≫= status).
Proof.
  unfold getExecutionLogs, setExecutionMeta. rewrite lookup_insert_eq.
  cbn [mbind option_bind processId status]. done.
Qed.

(** The callbacks of the subscription over the outputs of a stream. *)
Lemma on_next_fold channel t stamp outs r :
  let r' := foldl (on_next channel (Some t) stamp) r outs in
  stored_outputs (runLogs r') t
  = match outs with
    | [] => stored_outputs (runLogs r) t
    | _ => last_n CAP (stored_outputs (runLogs r) t ++ outs)
    end
  /\ getExecutionLogs (runLogs r') t ≫= processId
     = getExecutionLogs (runLogs r) t ≫= processId
  /\ getExecutionLogs (runLogs r') t ≫= status
     = getExecutionLogs (runLogs r) t ≫= status
  /\ hasError r' = hasError r || existsb is_error_output outs
  /\ runEffects r' = runEffects r ++ map (send channel) outs.
Proof.
  revert r. induction outs as [|o outs IH]; intros r.
  - simpl. by rewrite orb_false_r, app_nil_r.
  - cbn [foldl].
    destruct (IH (on_next channel (Some t) stamp r o)) as (Ho & Hp & Hs & He & Hf).
    destruct (append_meta (runLogs r) t o (stamp (handled r))) as [Hp' Hs'].
    cbn zeta. rewrite Ho, Hp, Hs, He, Hf. cbn [on_next runLogs hasError runEffects].
    rewrite append_outputs. split; [|split; [done|split; [done|split]]].
    + destruct outs as [|o' outs]; [done|].
      by rewrite last_n_last_n, <- app_assoc.
    + cbn [existsb]. unfold is_error_output at 2.
      destruct (type o), (hasError r); done.
    + rewrite <- app_assoc. done.
Qed.

Lemma processId_of_nonempty agentId realTaskId now :
  exists c p, processId_of agentId realTaskId now = c :: p.
Proof.
  unfold processId_of. destruct agentId as [|c a]; simpl; eauto.
Qed.

Lemma realTaskId_of_real t : t <> 0%Z -> realTaskId_of (Some t) = Some t.
Proof. by destruct t. Qed.

Lemma sent_app a b : sent (a ++ b) = sent a ++ sent b.
Proof. apply omap_app. Qed.

Lemma sent_sends channel outs : sent (map (send channel) outs) = outs.
Proof. induction outs as [|o outs IH]; [done|]. simpl. by rewrite IH. Qed.

(** X28.  For a task of the task store, when the stream of the execution
    closes, the handler has stored the process id it answers with, and the
    stored status is failed when the stream failed or an output of type
    [error] came through it, and completed otherwise. *)
Theorem X28_executeTest_stores_status logs m agentId title description
  projectPath t model now stamp x c answer logs' m' effects :
  t <> 0%Z ->
  AgentManager.run m agentId
    (mkPrompt (str "task-" ++ of_Z t) title description projectPath model None)
    (Some (processId_of agentId (Some t) now)) now = Ok x ->
  Rx.closing (AgentManager.subject x) = Some c ->
  executeTest logs m agentId title description projectPath (Some t) model
    now stamp = (answer, logs', m', effects) ->
  answer = Ok (processId_of agentId (Some t) now)
  /\ getExecutionLogs logs' t ≫= processId
     = Some (processId_of agentId (Some t) now)
  /\ getExecutionLogs logs' t ≫= status
     = Some (match c with
             | Rx.Failed _ => AgentManager.failed
             | Rx.Completed =>
                 if existsb is_error_output
                      (Rx.delivered (AgentManager.subject x))
                 then AgentManager.failed else AgentManager.completed
             end).
Proof.
  intros Ht Hrun Hc. unfold executeTest.
  rewrite (realTaskId_of_real t Ht). cbn [taskPromptId]. rewrite Hrun, Hc.
  match goal with |- context [foldl ?f ?r0 ?outs] =>
    destruct (on_next_fold (str "agent:output:" ++ processId_of agentId (Some t) now)
                t stamp outs r0) as (_ & Hp & Hs & He & _);
    set (r := foldl f r0 outs) in * end.
  cbn [runLogs hasError orb] in Hp, Hs, He.
  destruct (meta_fields logs t (Some (processId_of agentId (Some t) now))
              (Some AgentManager.running) now) as [Hp0 Hs0].
  rewrite Hp0 in Hp. rewrite Hs0 in Hs. cbn [coalesce] in Hp, Hs.
  destruct c as [|e]; cbn [on_closing]; intros [= <- <- <- <-].
  - split; [done|].
    destruct (meta_fields (runLogs r) t None
                (Some (if hasError r then AgentManager.failed
                       else AgentManager.completed)) (stamp (handled r)))
      as [Hp1 Hs1].
    rewrite Hp1, Hs1, Hp, He. done.
  - split; [done|].
    match goal with |- context [setExecutionMeta ?lg t None ?s ?n] =>
      destruct (meta_fields lg t None s n) as [Hp1 Hs1] end.
    rewrite Hp1, Hs1. cbn [coalesce].
    match goal with |- context [appendExecutionOutput ?lg t ?o ?n] =>
      destruct (append_meta lg t o n) as [Hp2 _] end.
    rewrite Hp2, Hp. done.
Qed.

Lemma X28_executeTest_stores_status_witness :
  exists logs' m' effects,
    executeTest ∅ (manager_with (one_shot (fun _ => prints [str "npm ERR!"] 1)))
      (str "github-copilot") (str "Build") (str "Run the build")
      (str "/work/app") (Some 7%Z) None 5 (fun _ => 6)
    = (Ok (str "github-copilot-task-7-5"), logs', m', effects)
    /\ getExecutionLogs logs' 7%Z ≫= processId = Some (str "github-copilot-task-7-5")
    /\ getExecutionLogs logs' 7%Z ≫= status = Some AgentManager.completed
    /\ AgentManager.getExecutionStatus m' (str "github-copilot-task-7-5")
       = Some AgentManager.failed
    /\ getStatus logs' m' 7%Z
       = (Some (str "github-copilot-task-7-5"), Some AgentManager.failed).
Proof.
  eexists _, _, _. split; [reflexivity|].
  edestruct (X28_executeTest_stores_status ∅
               (manager_with (one_shot (fun _ => prints [str "npm ERR!"] 1)))
               (str "github-copilot") (str "Build") (str "Run the build")
               (str "/work/app") 7%Z None 5 (fun _ => 6))
    as (_ & Hp & Hs).
  - done.
  - reflexivity.
  - reflexivity.
  - reflexivity.
  - split; [exact Hp|]. split; [exact Hs|]. split; reflexivity.
Defined.

(** X29.  For a task of the task store, the outputs the handler stores are
    the outputs it sent to the renderer: those of the stream and, when the
    stream failed, the error output it makes of the failure; the log is
    what was stored before followed by them, cut to its last 2000. *)
Theorem X29_executeTest_stores_what_it_sends logs m agentId title description
  projectPath t model now stamp x c answer logs' m' effects :
  t <> 0%Z ->
  AgentManager.run m agentId
    (mkPrompt (str "task-" ++ of_Z t) title description projectPath model None)
    (Some (processId_of agentId (Some t) now)) now = Ok x ->
  Rx.closing (AgentManager.subject x) = Some c ->
  executeTest logs m agentId title description projectPath (Some t) model
    now stamp = (answer, logs', m', effects) ->
  let outs := Rx.delivered (AgentManager.subject x) ++ closing_output c in
  sent effects = outs
  /\ stored_outputs logs' t
     = match outs with
       | [] => stored_outputs logs t
       | _ => last_n 2000 (stored_outputs logs t ++ outs)
       end.
Proof.
  intros Ht Hrun Hc. unfold executeTest.
  rewrite (realTaskId_of_real t Ht). cbn [taskPromptId]. rewrite Hrun, Hc.
  match goal with |- context [foldl ?f ?r0 ?outs] =>
    destruct (on_next_fold (str "agent:output:" ++ processId_of agentId (Some t) now)
                t stamp outs r0) as (Ho & _ & _ & _ & Hf);
    set (r := foldl f r0 outs) in * end.
  cbn [runLogs runEffects] in Ho, Hf. rewrite meta_outputs in Ho.
  set (delivered := Rx.delivered (AgentManager.subject x)) in *.
  destruct c as [|e]; cbn [on_closing]; intros [= <- <- <- <-]; cbn zeta.
  - cbn [closing_output]. rewrite app_nil_r. split.
    + rewrite sent_app, Hf, sent_app, sent_sends. simpl. by rewrite ?app_nil_r.
    + rewrite meta_outputs. exact Ho.
  - assert (Hout : closing_output (Rx.Failed e)
                   = [plain error match e with
                                  | ErrorObj (c :: m0) => c :: m0
                                  | _ => str "Unknown error"
                                  end])
      by (by destruct e as [[|? ?]|]).
    rewrite Hout. split.
    + rewrite sent_app, Hf, sent_app, sent_sends. simpl. by rewrite ?app_nil_r.
    + rewrite meta_outputs, append_outputs, Ho.
      destruct delivered as [|o outs].
      * done.
      * rewrite last_n_last_n, <- app_assoc.
        destruct ((o :: outs) ++ _) eqn:E; [by destruct outs|]. by rewrite <- E.
Qed.

Lemma X29_executeTest_stores_what_it_sends_witness :
  exists logs' m' effects,
    executeTest ∅
      (manager_with
         (one_shot (fun _ => spawned [stdout_data (str "working");
                                      error_event (str "EPIPE")])))
      (str "github-copilot") (str "Build") (str "Run the build")
      (str "/work/app") (Some 7%Z) None 5 (fun _ => 6)
    = (Ok (str "github-copilot-task-7-5"), logs', m', effects)
    /\ sent effects
       = [plain stdout (str "working"); plain error (str "EPIPE");
          plain error (str "EPIPE")]
    /\ stored_outputs logs' 7%Z
       = [plain stdout (str "working"); plain error (str "EPIPE");
          plain error (str "EPIPE")].
Proof.
  eexists _, _, _. split; [reflexivity|].
  edestruct (X29_executeTest_stores_what_it_sends ∅
               (manager_with
                  (one_shot (fun _ => spawned [stdout_data (str "working");
                                               error_event (str "EPIPE")])))
               (str "github-copilot") (str "Build") (str "Run the build")
               (str "/work/app") 7%Z None 5 (fun _ => 6))
    as (Hsent & Hstored).
  - done.
  - reflexivity.
  - reflexivity.
  - reflexivity.
  - split; [exact Hsent|exact Hstored].
Defined.
End HandlerLaws.

Section ExitCodeLaws.
Import Types Spec ConfigStore Handlers Laws Samples.

(** The run of a child process that prints and then exits. *)
Lemma child_exit_run m agent a task pid now pre code :
  AgentManager.adapters m !! agent = Some a -> executeSdk a = None ->
  execute a task = spawned (pre ++ [close_event code]) ->
  existsb is_closing pre = false ->
  exists x,
    AgentManager.run m agent task pid now = Ok x
    /\ Rx.closing (AgentManager.subject x) = Some Rx.Completed
    /\ existsb is_error_output (Rx.delivered (AgentManager.subject x)) = false
    /\ AgentManager.getExecutionStatus (AgentManager.manager x)
         (AgentManager.finalProcessId agent task pid now)
       = Some (closing_status (close_event code)).
Proof.
  intros Ha Hsdk Hspawn Hpre. unfold AgentManager.run, AgentManager.executeTask.
  rewrite Ha, Hsdk, Hspawn. eexists. split; [reflexivity|].
  cbn [AgentManager.finish AgentManager.manager AgentManager.subject
       AgentManager.emit].
  set (p := AgentManager.finalProcessId agent task pid now).
  split; [|split].
  - rewrite foldl_app. cbn [foldl].
    match goal with |- context [foldl ?f ?x0 pre] =>
      destruct (child_data_stream p pre x0 Hpre eq_refl eq_refl) as (Hc & _ & _);
      set (X := foldl f x0 pre) in * end.
    cbn [AgentManager.on_child_event AgentManager.subject].
    unfold Rx.complete, Rx.close, Rx.next. rewrite Hc. cbn [Rx.closing]. done.
  - rewrite foldl_app. cbn [foldl].
    match goal with |- context [foldl ?f ?x0 pre] =>
      destruct (child_data_stream p pre x0 Hpre eq_refl eq_refl) as (Hc & _ & Hd);
      set (X := foldl f x0 pre) in * end.
    cbn [AgentManager.on_child_event AgentManager.subject].
    unfold Rx.complete, Rx.close, Rx.next. rewrite Hc. cbn [Rx.closing Rx.delivered].
    destruct (Rx.observed (AgentManager.subject X));
      rewrite Hd; cbn [AgentManager.subject Rx.subscribe Rx.delivered Rx.fresh Rx.next
                       Rx.closing Rx.emitted app];
      rewrite ?existsb_app; cbn [existsb is_error_output type plain orb];
      rewrite ?orb_false_r;
      clear; induction pre as [|[d|d|c|msg] pre IH]; simpl; done.
  - rewrite (child_events_status _ _ _ AgentManager.running).
    + f_equal. rewrite List.filter_app. cbn [List.filter is_closing].
      replace (List.filter is_closing pre) with (@nil ChildEvent).
      * done.
      * symmetry. clear -Hpre. induction pre as [|e pre IH]; [done|].
        simpl in *. destruct (is_closing e); [done|]. by apply IH.
    + unfold AgentManager.getExecutionStatus, AgentManager.track.
      cbn [AgentManager.manager AgentManager.runningProcesses].
      by rewrite lookup_insert_eq.
Qed.

(** X30.  When the child process of an adapter without [executeSdk] exits
    with a code other than 0, the stream still completes without an
    [error] output: the handler stores the status completed and pushes
    [completed] to the task store, while the registry has recorded the
    execution as failed, which is what [logs:getStatus] then reports. *)
Theorem X30_exit_code_is_lost_in_the_log logs m a agentId title description
  projectPath t model now stamp pre code answer logs' m' effects :
  t <> 0%Z ->
  AgentManager.adapters m !! agentId = Some a -> executeSdk a = None ->
  execute a
    (mkPrompt (str "task-" ++ of_Z t) title description projectPath model None)
  = spawned (pre ++ [close_event code]) ->
  existsb is_closing pre = false ->
  code <> Some 0%Z ->
  executeTest logs m agentId title description projectPath (Some t) model
    now stamp = (answer, logs', m', effects) ->
  getExecutionLogs logs' t ≫= status = Some AgentManager.completed
  /\ last effects = Some (updateTaskStatus t completed)
  /\ getStatus logs' m' t
     = (Some (processId_of agentId (Some t) now), Some AgentManager.failed).
Proof.
  intros Ht Ha Hsdk Hspawn Hpre Hcode.
  destruct (child_exit_run m agentId a _ (Some (processId_of agentId (Some t) now))
              now pre code Ha Hsdk Hspawn Hpre)
    as (x & Hrun & Hc & Herr & Hst).
  unfold executeTest.
  rewrite (realTaskId_of_real t Ht). cbn [taskPromptId]. rewrite Hrun, Hc.
  match goal with |- context [foldl ?f ?r0 ?outs] =>
    destruct (on_next_fold (str "agent:output:" ++ processId_of agentId (Some t) now)
                t stamp outs r0) as (_ & Hp & Hs & He & _);
    set (r := foldl f r0 outs) in * end.
  cbn [runLogs hasError orb] in Hp, Hs, He. rewrite Herr in He.
  destruct (meta_fields logs t (Some (processId_of agentId (Some t) now))
              (Some AgentManager.running) now) as [Hp0 _].
  rewrite Hp0 in Hp. cbn [coalesce] in Hp.
  cbn [on_closing]. rewrite He. intros [= <- <- <- <-].
  destruct (meta_fields (runLogs r) t None (Some AgentManager.completed)
              (stamp (handled r))) as [Hp1 Hs1].
  split; [by rewrite Hs1|]. split; [by rewrite last_snoc|].
  unfold getStatus. rewrite Hp1, Hs1, Hp. cbn [coalesce].
  destruct (processId_of_nonempty agentId (Some t) now) as (c & p & E).
  assert (Hfinal : AgentManager.finalProcessId agentId
                     (mkPrompt (str "task-" ++ of_Z t) title description
                        projectPath model None)
                     (Some (processId_of agentId (Some t) now)) now
                   = processId_of agentId (Some t) now).
  { unfold AgentManager.finalProcessId. by rewrite E. }
  rewrite Hfinal in Hst. rewrite E in *. rewrite Hst.
  destruct code as [[| |]|]; done.
Qed.

Lemma X30_exit_code_is_lost_in_the_log_witness :
  exists answer logs' m' effects,
    executeTest ∅ (manager_with (one_shot (fun _ => prints [str "npm ERR!"] 1)))
      (str "github-copilot") (str "Build") (str "Run the build")
      (str "/work/app") (Some 7%Z) None 5 (fun _ => 6)
    = (answer, logs', m', effects)
    /\ getExecutionLogs logs' 7%Z ≫= status = Some AgentManager.completed
    /\ last effects = Some (updateTaskStatus 7%Z completed)
    /\ getStatus logs' m' 7%Z
       = (Some (processId_of (str "github-copilot") (Some 7%Z) 5),
          Some AgentManager.failed).
Proof.
  eexists _, _, _, _. split; [reflexivity|].
  eapply (X30_exit_code_is_lost_in_the_log ∅
            (manager_with (one_shot (fun _ => prints [str "npm ERR!"] 1)))
            (one_shot (fun _ => prints [str "npm ERR!"] 1))
            (str "github-copilot") (str "Build") (str "Run the build")
            (str "/work/app") 7%Z None 5 (fun _ => 6)
            [stdout_data (str "npm ERR!")] (Some 1%Z)).
  - done.
  - reflexivity.
  - reflexivity.
  - reflexivity.
  - reflexivity.
  - done.
  - reflexivity.
Defined.
End ExitCodeLaws.
